(** * Resilient batch downloader ([src/process_videos.py])

    A shallow embedding of the downloader core: the tracking store
    ([get_downloaded_files], [mark_as_downloaded], [get_expected_sizes]),
    the size prober ([get_expected_file_size]), the download worker
    ([download_video]) and the batch scheduler ([download_videos]).

    Conventions of the embedding.
    - A Python [str] is a list of Unicode code points ([N]); text files hold
      a [str] (the byte encoding of the files is not modelled).
    - A Python [int] is a [Z]. The percentage of the progress log,
      [(downloaded / total_size) * 100], is computed as Python computes it,
      in IEEE 754 binary64 ([SpecFloat] at precision 53) with the rounding
      of each operation and the OverflowError of a result that is too
      large; a finite float is kept as the rational it denotes. The clock
      readings of [time.time()] are rationals ([Q]), inputs of the model, and
      the differences and the throughput taken of them are exact.
    - The network is an oracle: what [session.get] / [session.head] and each
      [response.content.read] deliver is an input of the model.
    - The download directory is a map from file names to contents.
      [open(output_path, 'wb')] fails for the names that no regular file
      can have (a name with a NUL; a path that ends in a slash, in [.] or in
      [..], the empty name among them) and succeeds for the others; the
      other file-system calls on the download and tracking directories
      succeed. *)

From Stdlib Require Import ZArith QArith Qround Lia List String Ascii.
From Stdlib Require Import Floats.SpecFloat.
From stdpp Require Import gmap list.
Import ListNotations.

Local Open Scope Z_scope.

(** ** Python strings *)

Module PyStr.

Abbreviation str := (list N).

Definition py (s : string) : str :=
  List.map N_of_ascii (list_ascii_of_string s).

Definition LF : N := 10%N.
Definition CR : N := 13%N.
Definition SLASH : N := 47%N.

(** [str.isspace] on one code point (CPython's [_PyUnicode_IsWhitespace]). *)
Definition isspace (c : N) : bool :=
  ((9 <=? c) && (c <=? 13) || (28 <=? c) && (c <=? 32)
   || (c =? 133) || (c =? 160) || (c =? 5760)
   || (8192 <=? c) && (c <=? 8202)
   || (c =? 8232) || (c =? 8233) || (c =? 8239) || (c =? 8287)
   || (c =? 12288))%N.

Fixpoint lstrip (s : str) : str :=
  match s with
  | [] => []
  | c :: r => if isspace c then lstrip r else s
  end.

Definition rstrip (s : str) : str := rev (lstrip (rev s)).

(** [s.strip()] *)
Definition strip (s : str) : str := rstrip (lstrip s).

(** Truthiness of a [str]. *)
Definition truthy (s : str) : bool :=
  match s with [] => false | _ => true end.

(** [s.startswith(p)] *)
Fixpoint startswith (p s : str) : bool :=
  match p, s with
  | [], _ => true
  | _ :: _, [] => false
  | a :: p', b :: s' => (a =? b)%N && startswith p' s'
  end.

(** [s.split(sep)] for a one-character separator: never the empty list. *)
Fixpoint split (sep : N) (s : str) : list str :=
  match s with
  | [] => [[]]
  | c :: r =>
      if (c =? sep)%N then [] :: split sep r
      else match split sep r with
           | [] => [[c]]
           | p :: ps => (c :: p) :: ps
           end
  end.

(** Reading a text file opened with [open(path, 'r')]: universal newlines
    turn "\r\n" and a lone "\r" into "\n". [pending] says that the previous
    character was a "\r". *)
Fixpoint translate_newlines (pending : bool) (s : str) : str :=
  match s with
  | [] => []
  | c :: r =>
      if (c =? CR)%N then LF :: translate_newlines true r
      else if (c =? LF)%N then
             if pending then translate_newlines false r
             else LF :: translate_newlines false r
           else c :: translate_newlines false r
  end.

(** [for line in f]: the lines of the translated text, each with its
    terminating "\n" (the last line may have none). *)
Fixpoint lines (s : str) : list str :=
  match s with
  | [] => []
  | c :: r =>
      if (c =? LF)%N then [c] :: lines r
      else match lines r with
           | [] => [[c]]
           | l :: ls => (c :: l) :: ls
           end
  end.

Definition file_lines (text : str) : list str :=
  lines (translate_newlines false text).

(** [[line.strip() for line in f if line.strip()]] *)
Definition stripped_lines (text : str) : list str :=
  List.filter truthy (List.map strip (file_lines text)).

End PyStr.
Import PyStr.

(** ** Tracking store *)

(** The tracking directory and the download directory. [downloaded_txt] is
    [None] when [DOWNLOADED_FILE] does not exist; [videos] maps a filename to
    the bytes of [os.path.join(DOWNLOAD_DIR, filename)]. *)
Record disk := Disk {
  downloaded_txt : option str;
  download_list_txt : str;
  file_sizes_json : gmap str Z;
  videos : gmap str (list Byte.byte)
}.

Definition get_downloaded_files (d : disk) : gset str :=
  match downloaded_txt d with
  | None => ∅
  | Some text => list_to_set (stripped_lines text)
  end.

Definition get_expected_sizes (d : disk) : gmap str Z := file_sizes_json d.

Definition is_url (path : str) : bool :=
  startswith (py "http://") path || startswith (py "https://") path.

(** [os.path.basename]: what follows the last slash. *)
Definition basename (path : str) : str := List.last (split SLASH path) [].

Definition get_filename (path : str) : str :=
  if is_url path then List.last (split SLASH path) [] else basename path.

(** Opening with ['a'] creates the ledger when it is missing. *)
Definition mark_as_downloaded (filename : str) (d : disk) : disk :=
  Disk (Some (default [] (downloaded_txt d) ++ LF :: filename))
       (download_list_txt d) (file_sizes_json d) (videos d).

Definition is_file_complete (filename : str) (expected_size : Z) (d : disk) : bool :=
  match videos d !! filename with
  | None => false
  | Some bytes => Z.of_nat (length bytes) =? expected_size
  end.

(** ** Configuration *)

Definition DOWNLOAD_TIMEOUT : Z := 14400.
Definition CHUNK_TIMEOUT : Z := 1800.
Definition MAX_RETRIES : Z := 5.
Definition RETRY_DELAY : Z := 300.
Definition MAX_CONCURRENT_DOWNLOADS : Z := 2.
Definition CHUNK_SIZE : Z := 1024 * 1024.
Definition RATE_LIMIT_DELAY : Z := 60.
Definition SPEED_CHECK_INTERVAL : Z := 60.
Definition MIN_SPEED_BYTES_PER_SECOND : Z := 1024.

(** ** Exceptions, effects and the monad of the coroutines *)

(** Where an [asyncio.TimeoutError] was raised: by the network layer
    ([asyncio.wait_for] on a chunk read, the client's total timeout), by the
    speed monitor or by the progress monitor. The Python exception is the
    same class at the three sites; the site is kept to tell the aborts
    apart. *)
Inductive timeout_site := AtNetwork | AtSpeedCheck | AtProgressCheck.

Inductive exn :=
| ClientError                       (* aiohttp.ClientError *)
| TimeoutError (site : timeout_site) (* asyncio.TimeoutError *)
| ValueError                        (* int() of a malformed header, open() of a name with a NUL *)
| OtherException.                   (* any other Exception: OSError, OverflowError, ... *)

(** What the network can raise. *)
Inductive net_failure := ConnectionFailed | TimedOut | Unexpected.

Definition exn_of_net (f : net_failure) : exn :=
  match f with
  | ConnectionFailed => ClientError
  | TimedOut => TimeoutError AtNetwork
  | Unexpected => OtherException
  end.

Inductive effect :=
| Sleep (seconds : Z)                          (* await asyncio.sleep(seconds) *)
| Get (url : str)                              (* session.get(url) *)
| Head (url : str)                             (* session.head(url) *)
| Open (filename : str)                        (* open(output_path, 'wb') *)
| Write (filename : str) (chunk : list Byte.byte) (* f.write(chunk) *)
| Close (filename : str)                       (* leaving the with block *)
| Mark (filename : str).                       (* mark_as_downloaded(filename) *)

Inductive result (A : Type) :=
| Return (a : A)
| Raise (e : exn).
Arguments Return {A} a.
Arguments Raise {A} e.

(** A computation reads and updates the disk, emits effects in order and
    returns or raises. *)
Definition M (A : Type) : Type := disk -> result A * disk * list effect.

#[global] Instance M_ret : MRet M := fun A a d => (Return a, d, []).

#[global] Instance M_bind : MBind M := fun A B f m d =>
  match m d with
  | (Return a, d1, t1) =>
      match f a d1 with
      | (r, d2, t2) => (r, d2, t1 ++ t2)
      end
  | (Raise e, d1, t1) => (Raise e, d1, t1)
  end.

Definition raise {A} (e : exn) : M A := fun d => (Raise e, d, []).

Definition try_except {A} (body : M A) (handler : exn -> M A) : M A := fun d =>
  match body d with
  | (Return a, d1, t1) => (Return a, d1, t1)
  | (Raise e, d1, t1) =>
      match handler e d1 with
      | (r, d2, t2) => (r, d2, t1 ++ t2)
      end
  end.

Definition emit (e : effect) : M unit := fun d => (Return tt, d, [e]).

Definition read_disk {A} (f : disk -> A) : M A := fun d => (Return (f d), d, []).

Definition update_disk (f : disk -> disk) : M unit := fun d => (Return tt, f d, []).

Definition sleep (seconds : Z) : M unit := emit (Sleep seconds).

Definition set_video (filename : str) (bytes : list Byte.byte) (d : disk) : disk :=
  Disk (downloaded_txt d) (download_list_txt d) (file_sizes_json d)
       (<[filename := bytes]> (videos d)).

(** The names for which [open(os.path.join(DOWNLOAD_DIR, filename), 'wb')]
    raises whatever the directory holds: a name with a NUL (ValueError:
    embedded null byte), and a path whose last component is empty, [.] or
    [..], which names a directory (IsADirectoryError, an OSError). *)
Definition open_error (filename : str) : option exn :=
  if bool_decide (0%N ∈ filename) then Some ValueError
  else if bool_decide (List.last (split SLASH filename) [] ∈ [[]; py "."; py ".."])
       then Some OtherException
       else None.

(** [open(output_path, 'wb')] creates or truncates the file. *)
Definition open_wb (filename : str) : M unit :=
  match open_error filename with
  | Some e => raise e
  | None => emit (Open filename);; update_disk (set_video filename [])
  end.

Definition write (filename : str) (chunk : list Byte.byte) : M unit :=
  emit (Write filename chunk);;
  update_disk (fun d => set_video filename (default [] (videos d !! filename) ++ chunk) d).

(** [with open(output_path, 'wb') as f: body]: the file is closed when the
    block is left, also by an exception. *)
Definition with_open {A} (filename : str) (body : M A) : M A :=
  open_wb filename;;
  try_except (a ← body; emit (Close filename);; mret a)
             (fun e => emit (Close filename);; raise e).

Definition mark (filename : str) : M unit :=
  emit (Mark filename);; update_disk (mark_as_downloaded filename).

(** ** The network oracle *)

(** A header read through [int(response.headers.get(name, 0))]: absent,
    present but not an integer literal, or an integer. *)
Inductive header_int := NoHeader | BadHeader | IntHeader (n : Z).

Definition int_header (h : header_int) : M Z :=
  match h with
  | NoHeader => mret 0
  | BadHeader => raise ValueError
  | IntHeader n => mret n
  end.

(** One [await asyncio.wait_for(response.content.read(CHUNK_SIZE), ...)]:
    the bytes delivered (none at the end of the stream) with the two clock
    readings [time.time()] taken while the chunk is processed, or a
    failure. A body that has run out of events is at its end. *)
Inductive read_result :=
| Data (chunk : list Byte.byte) (t_speed t_progress : Q)
| ReadError (f : net_failure).

Inductive get_result :=
| GetError (f : net_failure)
| Response (status : Z) (content_length : header_int) (body : list read_result).

Inductive head_result :=
| HeadError (f : net_failure)
| HeadResponse (status : Z) (content_length : header_int).

(** The session: what the server answers to the GET of attempt
    [retry_count] of a url, the clock when that attempt starts, and what it
    answers to a HEAD. *)
Record session := Session {
  start_clock : str -> Z -> Q;
  get : str -> Z -> get_result;
  head : str -> head_result
}.

(** ** Size prober *)

Definition get_expected_file_size (url : str) (s : session) : M (option Z) :=
  try_except
    (emit (Head url);;
     match head s url with
     | HeadError f => raise (exn_of_net f)
     | HeadResponse status content_length =>
         if status =? 200 then
           size ← int_header content_length;
           if size >? 0 then mret (Some size) else mret None
         else mret None
     end)
    (fun _ => mret None).

(** ** Download worker *)

Definition Qlt_bool (a b : Q) : bool := negb (Qle_bool b a).

(** [int(x)] of a float: truncation toward zero. *)
Definition int_of_float (x : Q) : Z := Z.quot (Qnum x) (Z.pos (Qden x)).

(** Python's [float] is IEEE 754 binary64. *)
Definition prec : Z := 53.
Definition emax : Z := 1024.

(** [float(n)] for an [int] that a float holds exactly. *)
Definition float_of_int (n : Z) : spec_float := binary_normalize prec emax n 0 false.

(** [a / b] on two [int]s: the quotient rounded to the nearest float, ties
    to even. [None] when it raises (ZeroDivisionError, or OverflowError for
    a quotient too large for a float). *)
Definition int_truediv (a b : Z) : option spec_float :=
  match b with
  | 0 => None
  | _ =>
      match a with
      | 0 => Some (S754_zero (b <? 0))
      | _ =>
          match SFdiv prec emax (S754_finite (a <? 0) (Z.to_pos (Z.abs a)) 0)
                  (S754_finite (b <? 0) (Z.to_pos (Z.abs b)) 0) with
          | S754_infinity _ => None
          | x => Some x
          end
      end
  end.

(** The rational that a finite float denotes. *)
Definition Q_of_float (x : spec_float) : option Q :=
  match x with
  | S754_zero _ => Some (inject_Z 0)
  | S754_finite s m e =>
      let n := if s then Z.neg m else Z.pos m in
      Some (match e with
            | Z.neg p => Qmake n (2 ^ p)
            | _ => inject_Z (n * 2 ^ e)
            end)
  | _ => None
  end.

(** Line 190: [(downloaded / total_size) * 100], as the value that
    [int(progress)] is taken of at line 194. [None] when the division
    raises OverflowError or when the product is infinite, of which [int()]
    raises OverflowError. *)
Definition percentage (downloaded total_size : Z) : option Q :=
  match int_truediv downloaded total_size with
  | Some q => Q_of_float (SFmul prec emax q (float_of_int 100))
  | None => None
  end.

(** The local variables of one attempt that the loop updates.
    [last_progress] is the [int] 0 at first and then the float logged last,
    kept as the rational it denotes. *)
Record attempt_state := AttemptState {
  downloaded : Z;
  last_progress : Q;
  stall_count : Z;
  last_speed_check : Q;
  last_bytes_downloaded : Z;
  last_progress_time : Q
}.

Definition initial_state (start_time : Q) : attempt_state :=
  AttemptState 0 (inject_Z 0) 0 start_time 0 start_time.

Definition add_downloaded (n : Z) (st : attempt_state) : attempt_state :=
  AttemptState (downloaded st + n) (last_progress st) (stall_count st)
    (last_speed_check st) (last_bytes_downloaded st) (last_progress_time st).

Definition set_stall_count (n : Z) (st : attempt_state) : attempt_state :=
  AttemptState (downloaded st) (last_progress st) n
    (last_speed_check st) (last_bytes_downloaded st) (last_progress_time st).

Definition set_speed_check (t : Q) (st : attempt_state) : attempt_state :=
  AttemptState (downloaded st) (last_progress st) (stall_count st)
    t (downloaded st) (last_progress_time st).

Definition set_progress (progress t : Q) (st : attempt_state) : attempt_state :=
  AttemptState (downloaded st) progress (stall_count st)
    (last_speed_check st) (last_bytes_downloaded st) t.

(** [expected_size and downloaded < expected_size], with
    [expected_size = file_sizes.get(filename)]. *)
Definition stalled_short (file_sizes : gmap str Z) (filename : str) (downloaded : Z) : bool :=
  match file_sizes !! filename with
  | None => false
  | Some expected_size => negb (expected_size =? 0) && (downloaded <? expected_size)
  end.

(** The throughput of the interval that ends at [current_time]. *)
Definition speed (current_time : Q) (st : attempt_state) : Q :=
  (inject_Z (downloaded st - last_bytes_downloaded st)
   / (current_time - last_speed_check st))%Q.

(** Lines 166-187: speed monitoring after a chunk was written. *)
Definition speed_monitor (filename : str) (current_time : Q) (st : attempt_state)
  : M attempt_state :=
  if Qle_bool (inject_Z SPEED_CHECK_INTERVAL) (current_time - last_speed_check st) then
    st ← (if Qlt_bool (speed current_time st) (inject_Z MIN_SPEED_BYTES_PER_SECOND) then
            let st := set_stall_count (stall_count st + 1) st in
            if stall_count st >=? 3 then
              file_sizes ← read_disk get_expected_sizes;
              if stalled_short file_sizes filename (downloaded st)
              then raise (TimeoutError AtSpeedCheck)
              else mret st
            else mret st
          else mret (set_stall_count 0 st));
    mret (set_speed_check current_time st)
  else mret st.

(** Lines 189-206: percentage progress and the stuck-progress check. *)
Definition progress_monitor (filename : str) (total_size : Z) (current_time : Q)
    (st : attempt_state) : M attempt_state :=
  if total_size >? 0 then
    match percentage (downloaded st) total_size with
    | None => raise OtherException
    | Some progress =>
        if int_of_float progress >? int_of_float (last_progress st) then
          mret (set_progress progress current_time st)
        else if Qlt_bool (inject_Z CHUNK_TIMEOUT)
                  (current_time - last_progress_time st) then
          file_sizes ← read_disk get_expected_sizes;
          if stalled_short file_sizes filename (downloaded st) then
            let st := set_stall_count (stall_count st + 1) st in
            if stall_count st >=? 3 then raise (TimeoutError AtProgressCheck)
            else mret st
          else mret st
        else mret st
    end
  else mret st.

(** Lines 154-209: the [while True] loop over the chunks of the body. *)
Fixpoint read_loop (filename : str) (total_size : Z) (body : list read_result)
    (st : attempt_state) : M unit :=
  match body with
  | [] => mret tt
  | ReadError f :: _ => raise (exn_of_net f)
  | Data chunk t_speed t_progress :: rest =>
      match chunk with
      | [] => mret tt
      | _ :: _ =>
          write filename chunk;;
          let st := add_downloaded (Z.of_nat (length chunk)) st in
          st ← speed_monitor filename t_speed st;
          st ← progress_monitor filename total_size t_progress st;
          read_loop filename total_size rest st
      end
  end.

(** Lines 138-223: the body of the [try] of one attempt. *)
Definition attempt (s : session) (url filename : str) (retry_count : Z) : M bool :=
  let start_time := start_clock s url retry_count in
  (if retry_count =? 0 then sleep RATE_LIMIT_DELAY else mret tt);;
  emit (Get url);;
  match get s url retry_count with
  | GetError f => raise (exn_of_net f)
  | Response status content_length body =>
      if status =? 200 then
        total_size ← int_header content_length;
        with_open filename (read_loop filename total_size body (initial_state start_time));;
        mark filename;;
        mret true
      else mret false
  end.

(** [download_video], its recursion bounded by [fuel]; [None] when the fuel
    runs out. *)
Fixpoint download_video_rec (fuel : nat) (s : session) (url filename : str)
    (retry_count : Z) : M (option bool) :=
  match fuel with
  | O => mret None
  | S fuel' =>
      try_except (b ← attempt s url filename retry_count; mret (Some b))
        (fun e =>
           match e with
           | ClientError | TimeoutError _ =>
               if retry_count <? MAX_RETRIES - 1 then
                 let retry_delay := RETRY_DELAY * 2 ^ retry_count in
                 sleep retry_delay;;
                 download_video_rec fuel' s url filename (retry_count + 1)
               else mret (Some false)
           | _ => mret (Some false)
           end)
  end.

Definition download_video (s : session) (url filename : str) (retry_count : Z)
  : M (option bool) :=
  download_video_rec (S (Z.to_nat (MAX_RETRIES - 1 - retry_count))) s url filename retry_count.

(** ** Batch scheduler *)

(** [range(start, stop, step)] for a positive step. *)
Definition range (start stop step : Z) : list Z :=
  List.map (fun k => start + Z.of_nat k * step)
    (List.seq 0 (Z.to_nat ((stop - start + step - 1) / step))).

Definition len {A} (l : list A) : Z := Z.of_nat (length l).

(** A slice bound as Python resolves it against the length. *)
Definition slice_index (n i : Z) : Z :=
  if i <? 0 then Z.max 0 (n + i) else Z.min i n.

(** [l[lo:hi]] *)
Definition slice {A} (lo hi : Z) (l : list A) : list A :=
  let a := slice_index (len l) lo in
  let b := slice_index (len l) hi in
  firstn (Z.to_nat (b - a)) (skipn (Z.to_nat a) l).

(** What the scheduler does, in order: launch the workers of a batch and
    await them all ([asyncio.gather]), or sleep. A worker is the pair of
    arguments [(url, filename)] given to [download_video]. *)
Inductive sched_action :=
| Gather (workers : list (str * str))
| Pace (seconds : Z).

Definition download_with_semaphore (url : str) : str * str := (url, get_filename url).

Definition download_videos (limit : option Z) (d : disk) : list sched_action :=
  let downloaded_files := get_downloaded_files d in
  let video_urls := stripped_lines (download_list_txt d) in
  let video_urls := List.filter is_url video_urls in
  let video_urls :=
    List.filter (fun url => bool_decide (get_filename url ∉ downloaded_files)) video_urls in
  match video_urls with
  | [] => []
  | _ :: _ =>
      let video_urls :=
        match limit with
        | Some n => slice 0 n video_urls
        | None => video_urls
        end in
      List.flat_map
        (fun i =>
           let batch := slice i (i + MAX_CONCURRENT_DOWNLOADS) video_urls in
           Gather (List.map download_with_semaphore batch)
           :: (if i + MAX_CONCURRENT_DOWNLOADS <? len video_urls
               then [Pace RATE_LIMIT_DELAY] else []))
        (range 0 (len video_urls) MAX_CONCURRENT_DOWNLOADS)
  end.

(** ** Vocabulary of the statements *)

(** The exceptions caught by
    [except (aiohttp.ClientError, asyncio.TimeoutError)]. *)
Definition retryable (e : exn) : bool :=
  match e with
  | ClientError | TimeoutError _ => true
  | _ => false
  end.

(** Every attempt of the file fails with a connection error or a timeout,
    whatever the disk holds. *)
Definition always_fails (s : session) (url filename : str) : Prop :=
  forall k dk, 0 <= k < MAX_RETRIES ->
    exists e d1 t1,
      attempt s url filename k dk = (Raise e, d1, t1) /\ retryable e = true.

(** The sleep that opens the first attempt of a file. *)
Definition first_attempt_delay (retry_count : Z) : list effect :=
  if retry_count =? 0 then [Sleep RATE_LIMIT_DELAY] else [].

(** The chunks a body delivers before its end: up to the first empty read,
    the first failure or the end of the events. *)
Fixpoint stream_chunks (body : list read_result) : list (list Byte.byte) :=
  match body with
  | Data (b :: bs) _ _ :: rest => (b :: bs) :: stream_chunks rest
  | _ => []
  end.

(** A body that reaches its end without a failure of the network. *)
Fixpoint clean_body (body : list read_result) : bool :=
  match body with
  | [] => true
  | Data [] _ _ :: _ => true
  | Data (_ :: _) _ _ :: rest => clean_body rest
  | ReadError _ :: _ => false
  end.

(** The sleeps of a trace, in order, and the number of its requests. *)
Definition sleeps (t : list effect) : list Z :=
  omap (fun e => match e with Sleep n => Some n | _ => None end) t.

Definition attempts (t : list effect) : nat :=
  length (List.filter (fun e => match e with Get _ => true | _ => false end) t).

Definition is_mark (e : effect) : bool :=
  match e with Mark _ => true | _ => false end.

(** The number of bytes of a sequence of chunks. *)
Definition total_bytes (chunks : list (list Byte.byte)) : Z :=
  fold_right (fun chunk n => Z.of_nat (length chunk) + n) 0 chunks.

(** The throughput sample taken when a chunk is processed at
    [current_time]: [None] when the interval has not elapsed, otherwise
    whether the speed is below the minimum. *)
Definition sample (current_time : Q) (st : attempt_state) : option bool :=
  if Qle_bool (inject_Z SPEED_CHECK_INTERVAL) (current_time - last_speed_check st)
  then Some (Qlt_bool (speed current_time st) (inject_Z MIN_SPEED_BYTES_PER_SECOND))
  else None.

(** The two monitors run on one chunk. *)
Definition monitors (filename : str) (total_size : Z) (t_speed t_progress : Q)
    (st : attempt_state) : M attempt_state :=
  st ← speed_monitor filename t_speed st;
  progress_monitor filename total_size t_progress st.

(** The loop replayed over a prefix of the body that it gets through:
    the state it reaches, with the number of low samples since the last
    healthy one. [None] when the loop leaves the prefix. *)
Fixpoint low_streak (filename : str) (total_size : Z) (d : disk)
    (body : list read_result) (st : attempt_state) (n : nat)
  : option (nat * attempt_state) :=
  match body with
  | [] => Some (n, st)
  | Data (b :: bs) t_speed t_progress :: rest =>
      let st1 := add_downloaded (Z.of_nat (length (b :: bs))) st in
      match monitors filename total_size t_speed t_progress st1 d with
      | (Return st2, _, _) =>
          low_streak filename total_size d rest st2
            (match sample t_speed st1 with
             | Some true => S n
             | Some false => O
             | None => n
             end)
      | _ => None
      end
  | _ => None
  end.

(** The url list the scheduler works on, after the filters and the limit. *)
Definition new_video_urls (limit : option Z) (d : disk) : list str :=
  let video_urls :=
    List.filter (fun url => bool_decide (get_filename url ∉ get_downloaded_files d))
      (List.filter is_url (stripped_lines (download_list_txt d))) in
  match video_urls, limit with
  | [], _ => []
  | _, Some n => slice 0 n video_urls
  | _, None => video_urls
  end.

(** The loop of the scheduler over the final list, and the same schedule
    by recursion on the list. *)
Definition schedule (video_urls : list str) : list sched_action :=
  List.flat_map
    (fun i =>
       Gather (List.map download_with_semaphore
                 (slice i (i + MAX_CONCURRENT_DOWNLOADS) video_urls))
       :: (if i + MAX_CONCURRENT_DOWNLOADS <? len video_urls
           then [Pace RATE_LIMIT_DELAY] else []))
    (range 0 (len video_urls) MAX_CONCURRENT_DOWNLOADS).

Fixpoint groups_of_two (video_urls : list str) : list sched_action :=
  match video_urls with
  | [] => []
  | [a] => [Gather [download_with_semaphore a]]
  | [a; b] => [Gather [download_with_semaphore a; download_with_semaphore b]]
  | a :: b :: rest =>
      Gather [download_with_semaphore a; download_with_semaphore b]
      :: Pace RATE_LIMIT_DELAY :: groups_of_two rest
  end.

Definition workers (acts : list sched_action) : list (str * str) :=
  List.flat_map (fun a => match a with Gather ws => ws | Pace _ => [] end) acts.

Definition pacing_delays (acts : list sched_action) : list Z :=
  omap (fun a => match a with Pace n => Some n | Gather _ => None end) acts.

Definition group_sizes (acts : list sched_action) : list nat :=
  omap (fun a => match a with Gather ws => Some (length ws) | Pace _ => None end) acts.

(** The size prober as the contract words it: the declared content length
    when the server responds successfully (a 2xx status) and the value is
    positive, unknown otherwise. *)
Definition probe_contract (h : head_result) : option Z :=
  match h with
  | HeadResponse status (IntHeader n) =>
      if (200 <=? status) && (status <? 300) && (0 <? n) then Some n else None
  | _ => None
  end.

(** The requests and the sleeps of a trace, in the order they are made. *)
Definition pacing (t : list effect) : list effect :=
  List.filter (fun e => match e with Sleep _ | Get _ => true | _ => false end) t.

(** A name that every file system takes for a file of the download
    directory: one path component, not empty, [.] or [..], of at most 255
    ASCII characters other than NUL and the slash. *)
Definition plain_name (filename : str) : Prop :=
  filename <> [] /\ filename <> py "." /\ filename <> py ".."
  /\ (length filename <= 255)%nat
  /\ Forall (fun c => (0 < c < 128)%N /\ c <> SLASH) filename.

(** How a body ends when no check aborts the loop: at the end of the
    stream, or with the failure of a read. *)
Fixpoint body_end (body : list read_result) : result unit :=
  match body with
  | [] => Return tt
  | Data [] _ _ :: _ => Return tt
  | Data (_ :: _) _ _ :: rest => body_end rest
  | ReadError f :: _ => Raise (exn_of_net f)
  end.

(** A body made of chunks that hold bytes. *)
Definition all_data (body : list read_result) : bool :=
  forallb (fun ev => match ev with Data (_ :: _) _ _ => true | _ => false end) body.

(** ** The stall detector as the specification words it *)

(** What the detector sees of a chunk: its size and the clock when its
    throughput and its progress are looked at. *)
Abbreviation observation := (Z * Q * Q)%type.

Fixpoint observations (body : list read_result) : list observation :=
  match body with
  | Data (b :: bs) t_speed t_progress :: rest =>
      (len (b :: bs), t_speed, t_progress) :: observations rest
  | _ => []
  end.

(** Throughput sampling. A sample is taken on the first chunk that arrives
    [SPEED_CHECK_INTERVAL] or more after the previous sample (after the
    start of the attempt, for the first one); it is low when the bytes
    received since then, [pending] and the chunk, over the time elapsed are
    below [MIN_SPEED_BYTES_PER_SECOND]. The step gives the sample of the
    chunk, if one is taken, with the start of the interval and the bytes
    pending after it. *)
Definition sample_step (since : Q) (pending : Z) (o : observation)
  : option bool * (Q * Z) :=
  let '(n, t, _) := o in
  if Qle_bool (inject_Z SPEED_CHECK_INTERVAL) (t - since) then
    (Some (Qlt_bool (inject_Z (pending + n) / (t - since))
             (inject_Z MIN_SPEED_BYTES_PER_SECOND)),
     (t, 0))
  else (None, (since, pending + n)).

(** For each chunk: no sample, a low sample ([true]) or a healthy one. *)
Fixpoint throughput_samples (since : Q) (pending : Z) (obs : list observation)
  : list (option bool) :=
  match obs with
  | [] => []
  | o :: rest =>
      let '(s, (since', pending')) := sample_step since pending o in
      s :: throughput_samples since' pending' rest
  end.

(** The progress log. With a declared length, the integer percentage of
    the bytes received is logged when it exceeds the one logged last (0 at
    the start); a chunk on which it does not, when the last log (the
    start, before the first one) is more than [CHUNK_TIMEOUT] ago, is a
    stuck-progress signal. [Overflow]: the percentage is no finite float. *)
Inductive progress_signal := Logged | Stuck | Quiet | Overflow.

Definition signal_step (total_size logged : Z) (logged_at : Q) (received : Z)
    (o : observation) : progress_signal * (Z * Q) :=
  let '(_, _, t) := o in
  if total_size >? 0 then
    match percentage received total_size with
    | None => (Overflow, (logged, logged_at))
    | Some p =>
        if int_of_float p >? logged then (Logged, (int_of_float p, t))
        else if Qlt_bool (inject_Z CHUNK_TIMEOUT) (t - logged_at)
             then (Stuck, (logged, logged_at))
             else (Quiet, (logged, logged_at))
    end
  else (Quiet, (logged, logged_at)).

Fixpoint progress_signals (total_size logged : Z) (logged_at : Q) (received : Z)
    (obs : list observation) : list progress_signal :=
  match obs with
  | [] => []
  | o :: rest =>
      let received := received + fst (fst o) in
      let '(g, (logged', logged_at')) :=
        signal_step total_size logged logged_at received o in
      g :: progress_signals total_size logged' logged_at' received rest
  end.

(** The expected size is known and above the bytes received. *)
Definition known_short (expected : option Z) (received : Z) : bool :=
  match expected with
  | Some expected_size => received <? expected_size
  | None => false
  end.

(** What the consecutive-stall counter makes of the chunks: it goes
    through them with a count, or it aborts the attempt. *)
Inductive verdict :=
| Passed (counter : Z)
| SpeedStall
| ProgressStall
| PercentageError.

(** A low sample increments the counter and aborts when the counter has
    reached 3 and the file is short of its expected size; a healthy
    sample resets the counter. *)
Definition count_sample (expected : option Z) (received counter : Z)
    (s : option bool) : verdict :=
  match s with
  | None => Passed counter
  | Some false => Passed 0
  | Some true =>
      if (3 <=? counter + 1) && known_short expected received then SpeedStall
      else Passed (counter + 1)
  end.

(** A stuck-progress signal on a file that is short of its expected size
    increments the same counter and aborts when it has reached 3. *)
Definition count_signal (expected : option Z) (received counter : Z)
    (g : progress_signal) : verdict :=
  match g with
  | Stuck =>
      if known_short expected received then
        if 3 <=? counter + 1 then ProgressStall else Passed (counter + 1)
      else Passed counter
  | Overflow => PercentageError
  | Logged | Quiet => Passed counter
  end.

Definition count_chunk (expected : option Z) (received counter : Z)
    (s : option bool) (g : progress_signal) : verdict :=
  match count_sample expected received counter s with
  | Passed c => count_signal expected received c g
  | v => v
  end.

Fixpoint stall_counter (expected : option Z) (counter received : Z)
    (events : list (Z * option bool * progress_signal)) : verdict :=
  match events with
  | [] => Passed counter
  | (n, s, g) :: rest =>
      match count_chunk expected (received + n) counter s g with
      | Passed c => stall_counter expected c (received + n) rest
      | v => v
      end
  end.

(** The size, the sample and the progress signal of each chunk. *)
Definition chunk_events_from (since : Q) (pending : Z) (total_size logged : Z)
    (logged_at : Q) (received : Z) (obs : list observation)
  : list (Z * option bool * progress_signal) :=
  zip (zip (List.map (fun o => fst (fst o)) obs) (throughput_samples since pending obs))
      (progress_signals total_size logged logged_at received obs).

Definition chunk_events (start : Q) (total_size : Z) (obs : list observation)
  : list (Z * option bool * progress_signal) :=
  chunk_events_from start 0 total_size 0 start 0 obs.

(** The verdict on the chunks of an attempt that started at [start]. *)
Definition stall_verdict (expected : option Z) (start : Q) (total_size : Z)
    (obs : list observation) : verdict :=
  stall_counter expected 0 0 (chunk_events start total_size obs).

(** The exception of a verdict that aborts. *)
Definition abort_of (v : verdict) : option exn :=
  match v with
  | Passed _ => None
  | SpeedStall => Some (TimeoutError AtSpeedCheck)
  | ProgressStall => Some (TimeoutError AtProgressCheck)
  | PercentageError => Some OtherException
  end.

(** The sample and the signal of the last chunk. *)
Definition last_sample (start : Q) (obs : list observation) : option bool :=
  default None (last (throughput_samples start 0 obs)).

Definition last_signal (start : Q) (total_size : Z) (obs : list observation)
  : progress_signal :=
  default Quiet (last (progress_signals total_size 0 start 0 obs)).

(** The low samples at the end of a sequence of samples, the chunks
    without a sample left out. *)
Definition low_run_from (n : nat) (samples : list (option bool)) : nat :=
  fold_left (fun n s => match s with
                        | Some true => S n
                        | Some false => O
                        | None => n
                        end) samples n.

Definition low_run (samples : list (option bool)) : nat := low_run_from 0 samples.

(** The variables of the loop hold what the detector keeps. *)
Definition tracks (st : attempt_state) (since : Q) (pending logged : Z)
    (logged_at : Q) (received counter : Z) : Prop :=
  downloaded st = received /\ 0 <= received /\ stall_count st = counter
  /\ last_speed_check st = since /\ last_bytes_downloaded st = received - pending
  /\ int_of_float (last_progress st) = logged /\ last_progress_time st = logged_at.

(** The lines of a text from its pieces between line feeds. *)
Fixpoint lines_of_pieces (ps : list str) : list str :=
  match ps with
  | [] => []
  | [p] => match p with [] => [] | _ => [p] end
  | p :: ps' => (p ++ [LF]) :: lines_of_pieces ps'
  end.

(** Whether a text leaves a carriage return pending at its end. *)
Fixpoint ends_with_cr (pending : bool) (s : str) : bool :=
  match s with
  | [] => pending
  | c :: r => ends_with_cr (c =? CR)%N r
  end.

(** ** Concrete inputs *)

Module Examples.

Definition empty_disk : disk := Disk None [] ∅ ∅.

Definition x : Byte.byte := Byte.x41.

Definition video : str := py "talk.mp4".
Definition video_url : str := py "http://host/talk.mp4".

(** A server that answers every request the same way. *)
Definition always (g : get_result) : session :=
  Session (fun _ _ => inject_Z 0) (fun _ _ => g) (fun _ => HeadResponse 200 (IntHeader 3)).

(** Three chunks of one byte, one second apart. *)
Definition three_chunks : list read_result :=
  [Data [x] (inject_Z 61) (inject_Z 61);
   Data [x] (inject_Z 62) (inject_Z 62);
   Data [x] (inject_Z 63) (inject_Z 63)].

(** The ledger knows the size of the video and the server declares it. *)
Definition sized_disk : disk := Disk None [] {[ video := 1000000000 ]} ∅.

(** Two one-byte chunks: at 1801 s and at 1861 s. *)
Definition two_slow_chunks : list read_result :=
  [Data [x] (inject_Z 1801) (inject_Z 1801);
   Data [x] (inject_Z 1861) (inject_Z 1861)].

(** Three one-byte chunks a minute apart. *)
Definition three_slow_chunks : list read_result :=
  [Data [x] (inject_Z 120) (inject_Z 120);
   Data [x] (inject_Z 180) (inject_Z 180);
   Data [x] (inject_Z 240) (inject_Z 240)].

(** A file of 1000 bytes that starts late: three single bytes half an
    hour after the start, one second apart, then the rest. *)
Definition slow_start : list read_result :=
  [Data [x] (inject_Z 1801) (inject_Z 1801);
   Data [x] (inject_Z 1802) (inject_Z 1802);
   Data [x] (inject_Z 1803) (inject_Z 1803);
   Data (repeat x 997) (inject_Z 1804) (inject_Z 1804)].

(** The ledger knows the size of that file. *)
Definition thousand_disk : disk := Disk None [] {[ video := 1000 ]} ∅.

(** Of a file of 100 bytes: 28 bytes after a minute, then a byte more
    than half an hour later, and one more a minute after that one. *)
Definition twenty_nine_percent : list read_result :=
  [Data (repeat x 28) (inject_Z 60) (inject_Z 60);
   Data [x] (inject_Z 2000) (inject_Z 2000);
   Data [x] (inject_Z 2060) (inject_Z 2060)].

Definition hundred_disk : disk := Disk None [] {[ video := 100 ]} ∅.

Definition padded_name : str := py " a".

Definition five_urls : str :=
  py "http://h/1"%string ++ LF :: py "http://h/2"%string ++ LF :: py "http://h/3"
  ++ LF :: py "http://h/4" ++ LF :: py "http://h/5".

Definition five_disk : disk := Disk None five_urls ∅ ∅.

Definition mixed_list : str :=
  py "http://h/a.mp4" ++ LF :: py "/tmp/b.mp4" ++ LF :: py "https://h/c.mp4".

Definition resumed_disk : disk :=
  Disk (Some (LF :: py "a.mp4")) mixed_list ∅ ∅.

End Examples.

(** ** Connectivity check *)

(** The two commands [check_network_connectivity] runs through
    [asyncio.create_subprocess_exec]: [nslookup wccdownload.on24.com] and
    [ping -c 4 wccdownload.on24.com]. *)
Inductive command := Nslookup | Ping.

(** What running a command gives: it cannot be started or awaited (an
    exception), or it exits with a return code; the two booleans say
    whether the captured stdout and stderr decode as text. *)
Inductive process_result :=
| SpawnFailed
| Exited (returncode : Z) (stdout_decodes stderr_decodes : bool).

(** [captured.decode()] *)
Definition decode (decodes : bool) : result unit :=
  if decodes then Return tt else Raise OtherException.

(** Lines 43-73: the body of the [try], with the commands it has run. *)
Definition connectivity_body (run : command -> process_result)
  : result bool * list command :=
  match run Nslookup with
  | SpawnFailed => (Raise OtherException, [Nslookup])
  | Exited returncode _ stderr_decodes =>
      if returncode =? 0 then
        match run Ping with
        | SpawnFailed => (Raise OtherException, [Nslookup; Ping])
        | Exited returncode stdout_decodes stderr_decodes =>
            if returncode =? 0 then
              match decode stdout_decodes with
              | Return _ => (Return true, [Nslookup; Ping])
              | Raise e => (Raise e, [Nslookup; Ping])
              end
            else
              match decode stderr_decodes with
              | Return _ => (Return false, [Nslookup; Ping])
              | Raise e => (Raise e, [Nslookup; Ping])
              end
        end
      else
        match decode stderr_decodes with
        | Return _ => (Return false, [Nslookup])
        | Raise e => (Raise e, [Nslookup])
        end
  end.

Definition check_network_connectivity (run : command -> process_result)
  : bool * list command :=
  match connectivity_body run with
  | (Return b, t) => (b, t)
  | (Raise _, t) => (false, t)
  end.

(** ** More vocabulary *)

(** The seconds a trace sleeps in all. *)
Definition total_sleep (t : list effect) : Z := fold_right Z.add 0 (sleeps t).

(** The effects one run of [download_video] may have. *)
Definition effect_of (url filename : str) (e : effect) : Prop :=
  match e with
  | Sleep _ => True
  | Get u => u = url
  | Head _ => False
  | Open f | Write f _ | Close f | Mark f => f = filename
  end.

(** A filename that [get_downloaded_files] can give back: not empty, no
    whitespace around it, no line terminator in it. *)
Definition ledger_name (filename : str) : Prop :=
  filename <> [] /\ strip filename = filename
  /\ (LF ∉ filename) /\ (CR ∉ filename).

(** How many times a url stands in a list. *)
Definition occurrences (url : str) (l : list str) : nat :=
  length (List.filter (fun u => bool_decide (u = url)) l).

(** Two disks that differ at most in one video file and in the ledger. *)
Definition same_but_video (filename : str) (d d' : disk) : Prop :=
  download_list_txt d' = download_list_txt d
  /\ file_sizes_json d' = file_sizes_json d
  /\ forall other, other <> filename -> videos d' !! other = videos d !! other.

Module Cases.

Definition slash_url : str := py "http://host/videos/".

Definition slash_disk : disk :=
  Disk (Some (LF :: py "videos")) slash_url ∅ ∅.

Definition twice_list : str :=
  py "http://h/a.mp4" ++ LF :: py "http://h/b.mp4" ++ LF :: py "http://h/a.mp4".

Definition twice_disk : disk := Disk None twice_list ∅ ∅.

(** A server that sends a file of three bytes, in one chunk, where the
    size on record is 1000. *)
Definition short_body : list read_result :=
  [Data [Examples.x; Examples.x; Examples.x] (inject_Z 200) (inject_Z 200)].

Definition short_session : session :=
  Examples.always (Response 200 (IntHeader 3) short_body).

(** A proxy that answers a HEAD with 203 Non-Authoritative Information. *)
Definition non_authoritative_session : session :=
  Session (fun _ _ => inject_Z 0) (fun _ _ => GetError ConnectionFailed)
    (fun _ => HeadResponse 203 (IntHeader 3)).

Definition expecting_disk : disk := Examples.thousand_disk.

(** Another video is in the download directory. *)
Definition other_video_disk : disk :=
  Disk None [] ∅ {[ py "other.mp4" := [Examples.x] ]}.

(** Both commands exit with 0 and print text. *)
Definition network_up (c : command) : process_result := Exited 0 true true.

(** The name server does not answer. *)
Definition dns_down (c : command) : process_result :=
  match c with Nslookup => Exited 1 true true | Ping => Exited 0 true true end.

End Cases.

(** * Properties *)

(** ** Tracking store *)

Section TextFiles.

Lemma isspace_LF : isspace LF = true.
Proof. reflexivity. Qed.

Lemma rstrip_snoc_space (s : str) (c : N) :
  isspace c = true -> rstrip (s ++ [c]) = rstrip s.
Proof.
  intros Hc. unfold rstrip. rewrite rev_unit. simpl. now rewrite Hc.
Qed.

Lemma lstrip_all_space (s : str) :
  lstrip s = [] \/ exists c r, lstrip s = c :: r /\ isspace c = false.
Proof.
  induction s as [|c r IH]; simpl; [now left|].
  destruct (isspace c) eqn:E; [exact IH|]. right. eauto.
Qed.

Lemma lstrip_app_nonspace (s u : str) c r :
  lstrip s = c :: r -> lstrip (s ++ u) = (c :: r) ++ u.
Proof.
  induction s as [|a s IH]; simpl; [discriminate|].
  destruct (isspace a); [exact IH|]. intros [= -> ->]. reflexivity.
Qed.

Lemma lstrip_app_space (s u : str) :
  lstrip s = [] -> lstrip (s ++ u) = lstrip u.
Proof.
  induction s as [|a s IH]; simpl; [reflexivity|].
  destruct (isspace a); [exact IH|discriminate].
Qed.

Lemma strip_snoc_space (s : str) (c : N) :
  isspace c = true -> strip (s ++ [c]) = strip s.
Proof.
  intros Hc. unfold strip.
  destruct (lstrip_all_space s) as [E|(a & r & E & _)].
  - rewrite (lstrip_app_space _ _ E), E. simpl. now rewrite Hc.
  - rewrite (lstrip_app_nonspace _ [c] _ _ E), E.
    now apply rstrip_snoc_space.
Qed.

Lemma split_nonempty sep (s : str) : split sep s <> [].
Proof.
  induction s as [|c r IH]; simpl; [discriminate|].
  destruct (c =? sep)%N; [discriminate|].
  destruct (split sep r); [contradiction|discriminate].
Qed.

Lemma split_app sep (a b : str) :
  split sep (a ++ sep :: b) = split sep a ++ split sep b.
Proof.
  induction a as [|c r IH]; simpl.
  - now rewrite N.eqb_refl.
  - destruct (c =? sep)%N; [now rewrite IH|].
    rewrite IH. destruct (split sep r) eqn:E; [|reflexivity].
    now apply split_nonempty in E.
Qed.

Lemma lines_split (s : str) : lines s = lines_of_pieces (split LF s).
Proof.
  induction s as [|c r IH]; [reflexivity|].
  cbn [lines split]. destruct (c =? LF)%N eqn:E.
  - apply N.eqb_eq in E. subst c. rewrite IH.
    destruct (split LF r) eqn:E'; [now apply split_nonempty in E'|reflexivity].
  - rewrite IH. destruct (split LF r) as [|p ps] eqn:E';
      [now apply split_nonempty in E'|].
    destruct ps; [destruct p; reflexivity|reflexivity].
Qed.

(** The completed names of a text do not depend on the line terminators:
    they are the stripped, non-empty pieces between line feeds. *)
Lemma stripped_pieces (ps : list str) :
  List.filter truthy (List.map strip (lines_of_pieces ps))
  = List.filter truthy (List.map strip ps).
Proof.
  induction ps as [|p ps IH]; [reflexivity|].
  destruct ps as [|q ps].
  - destruct p; reflexivity.
  - change (lines_of_pieces (p :: q :: ps))
      with ((p ++ [LF]) :: lines_of_pieces (q :: ps)).
    cbn [List.map List.filter]. rewrite IH.
    now rewrite (strip_snoc_space p LF isspace_LF).
Qed.

Lemma translate_app_LF (a b : str) pending :
  translate_newlines pending (a ++ LF :: b)
  = translate_newlines pending a
    ++ (if ends_with_cr pending a then [] else [LF])
    ++ translate_newlines false b.
Proof.
  revert pending. induction a as [|c r IH]; intros pending.
  - simpl. destruct pending; reflexivity.
  - cbn [app translate_newlines ends_with_cr].
    destruct (c =? CR)%N eqn:E1.
    + now rewrite IH.
    + destruct (c =? LF)%N; [destruct pending|]; now rewrite IH.
Qed.

Lemma translate_ends_cr (a : str) pending :
  ends_with_cr pending a = true ->
  a = [] \/ exists u, translate_newlines pending a = u ++ [LF].
Proof.
  revert pending. induction a as [|c r IH]; intros pending H; [now left|right].
  cbn [ends_with_cr] in H. cbn [translate_newlines].
  destruct (IH _ H) as [->|(u & Hu)].
  - simpl in H. rewrite H. now exists [].
  - destruct (c =? CR)%N.
    + rewrite Hu. now exists (LF :: u).
    + rewrite Hu. destruct (c =? LF)%N; [destruct pending|].
      * now exists u.
      * now exists (LF :: u).
      * now exists (c :: u).
Qed.

Lemma stripped_lines_pieces (text : str) :
  stripped_lines text
  = List.filter truthy (List.map strip (split LF (translate_newlines false text))).
Proof.
  unfold stripped_lines, file_lines. now rewrite lines_split, stripped_pieces.
Qed.

Lemma translate_plain (s : str) pending :
  LF ∉ s -> CR ∉ s -> translate_newlines pending s = s.
Proof.
  revert pending. induction s as [|c r IH]; intros pending HL HC; [reflexivity|].
  cbn [translate_newlines].
  apply not_elem_of_cons in HL as [HL1 HL2]. apply not_elem_of_cons in HC as [HC1 HC2].
  destruct (N.eqb_spec c CR); [congruence|].
  destruct (N.eqb_spec c LF); [congruence|].
  now rewrite IH.
Qed.

Lemma split_plain sep (s : str) : sep ∉ s -> split sep s = [s].
Proof.
  induction s as [|c r IH]; intros H; [reflexivity|].
  apply not_elem_of_cons in H as [H1 H2]. cbn [split].
  destruct (N.eqb_spec c sep); [congruence|]. now rewrite IH.
Qed.

Lemma stripped_lines_single (s : str) :
  LF ∉ s -> CR ∉ s -> stripped_lines s = List.filter truthy [strip s].
Proof.
  intros HL HC. rewrite stripped_lines_pieces, translate_plain, split_plain; auto.
Qed.

(** Appending a line feed and a text adds the names of that text and
    loses none. *)
Lemma completed_app_LF (a b : str) :
  list_to_set (stripped_lines (a ++ LF :: b))
  =@{gset str} list_to_set (stripped_lines a) ∪ list_to_set (stripped_lines b).
Proof.
  rewrite !stripped_lines_pieces, translate_app_LF.
  destruct (ends_with_cr false a) eqn:E.
  - destruct (translate_ends_cr _ _ E) as [->|(u & Hu)]; [discriminate E|].
    rewrite Hu. cbn [app]. rewrite <- app_assoc. cbn [app].
    rewrite !split_app. cbn [split].
    rewrite !List.map_app, !List.filter_app, !list_to_set_app_L.
    cbn. now rewrite !union_empty_r_L.
  - cbn [app]. rewrite split_app, List.map_app, List.filter_app.
    now rewrite list_to_set_app_L.
Qed.

Lemma get_downloaded_files_mark (filename : str) (d : disk) :
  get_downloaded_files (mark_as_downloaded filename d)
  = get_downloaded_files d ∪ list_to_set (stripped_lines filename).
Proof.
  unfold get_downloaded_files, mark_as_downloaded. cbn [downloaded_txt].
  rewrite completed_app_LF. destruct (downloaded_txt d); reflexivity.
Qed.

End TextFiles.

(** C8 (as amended). For every filename without a line terminator (line feed
    or carriage return) that is non-empty after stripping,
    [mark_as_downloaded] followed by [get_downloaded_files] yields a set that
    contains the stripped filename, hence the filename itself when it has no
    surrounding whitespace; marking the same filename again leaves the
    returned set unchanged. *)
Theorem mark_then_list_roundtrip (filename : str) (d : disk) :
  LF ∉ filename -> CR ∉ filename -> strip filename <> [] ->
  strip filename ∈ get_downloaded_files (mark_as_downloaded filename d)
  /\ (strip filename = filename ->
      filename ∈ get_downloaded_files (mark_as_downloaded filename d))
  /\ get_downloaded_files (mark_as_downloaded filename (mark_as_downloaded filename d))
     = get_downloaded_files (mark_as_downloaded filename d).
Proof.
  intros HL HC Hne.
  assert (Hin : strip filename ∈ get_downloaded_files (mark_as_downloaded filename d)).
  { rewrite get_downloaded_files_mark, stripped_lines_single by assumption.
    cbn [List.filter]. destruct (strip filename) as [|c r]; [congruence|].
    cbn [truthy list_to_set]. apply elem_of_union_r, elem_of_union_l.
    now apply elem_of_singleton. }
  split; [exact Hin|]. split.
  - intros E. now rewrite E in Hin.
  - rewrite !get_downloaded_files_mark.
    now rewrite <- union_assoc_L, union_idemp_L.
Qed.

Lemma mark_then_list_roundtrip_witness :
  py "talk.mp4" ∈ get_downloaded_files
                    (mark_as_downloaded (py "talk.mp4") Examples.resumed_disk).
Proof.
  refine (proj1 (proj2 (mark_then_list_roundtrip (py "talk.mp4") Examples.resumed_disk
                          _ _ _)) _).
  - apply (bool_decide_unpack _). vm_compute. exact I.
  - apply (bool_decide_unpack _). vm_compute. exact I.
  - vm_compute. discriminate.
  - vm_compute. reflexivity.
Defined.

(** C8 (as stated) fails: a filename with a leading blank is non-empty
    after stripping and has no newline, yet the set read back after marking
    it holds the stripped name and not the filename. *)
Lemma padded_name_not_read_back :
  strip Examples.padded_name <> []
  /\ (LF ∉ Examples.padded_name)
  /\ (Examples.padded_name
       ∉ get_downloaded_files (mark_as_downloaded Examples.padded_name Examples.empty_disk)).
Proof.
  split; [vm_compute; discriminate|].
  split; apply (bool_decide_unpack _); vm_compute; exact I.
Qed.

(** ** Download worker: the monitors *)

Ltac run_monad :=
  cbv [mbind M_bind mret M_ret raise try_except emit read_disk update_disk sleep].

Section Monitors.

Variables (filename : str) (d : disk).

(** The speed monitor in closed form. *)
Lemma speed_monitor_run (t : Q) (st : attempt_state) :
  speed_monitor filename t st d
  = (match sample t st with
     | None => Return st
     | Some false => Return (set_speed_check t (set_stall_count 0 st))
     | Some true =>
         if (stall_count st + 1 >=? 3)
            && stalled_short (get_expected_sizes d) filename (downloaded st)
         then Raise (TimeoutError AtSpeedCheck)
         else Return (set_speed_check t (set_stall_count (stall_count st + 1) st))
     end, d, []).
Proof.
  unfold speed_monitor, sample.
  destruct (Qle_bool _ _); [|reflexivity].
  destruct (Qlt_bool _ _); [|reflexivity].
  run_monad. cbn [stall_count set_stall_count downloaded].
  destruct (stall_count st + 1 >=? 3); [|reflexivity].
  cbn [andb]. destruct (stalled_short _ _ _); reflexivity.
Qed.

(** The progress monitor in closed form. *)
Lemma progress_monitor_run (total_size : Z) (t : Q) (st : attempt_state) :
  progress_monitor filename total_size t st d
  = (if total_size >? 0 then
       match percentage (downloaded st) total_size with
       | None => Raise OtherException
       | Some progress =>
           if int_of_float progress >? int_of_float (last_progress st) then
             Return (set_progress progress t st)
           else if Qlt_bool (inject_Z CHUNK_TIMEOUT) (t - last_progress_time st)
                   && stalled_short (get_expected_sizes d) filename (downloaded st)
                then if stall_count st + 1 >=? 3
                     then Raise (TimeoutError AtProgressCheck)
                     else Return (set_stall_count (stall_count st + 1) st)
                else Return st
       end
     else Return st, d, []).
Proof.
  unfold progress_monitor.
  destruct (total_size >? 0); [|reflexivity].
  destruct (percentage (downloaded st) total_size) as [progress|]; [|reflexivity].
  destruct (int_of_float _ >? int_of_float _); [reflexivity|].
  destruct (Qlt_bool _ _); [|reflexivity].
  run_monad. cbn [andb].
  destruct (stalled_short _ _ _); [|reflexivity].
  cbn [stall_count set_stall_count].
  destruct (stall_count st + 1 >=? 3); reflexivity.
Qed.

Lemma monitors_run (total_size : Z) (t1 t2 : Q) (st : attempt_state) :
  monitors filename total_size t1 t2 st d
  = match speed_monitor filename t1 st d with
    | (Return st1, _, _) =>
        (fst (fst (progress_monitor filename total_size t2 st1 d)), d, [])
    | (Raise e, _, _) => (Raise e, d, [])
    end.
Proof.
  unfold monitors. run_monad.
  rewrite speed_monitor_run.
  destruct (sample t1 st) as [[|]|];
    [destruct (_ && _)|..]; try reflexivity;
    now rewrite progress_monitor_run.
Qed.

End Monitors.

(** ** Download worker: the loop over the chunks *)

Section ReadLoop.

Variables (filename : str) (total_size : Z).

Lemma monitors_sizes (d d' : disk) t1 t2 st :
  file_sizes_json d = file_sizes_json d' ->
  fst (fst (monitors filename total_size t1 t2 st d))
  = fst (fst (monitors filename total_size t1 t2 st d')).
Proof.
  intros E. rewrite !monitors_run, !speed_monitor_run.
  unfold get_expected_sizes. rewrite E.
  destruct (sample t1 st) as [[|]|]; [destruct (_ && _)|..]; try reflexivity;
    cbn [fst]; rewrite !progress_monitor_run; unfold get_expected_sizes;
    now rewrite E.
Qed.

(** One turn of the loop on a chunk that holds bytes. *)
Lemma read_loop_data (d : disk) b bs t1 t2 rest st :
  read_loop filename total_size (Data (b :: bs) t1 t2 :: rest) st d
  = let chunk := b :: bs in
    let d1 := set_video filename (default [] (videos d !! filename) ++ chunk) d in
    match fst (fst (monitors filename total_size t1 t2
                      (add_downloaded (Z.of_nat (length chunk)) st) d1)) with
    | Return st2 =>
        match read_loop filename total_size rest st2 d1 with
        | (r, d2, t) => (r, d2, Write filename chunk :: t)
        end
    | Raise e => (Raise e, d1, [Write filename chunk])
    end.
Proof.
  cbn [read_loop]. cbn zeta.
  set (chunk := b :: bs).
  set (st1 := add_downloaded (Z.of_nat (length chunk)) st).
  set (d1 := set_video filename (default [] (videos d !! filename) ++ chunk) d).
  rewrite (monitors_run filename d1).
  unfold write at 1. run_monad. fold d1.
  destruct (speed_monitor filename t1 st1 d1) as [[[st2|e] d2] tr2] eqn:E1.
  - rewrite speed_monitor_run in E1. injection E1 as E1 <- <-.
    cbn [fst app].
    destruct (progress_monitor filename total_size t2 st2 d1) as [[[st3|e] d3] tr3] eqn:E2.
    + rewrite progress_monitor_run in E2. injection E2 as E2 <- <-.
      cbn [fst]. destruct (read_loop _ _ rest st3 d1) as [[r d4] t4]. reflexivity.
    + rewrite progress_monitor_run in E2. injection E2 as E2 <- <-. reflexivity.
  - rewrite speed_monitor_run in E1. injection E1 as E1 <- <-. reflexivity.
Qed.

Lemma set_video_same (d : disk) content :
  videos d !! filename = Some content -> set_video filename content d = d.
Proof.
  intros H. destruct d as [a b c v]. unfold set_video. cbn in *.
  now rewrite insert_id.
Qed.

Lemma set_video_twice (d : disk) c1 c2 :
  set_video filename c2 (set_video filename c1 d) = set_video filename c2 d.
Proof. unfold set_video. cbn. now rewrite insert_insert_eq. Qed.

Lemma videos_set_video (d : disk) content :
  videos (set_video filename content d) !! filename = Some content.
Proof. unfold set_video. cbn. apply lookup_insert_eq. Qed.

(** What a run of the loop leaves behind: the chunks written are a prefix
    of the chunks of the body, all of them when the loop ends normally,
    and the file holds what it held before followed by them. *)
Lemma read_loop_writes (body : list read_result) :
  forall st d content r d' t,
    videos d !! filename = Some content ->
    read_loop filename total_size body st d = (r, d', t) ->
    exists k,
      (k <= length (stream_chunks body))%nat
      /\ t = List.map (Write filename) (take k (stream_chunks body))
      /\ d' = set_video filename (content ++ concat (take k (stream_chunks body))) d
      /\ (r = Return tt -> k = length (stream_chunks body) /\ clean_body body = true).
Proof.
  induction body as [|ev rest IH]; intros st d content r d' t Hc H.
  - injection H as <- <- <-. exists 0%nat. cbn.
    rewrite app_nil_r, set_video_same by assumption. auto with arith.
  - destruct ev as [[|b bs] t1 t2|fl].
    + injection H as <- <- <-. exists 0%nat. cbn.
      rewrite app_nil_r, set_video_same by assumption. auto with arith.
    + rewrite read_loop_data in H. cbn zeta in H. rewrite Hc in H. cbn [default] in H.
      destruct (fst (fst (monitors _ _ _ _ _ _))) as [st2|e].
      * destruct (read_loop _ _ rest st2 _) as [[r2 d2] tr2] eqn:E.
        injection H as <- <- <-.
        apply (IH _ _ _ _ _ _ (videos_set_video _ _)) in E
          as (k & Hk & -> & -> & Hr).
        exists (S k). cbn [stream_chunks clean_body length take List.map concat].
        rewrite set_video_twice, <- app_assoc.
        split; [lia|]. split; [reflexivity|]. split; [reflexivity|].
        intros Hret. destruct (Hr Hret) as [-> ->]. auto.
      * injection H as <- <- <-. exists 1%nat.
        cbn [stream_chunks clean_body length take List.map concat].
        rewrite take_0. cbn. rewrite app_nil_r.
        split; [lia|]. split; [reflexivity|]. split; [reflexivity|discriminate].
    + cbn in H. injection H as <- <- <-. exists 0%nat. cbn.
      rewrite app_nil_r, set_video_same by assumption.
      split; [lia|]. split; [reflexivity|]. split; [reflexivity|discriminate].
Qed.

End ReadLoop.

(** ** Download worker: opening the file *)

Lemma open_error_exn (filename : str) (e : exn) :
  open_error filename = Some e -> e = ValueError \/ e = OtherException.
Proof.
  unfold open_error. destruct (bool_decide _); [intros [= <-]; auto|].
  destruct (bool_decide _); [intros [= <-]; auto|discriminate].
Qed.

Lemma open_error_not_retryable (filename : str) (e : exn) :
  open_error filename = Some e -> retryable e = false.
Proof. intros H. now destruct (open_error_exn _ _ H) as [-> | ->]. Qed.

(** A plain name can be opened. *)
Lemma plain_name_opens (filename : str) :
  plain_name filename -> open_error filename = None.
Proof.
  intros (H1 & H2 & H3 & _ & H4). unfold open_error. rewrite Forall_forall in H4.
  assert (Hnul : 0%N ∉ filename) by (intros H; apply H4 in H; lia).
  assert (Hslash : SLASH ∉ filename) by (intros H; apply H4 in H; tauto).
  rewrite (bool_decide_eq_false_2 _ Hnul), (split_plain _ _ Hslash). cbn [List.last].
  rewrite bool_decide_eq_false_2; [reflexivity|].
  rewrite !elem_of_cons, elem_of_nil. intuition.
Qed.

(** ** Download worker: one attempt and the retries *)

Section Attempts.

Variables (s : session) (url filename : str).

(** An attempt in closed form. *)
Lemma attempt_run (retry_count : Z) (d : disk) :
  attempt s url filename retry_count d
  = match get s url retry_count with
    | GetError f =>
        (Raise (exn_of_net f), d, first_attempt_delay retry_count ++ [Get url])
    | Response status content_length body =>
        if status =? 200 then
          match content_length with
          | BadHeader =>
              (Raise ValueError, d, first_attempt_delay retry_count ++ [Get url])
          | _ =>
              match open_error filename with
              | Some e =>
                  (Raise e, d, first_attempt_delay retry_count ++ [Get url])
              | None =>
                  let total_size :=
                    match content_length with IntHeader n => n | _ => 0 end in
                  match read_loop filename total_size body
                          (initial_state (start_clock s url retry_count))
                          (set_video filename [] d) with
                  | (Return _, d1, t1) =>
                      (Return true, mark_as_downloaded filename d1,
                       first_attempt_delay retry_count
                       ++ Get url :: Open filename :: t1
                       ++ [Close filename; Mark filename])
                  | (Raise e, d1, t1) =>
                      (Raise e, d1,
                       first_attempt_delay retry_count
                       ++ Get url :: Open filename :: t1 ++ [Close filename])
                  end
              end
          end
        else (Return false, d, first_attempt_delay retry_count ++ [Get url])
    end.
Proof.
  unfold attempt, first_attempt_delay, with_open, open_wb, mark, int_header.
  run_monad.
  destruct (get s url retry_count) as [f|status cl body];
    [|destruct (status =? 200);
      [destruct cl as [| |n]; destruct (open_error filename) as [e0|]|]];
    destruct (retry_count =? 0); cbn -[set_video mark_as_downloaded read_loop];
    try reflexivity;
    destruct (read_loop _ _ _ _ _) as [[[u|e] d1] t1];
    rewrite ?app_nil_r; cbn [app]; rewrite <- ?app_assoc; reflexivity.
Qed.

(** One level of the recursion of [download_video]. *)
Lemma download_video_rec_step (fuel : nat) (retry_count : Z) (d : disk) :
  download_video_rec (S fuel) s url filename retry_count d
  = match attempt s url filename retry_count d with
    | (Return b, d1, t1) => (Return (Some b), d1, t1)
    | (Raise e, d1, t1) =>
        if retryable e && (retry_count <? MAX_RETRIES - 1) then
          match download_video_rec fuel s url filename (retry_count + 1) d1 with
          | (r, d2, t2) => (r, d2, t1 ++ Sleep (RETRY_DELAY * 2 ^ retry_count) :: t2)
          end
        else (Return (Some false), d1, t1)
    end.
Proof.
  cbn [download_video_rec]. run_monad.
  destruct (attempt s url filename retry_count d) as [[[b|e] d1] t1].
  - now rewrite app_nil_r.
  - destruct e; cbn [retryable andb]; rewrite ?app_nil_r; try reflexivity;
      destruct (retry_count <? MAX_RETRIES - 1); rewrite ?app_nil_r; try reflexivity;
      destruct (download_video_rec fuel s url filename (retry_count + 1) d1)
        as [[r d2] t2]; reflexivity.
Qed.

(** The retry of [download_video] itself: a retryable failure of attempt
    [retry_count] below the cap sleeps the backoff delay and runs
    [download_video] with [retry_count + 1]. *)
Lemma download_video_retry (retry_count : Z) (d d1 : disk) e t1 :
  0 <= retry_count < MAX_RETRIES - 1 ->
  attempt s url filename retry_count d = (Raise e, d1, t1) ->
  retryable e = true ->
  download_video s url filename retry_count d
  = match download_video s url filename (retry_count + 1) d1 with
    | (r, d2, t2) => (r, d2, t1 ++ Sleep (RETRY_DELAY * 2 ^ retry_count) :: t2)
    end.
Proof.
  intros Hrc Ha He. unfold download_video.
  replace (Z.to_nat (MAX_RETRIES - 1 - retry_count))
    with (S (Z.to_nat (MAX_RETRIES - 1 - (retry_count + 1)))) by lia.
  rewrite download_video_rec_step, Ha, He.
  destruct (Z.ltb_spec retry_count (MAX_RETRIES - 1)); [reflexivity|lia].
Qed.

(** The trace of an attempt: the sleep of a first attempt, one request,
    then only file operations. *)
Lemma attempt_trace (retry_count : Z) (d : disk) r d1 t1 :
  attempt s url filename retry_count d = (r, d1, t1) ->
  sleeps t1 = sleeps (first_attempt_delay retry_count) /\ attempts t1 = 1%nat.
Proof.
  rewrite attempt_run.
  assert (Hpre : forall tl, sleeps tl = [] -> attempts tl = 0%nat ->
            sleeps (first_attempt_delay retry_count ++ Get url :: tl)
            = sleeps (first_attempt_delay retry_count)
            /\ attempts (first_attempt_delay retry_count ++ Get url :: tl) = 1%nat).
  { intros tl H1 H2. unfold first_attempt_delay, sleeps, attempts in *.
    destruct (retry_count =? 0); cbn; rewrite H1, H2; auto. }
  assert (Hw : forall l tl, sleeps tl = [] -> attempts tl = 0%nat ->
            sleeps (List.map (Write filename) l ++ tl) = []
            /\ attempts (List.map (Write filename) l ++ tl) = 0%nat).
  { induction l as [|c l IH]; intros tl H1 H2; cbn; auto. }
  destruct (get s url retry_count) as [f|status cl body].
  - intros [= <- <- <-]. now apply Hpre.
  - destruct (status =? 200); [|intros [= <- <- <-]; now apply Hpre].
    assert (Hloop : forall ts,
              match read_loop filename ts body
                      (initial_state (start_clock s url retry_count))
                      (set_video filename [] d) with
              | (_, _, t) => exists l, t = List.map (Write filename) l
              end).
    { intros ts. destruct (read_loop _ _ _ _ _) as [[r' d'] t'] eqn:E.
      apply (read_loop_writes _ _ _ _ _ _ _ _ _ (videos_set_video _ _ _)) in E
        as (k & _ & -> & _). eauto. }
    destruct cl as [| |n]; [|intros [= <- <- <-]; now apply Hpre|];
      (destruct (open_error filename) as [e0|];
         [intros [= <- <- <-]; now apply Hpre|]); cbn zeta.
    + specialize (Hloop 0). destruct (read_loop _ _ _ _ _) as [[[u|e] d'] t'];
        destruct Hloop as [l ->]; intros [= <- <- <-]; apply Hpre;
        cbn; now apply Hw.
    + specialize (Hloop n). destruct (read_loop _ _ _ _ _) as [[[u|e] d'] t'];
        destruct Hloop as [l ->]; intros [= <- <- <-]; apply Hpre;
        cbn; now apply Hw.
Qed.

Lemma pacing_app (t1 t2 : list effect) : pacing (t1 ++ t2) = pacing t1 ++ pacing t2.
Proof. apply List.filter_app. Qed.

(** What an attempt requests and sleeps: the sleep of a first attempt,
    then its one request. *)
Lemma attempt_pacing (retry_count : Z) (d : disk) r d1 t1 :
  attempt s url filename retry_count d = (r, d1, t1) ->
  pacing t1 = first_attempt_delay retry_count ++ [Get url].
Proof.
  rewrite attempt_run.
  assert (Hpre : forall tl, pacing tl = [] ->
            pacing (first_attempt_delay retry_count ++ Get url :: tl)
            = first_attempt_delay retry_count ++ [Get url]).
  { intros tl H. rewrite pacing_app. unfold first_attempt_delay.
    destruct (retry_count =? 0); cbn; unfold pacing in H; now rewrite H. }
  assert (Hw : forall l tl, pacing tl = [] ->
            pacing (List.map (Write filename) l ++ tl) = []).
  { induction l as [|c l IH]; intros tl H; cbn; auto. }
  destruct (get s url retry_count) as [f|status cl body].
  - intros [= <- <- <-]. now apply Hpre.
  - destruct (status =? 200); [|intros [= <- <- <-]; now apply Hpre].
    assert (Hloop : forall ts,
              match read_loop filename ts body
                      (initial_state (start_clock s url retry_count))
                      (set_video filename [] d) with
              | (_, _, t) => exists l, t = List.map (Write filename) l
              end).
    { intros ts. destruct (read_loop _ _ _ _ _) as [[r' d'] t'] eqn:E.
      apply (read_loop_writes _ _ _ _ _ _ _ _ _ (videos_set_video _ _ _)) in E
        as (k & _ & -> & _). eauto. }
    destruct cl as [| |n]; [|intros [= <- <- <-]; now apply Hpre|];
      (destruct (open_error filename) as [e0|];
         [intros [= <- <- <-]; now apply Hpre|]); cbn zeta.
    + specialize (Hloop 0). destruct (read_loop _ _ _ _ _) as [[[u|e] d'] t'];
        destruct Hloop as [l ->]; intros [= <- <- <-]; apply Hpre;
        cbn; now apply Hw.
    + specialize (Hloop n). destruct (read_loop _ _ _ _ _) as [[[u|e] d'] t'];
        destruct Hloop as [l ->]; intros [= <- <- <-]; apply Hpre;
        cbn; now apply Hw.
Qed.

End Attempts.

Section Outcomes.

Variables (s : session) (url filename : str).

(** The chunks of a body in a trace. *)
Lemma writes_no_mark (l : list (list Byte.byte)) :
  Forall (fun e => is_mark e = false) (List.map (Write filename) l).
Proof. induction l; cbn; constructor; auto. Qed.

Lemma first_attempt_delay_no_mark (retry_count : Z) :
  Forall (fun e => is_mark e = false) (first_attempt_delay retry_count).
Proof.
  unfold first_attempt_delay. destruct (retry_count =? 0); repeat constructor.
Qed.

(** An attempt either succeeds, having written every chunk of a body that
    reached its end before it marks the file, or marks nothing. *)
Lemma attempt_outcome (retry_count : Z) (d : disk) r d1 t1 :
  attempt s url filename retry_count d = (r, d1, t1) ->
  (r = Return true
   /\ exists cl body,
       get s url retry_count = Response 200 cl body
       /\ clean_body body = true
       /\ t1 = (first_attempt_delay retry_count ++ [Get url])
               ++ Open filename :: List.map (Write filename) (stream_chunks body)
               ++ [Close filename; Mark filename]
       /\ d1 = mark_as_downloaded filename
                 (set_video filename (concat (stream_chunks body)) d))
  \/ (r <> Return true
      /\ Forall (fun e => is_mark e = false) t1
      /\ downloaded_txt d1 = downloaded_txt d).
Proof.
  rewrite attempt_run.
  assert (Hpre : Forall (fun e => is_mark e = false)
                   (first_attempt_delay retry_count ++ [Get url])).
  { apply Forall_app. split; [apply first_attempt_delay_no_mark|repeat constructor]. }
  destruct (get s url retry_count) as [f|status cl body].
  { intros [= <- <- <-]. right. destruct f; (split; [discriminate|auto]). }
  destruct (Z.eqb_spec status 200) as [->|Hs];
    [|intros [= <- <- <-]; right; split; [discriminate|auto]].
  assert (Hloop : forall ts r' d' t',
            read_loop filename ts body
              (initial_state (start_clock s url retry_count))
              (set_video filename [] d) = (r', d', t') ->
            (r' = Return tt
             /\ clean_body body = true
             /\ t' = List.map (Write filename) (stream_chunks body)
             /\ d' = set_video filename (concat (stream_chunks body)) d)
            \/ ((exists e, r' = Raise e)
                /\ Forall (fun e => is_mark e = false) t'
                /\ downloaded_txt d' = downloaded_txt d)).
  { intros ts r' d' t' E.
    apply (read_loop_writes _ _ _ _ _ _ _ _ _ (videos_set_video _ _ _)) in E
      as (k & Hk & -> & -> & Hr).
    rewrite set_video_twice. cbn [app].
    destruct r' as [[]|e].
    - left. destruct (Hr eq_refl) as [-> Hc]. now rewrite firstn_all.
    - right. split; [eauto|]. split; [apply writes_no_mark|reflexivity]. }
  destruct cl as [| |n]; [|intros [= <- <- <-]; right; split; [discriminate|auto]|];
    (destruct (open_error filename) as [e0|];
       [intros [= <- <- <-]; right; split; [discriminate|auto]|]); cbn zeta.
  - destruct (read_loop _ _ _ _ _) as [[r' d'] t'] eqn:E.
    destruct (Hloop _ _ _ _ E) as [(-> & Hc & -> & ->)|((e & ->) & Hm & Hl)];
      intros [= <- <- <-].
    + left. split; [reflexivity|]. exists NoHeader, body.
      repeat split; auto. now rewrite <- app_assoc.
    + right. split; [discriminate|]. split; [|exact Hl].
      change (Get url :: Open filename :: t' ++ [Close filename])
        with ([Get url] ++ Open filename :: t' ++ [Close filename]).
      rewrite app_assoc. apply Forall_app. split; [exact Hpre|].
      constructor; [reflexivity|]. apply Forall_app. split; [exact Hm|].
      repeat constructor.
  - destruct (read_loop _ _ _ _ _) as [[r' d'] t'] eqn:E.
    destruct (Hloop _ _ _ _ E) as [(-> & Hc & -> & ->)|((e & ->) & Hm & Hl)];
      intros [= <- <- <-].
    + left. split; [reflexivity|]. exists (IntHeader n), body.
      repeat split; auto. now rewrite <- app_assoc.
    + right. split; [discriminate|]. split; [|exact Hl].
      change (Get url :: Open filename :: t' ++ [Close filename])
        with ([Get url] ++ Open filename :: t' ++ [Close filename]).
      rewrite app_assoc. apply Forall_app. split; [exact Hpre|].
      constructor; [reflexivity|]. apply Forall_app. split; [exact Hm|].
      repeat constructor.
Qed.

(** A run of [download_video] returns, and it returns [True] exactly when
    its last attempt wrote a whole body and then marked the file. *)
Lemma download_video_rec_outcome (fuel : nat) :
  forall retry_count d r d' t,
    MAX_RETRIES - 1 <= retry_count + Z.of_nat fuel ->
    download_video_rec (S fuel) s url filename retry_count d = (r, d', t) ->
    (r = Return (Some true)
     /\ exists k cl body t0,
         retry_count <= k <= retry_count + Z.of_nat fuel
         /\ get s url k = Response 200 cl body
         /\ clean_body body = true
         /\ t = t0 ++ Open filename :: List.map (Write filename) (stream_chunks body)
                ++ [Close filename; Mark filename]
         /\ Forall (fun e => is_mark e = false) t0
         /\ videos d' !! filename = Some (concat (stream_chunks body))
         /\ downloaded_txt d' = Some (default [] (downloaded_txt d) ++ LF :: filename))
    \/ (r = Return (Some false)
        /\ Forall (fun e => is_mark e = false) t
        /\ downloaded_txt d' = downloaded_txt d).
Proof.
  induction fuel as [|fuel IH]; intros rc d r d' t Hfuel;
    rewrite download_video_rec_step;
    destruct (attempt s url filename rc d) as [[ra d1] t1] eqn:Ea;
    destruct (attempt_outcome _ _ _ _ _ Ea)
      as [(-> & cl & body & Hg & Hc & -> & ->)|(Hr & Hm & Hl)].
  - intros [= <- <- <-]. left. split; [reflexivity|].
    exists rc, cl, body, (first_attempt_delay rc ++ [Get url]).
    repeat split; auto; try lia.
    + apply Forall_app. split; [apply first_attempt_delay_no_mark|repeat constructor].
    + cbn. apply lookup_insert_eq.
  - destruct ra as [[|]|e]; [congruence| |].
    + intros [= <- <- <-]. right. auto.
    + destruct (Z.ltb_spec rc (MAX_RETRIES - 1)) as [Hlt|_]; [lia|].
      rewrite andb_false_r. intros [= <- <- <-]. right. auto.
  - intros [= <- <- <-]. left. split; [reflexivity|].
    exists rc, cl, body, (first_attempt_delay rc ++ [Get url]).
    repeat split; auto; try lia.
    + apply Forall_app. split; [apply first_attempt_delay_no_mark|repeat constructor].
    + cbn. apply lookup_insert_eq.
  - destruct ra as [[|]|e]; [congruence| |].
    + intros [= <- <- <-]. right. auto.
    + destruct (retryable e && (rc <? MAX_RETRIES - 1)); [|intros [= <- <- <-]; right; auto].
      destruct (download_video_rec (S fuel) s url filename (rc + 1) d1)
        as [[r2 d2] t2] eqn:E2.
      intros [= <- <- <-].
      apply IH in E2; [|lia]. destruct E2
        as [(-> & k & cl & body & t0 & Hk & Hg & Hc & -> & Hm0 & Hv & Hl2)
           |(-> & Hm2 & Hl2)].
      * left. split; [reflexivity|].
        exists k, cl, body, (t1 ++ Sleep (RETRY_DELAY * 2 ^ rc) :: t0).
        repeat split; auto; try lia.
        -- now rewrite <- app_assoc.
        -- apply Forall_app. split; [exact Hm|]. constructor; [reflexivity|exact Hm0].
        -- now rewrite Hl2, Hl.
      * right. split; [reflexivity|]. split; [|congruence].
        apply Forall_app. split; [exact Hm|]. constructor; [reflexivity|exact Hm2].
Qed.

End Outcomes.

(** C10. [download_video] takes status 200 alone for a success: on any
    other status, 201 and 206 included, it returns [False] after the one
    request, with the disk as it was (no byte written, no ledger entry) and
    no retry. *)
Theorem only_status_200_is_success
    (s : session) (url filename : str) (retry_count : Z) (d : disk) status cl body :
  get s url retry_count = Response status cl body ->
  status <> 200 ->
  download_video s url filename retry_count d
  = (Return (Some false), d, first_attempt_delay retry_count ++ [Get url]).
Proof.
  intros Hg Hs. unfold download_video.
  rewrite download_video_rec_step, attempt_run, Hg.
  now destruct (Z.eqb_spec status 200).
Qed.

Lemma only_status_200_is_success_witness :
  download_video (Examples.always (Response 206 (IntHeader 3) Examples.three_chunks))
    Examples.video_url Examples.video 0 Examples.empty_disk
  = (Return (Some false), Examples.empty_disk, [Sleep 60; Get Examples.video_url]).
Proof.
  apply (only_status_200_is_success
           (Examples.always (Response 206 (IntHeader 3) Examples.three_chunks))
           Examples.video_url Examples.video 0 Examples.empty_disk
           206 (IntHeader 3) Examples.three_chunks).
  - reflexivity.
  - lia.
Defined.

(** C4. On a status outside 200..299 [download_video] returns [False] at
    once: one request, no retry and no backoff sleep. A connection error or
    a timeout, when the request is made or while the body is read, takes
    the retry path: below the attempt cap the worker sleeps the backoff
    delay and runs the next attempt. *)
Theorem non_2xx_fails_at_once_network_error_retries
    (s : session) (url filename : str) (retry_count : Z) (d : disk) :
  (forall status cl body,
      get s url retry_count = Response status cl body ->
      ~ (200 <= status < 300) ->
      download_video s url filename retry_count d
      = (Return (Some false), d, first_attempt_delay retry_count ++ [Get url]))
  /\ (forall f,
        get s url retry_count = GetError f ->
        f <> Unexpected ->
        0 <= retry_count < MAX_RETRIES - 1 ->
        download_video s url filename retry_count d
        = match download_video s url filename (retry_count + 1) d with
          | (r, d2, t2) =>
              (r, d2,
               (first_attempt_delay retry_count ++ [Get url])
               ++ Sleep (RETRY_DELAY * 2 ^ retry_count) :: t2)
          end)
  /\ (forall e d1 t1,
        attempt s url filename retry_count d = (Raise e, d1, t1) ->
        e = ClientError \/ (exists site, e = TimeoutError site) ->
        0 <= retry_count < MAX_RETRIES - 1 ->
        download_video s url filename retry_count d
        = match download_video s url filename (retry_count + 1) d1 with
          | (r, d2, t2) => (r, d2, t1 ++ Sleep (RETRY_DELAY * 2 ^ retry_count) :: t2)
          end).
Proof.
  split; [|split].
  - intros status cl body Hg Hs. unfold download_video.
    rewrite download_video_rec_step, attempt_run, Hg.
    destruct (Z.eqb_spec status 200); [lia|reflexivity].
  - intros f Hg Hf Hrc.
    apply (download_video_retry _ _ _ _ _ _ (exn_of_net f));
      [exact Hrc| |destruct f; [reflexivity..|congruence]].
    now rewrite attempt_run, Hg.
  - intros e d1 t1 Ha He Hrc.
    apply (download_video_retry _ _ _ _ _ _ e); [exact Hrc|exact Ha|].
    destruct He as [->|[site ->]]; reflexivity.
Qed.

Lemma non_2xx_fails_at_once_network_error_retries_witness :
  download_video (Examples.always (Response 404 NoHeader []))
    Examples.video_url Examples.video 0 Examples.empty_disk
  = (Return (Some false), Examples.empty_disk, [Sleep 60; Get Examples.video_url])
  /\ download_video (Examples.always (GetError ConnectionFailed))
       Examples.video_url Examples.video 3 Examples.empty_disk
     = (Return (Some false), Examples.empty_disk,
        [Get Examples.video_url; Sleep 2400; Get Examples.video_url])
  /\ download_video (Examples.always (Response 200 NoHeader [ReadError ConnectionFailed]))
       Examples.video_url Examples.video 3 Examples.empty_disk
     = (Return (Some false), set_video Examples.video [] Examples.empty_disk,
        [Get Examples.video_url; Open Examples.video; Close Examples.video;
         Sleep 2400;
         Get Examples.video_url; Open Examples.video; Close Examples.video]).
Proof.
  split; [|split].
  - apply (proj1 (non_2xx_fails_at_once_network_error_retries
                    (Examples.always (Response 404 NoHeader []))
                    Examples.video_url Examples.video 0 Examples.empty_disk)
             404 NoHeader []).
    + reflexivity.
    + lia.
  - rewrite (proj1 (proj2 (non_2xx_fails_at_once_network_error_retries
                    (Examples.always (GetError ConnectionFailed))
                    Examples.video_url Examples.video 3 Examples.empty_disk))
               ConnectionFailed).
    + reflexivity.
    + reflexivity.
    + discriminate.
    + unfold MAX_RETRIES. lia.
  - rewrite (proj2 (proj2 (non_2xx_fails_at_once_network_error_retries
                    (Examples.always (Response 200 NoHeader [ReadError ConnectionFailed]))
                    Examples.video_url Examples.video 3 Examples.empty_disk))
               ClientError (set_video Examples.video [] Examples.empty_disk)
               [Get Examples.video_url; Open Examples.video; Close Examples.video]).
    + vm_compute. reflexivity.
    + reflexivity.
    + left. reflexivity.
    + unfold MAX_RETRIES. lia.
Defined.

Section Backoff.

Variables (s : session) (url filename : str).

Lemma sleeps_app (t1 t2 : list effect) : sleeps (t1 ++ t2) = sleeps t1 ++ sleeps t2.
Proof. apply omap_app. Qed.

Lemma attempts_app (t1 t2 : list effect) :
  attempts (t1 ++ t2) = (attempts t1 + attempts t2)%nat.
Proof. unfold attempts. now rewrite List.filter_app, length_app. Qed.

Lemma backoff_delays_shift (retry_count : Z) (n : nat) :
  List.map (fun k => RETRY_DELAY * 2 ^ (retry_count + Z.of_nat k)) (seq 0 (S n))
  = RETRY_DELAY * 2 ^ retry_count
    :: List.map (fun k => RETRY_DELAY * 2 ^ (retry_count + 1 + Z.of_nat k)) (seq 0 n).
Proof.
  cbn [seq List.map]. rewrite Z.add_0_r. f_equal.
  rewrite <- seq_shift, List.map_map. apply List.map_ext. intros k.
  do 2 f_equal. lia.
Qed.

Lemma backoff_pacing_shift (retry_count : Z) (n : nat) :
  List.flat_map (fun k => [Sleep (RETRY_DELAY * 2 ^ (retry_count + Z.of_nat k)); Get url])
    (seq 0 (S n))
  = Sleep (RETRY_DELAY * 2 ^ retry_count) :: Get url
    :: List.flat_map
         (fun k => [Sleep (RETRY_DELAY * 2 ^ (retry_count + 1 + Z.of_nat k)); Get url])
         (seq 0 n).
Proof.
  cbn [seq List.flat_map app]. rewrite Z.add_0_r. do 2 f_equal.
  rewrite <- seq_shift, !flat_map_concat_map, List.map_map. f_equal.
  apply List.map_ext. intros k. do 4 f_equal. lia.
Qed.

Lemma always_fails_at (retry_count : Z) (d : disk) r d1 t1 :
  always_fails s url filename ->
  0 <= retry_count < MAX_RETRIES ->
  attempt s url filename retry_count d = (r, d1, t1) ->
  exists e, r = Raise e /\ retryable e = true.
Proof.
  intros Hf Hrc Ha. destruct (Hf retry_count d Hrc) as (e & d2 & t2 & E & He).
  exists e. split; [congruence|exact He].
Qed.

(** The retries from attempt [retry_count] on: the run returns, it makes
    [n] attempts with [n] at most the attempts left, and between them it
    sleeps the doubling delays: each delay after the request of the attempt
    that failed and before the next request. *)
Lemma download_video_rec_backoff (fuel : nat) :
  forall retry_count d,
    0 <= retry_count ->
    retry_count + Z.of_nat fuel = MAX_RETRIES - 1 ->
    exists b d' t n,
      download_video_rec (S fuel) s url filename retry_count d = (Return (Some b), d', t)
      /\ (1 <= n <= S fuel)%nat
      /\ attempts t = n
      /\ sleeps t
         = sleeps (first_attempt_delay retry_count)
           ++ List.map (fun k => RETRY_DELAY * 2 ^ (retry_count + Z.of_nat k))
                (seq 0 (n - 1))
      /\ (always_fails s url filename -> b = false /\ n = S fuel)
      /\ pacing t
         = first_attempt_delay retry_count
           ++ Get url
           :: List.flat_map
                (fun k => [Sleep (RETRY_DELAY * 2 ^ (retry_count + Z.of_nat k)); Get url])
                (seq 0 (n - 1)).
Proof.
  induction fuel as [|fuel IH]; intros rc d Hrc Hfuel;
    rewrite download_video_rec_step;
    destruct (attempt s url filename rc d) as [[[b|e] d1] t1] eqn:Ea;
    destruct (attempt_trace _ _ _ _ _ _ _ _ Ea) as [Hs Hn];
    pose proof (attempt_pacing _ _ _ _ _ _ _ _ Ea) as Hp;
    assert (Hin : 0 <= rc < MAX_RETRIES) by (unfold MAX_RETRIES in *; lia).
  - exists b, d1, t1, 1%nat. rewrite Hs, Hn, Hp. cbn [Nat.sub seq List.map List.flat_map].
    rewrite app_nil_r. do 4 (split; [reflexivity || lia|]). split; [|reflexivity].
    intros Hf. destruct (always_fails_at _ _ _ _ _ Hf Hin Ea)
      as (e & [=] & _).
  - destruct (Z.ltb_spec rc (MAX_RETRIES - 1)) as [Hlt|_]; [lia|].
    rewrite andb_false_r. exists false, d1, t1, 1%nat. rewrite Hs, Hn, Hp.
    cbn [Nat.sub seq List.map List.flat_map]. rewrite app_nil_r.
    do 4 (split; [reflexivity || lia|]). auto.
  - exists b, d1, t1, 1%nat. rewrite Hs, Hn, Hp. cbn [Nat.sub seq List.map List.flat_map].
    rewrite app_nil_r. do 4 (split; [reflexivity || lia|]). split; [|reflexivity].
    intros Hf. destruct (always_fails_at _ _ _ _ _ Hf Hin Ea)
      as (e & [=] & _).
  - destruct (retryable e) eqn:He; cbn [andb].
    + destruct (Z.ltb_spec rc (MAX_RETRIES - 1)) as [_|Hge]; [|lia].
      destruct (IH (rc + 1) d1)
        as (b & d2 & t2 & n & -> & Hn2 & Ha2 & Hs2 & Hall & Hp2); [lia..|].
      exists b, d2, (t1 ++ Sleep (RETRY_DELAY * 2 ^ rc) :: t2), (S n).
      split; [reflexivity|]. split; [lia|]. split; [|split; [|split]].
      * rewrite attempts_app, Hn.
        change (Sleep (RETRY_DELAY * 2 ^ rc) :: t2)
          with ([Sleep (RETRY_DELAY * 2 ^ rc)] ++ t2).
        rewrite attempts_app, Ha2. reflexivity.
      * change (Sleep (RETRY_DELAY * 2 ^ rc) :: t2)
          with ([Sleep (RETRY_DELAY * 2 ^ rc)] ++ t2).
        rewrite !sleeps_app, Hs, Hs2.
        change (sleeps [Sleep (RETRY_DELAY * 2 ^ rc)]) with [RETRY_DELAY * 2 ^ rc].
        replace (S n - 1)%nat with (S (n - 1)) by lia.
        rewrite backoff_delays_shift.
        unfold first_attempt_delay at 2.
        destruct (Z.eqb_spec (rc + 1) 0); [lia|]. reflexivity.
      * intros Hf. destruct (Hall Hf) as [-> ->]. auto.
      * change (Sleep (RETRY_DELAY * 2 ^ rc) :: t2)
          with ([Sleep (RETRY_DELAY * 2 ^ rc)] ++ t2).
        rewrite !pacing_app, Hp, Hp2.
        change (pacing [Sleep (RETRY_DELAY * 2 ^ rc)]) with [Sleep (RETRY_DELAY * 2 ^ rc)].
        replace (S n - 1)%nat with (S (n - 1)) by lia.
        rewrite backoff_pacing_shift.
        unfold first_attempt_delay at 2.
        destruct (Z.eqb_spec (rc + 1) 0); [lia|].
        rewrite <- app_assoc. reflexivity.
    + exists false, d1, t1, 1%nat. rewrite Hs, Hn, Hp.
      cbn [Nat.sub seq List.map List.flat_map].
      rewrite app_nil_r. do 4 (split; [reflexivity || lia|]). split; [|reflexivity].
      intros Hf.
      destruct (always_fails_at _ _ _ _ _ Hf Hin Ea)
        as (e' & [= <-] & He'). congruence.
Qed.

End Backoff.

(** C3. A run of [download_video] makes [n] requests, one for each attempt,
    with [n] between 1 and [MAX_RETRIES], and returns a [bool]: it never
    raises. Its requests and sleeps come in this order: the rate-limit
    sleep, the request of attempt 0 and, for each failed attempt [k]
    (counted from 0) that is retried, the sleep of [RETRY_DELAY * 2 ^ k]
    followed by the request of attempt [k + 1]; so the delay that precedes
    attempt [k + 1] is [RETRY_DELAY * 2 ^ k] and nothing else is slept.
    When every attempt fails with a connection error or a timeout, the run
    makes the [MAX_RETRIES] attempts and returns [False]. *)
Theorem backoff_doubles_and_attempts_are_capped
    (s : session) (url filename : str) (d : disk) :
  exists b d' t n,
    download_video s url filename 0 d = (Return (Some b), d', t)
    /\ (1 <= n <= Z.to_nat MAX_RETRIES)%nat
    /\ pacing t
       = Sleep RATE_LIMIT_DELAY :: Get url
         :: List.flat_map (fun k => [Sleep (RETRY_DELAY * 2 ^ Z.of_nat k); Get url])
              (seq 0 (n - 1))
    /\ attempts t = n
    /\ sleeps t
       = RATE_LIMIT_DELAY
         :: List.map (fun k => RETRY_DELAY * 2 ^ Z.of_nat k) (seq 0 (n - 1))
    /\ (always_fails s url filename -> b = false /\ n = Z.to_nat MAX_RETRIES).
Proof.
  destruct (download_video_rec_backoff s url filename
              (Z.to_nat (MAX_RETRIES - 1 - 0)) 0 d)
    as (b & d' & t & n & E & Hn & Ha & Hs & Hall & Hp); [lia|reflexivity|].
  exists b, d', t, n. split; [exact E|]. split; [exact Hn|]. split; [exact Hp|].
  split; [exact Ha|]. split; [exact Hs|exact Hall].
Qed.

Lemma backoff_doubles_and_attempts_are_capped_witness :
  exists d' t,
    download_video (Examples.always (GetError TimedOut))
      Examples.video_url Examples.video 0 Examples.empty_disk
    = (Return (Some false), d', t)
    /\ pacing t
       = [Sleep 60; Get Examples.video_url;
          Sleep 300; Get Examples.video_url;
          Sleep 600; Get Examples.video_url;
          Sleep 1200; Get Examples.video_url;
          Sleep 2400; Get Examples.video_url]
    /\ attempts t = 5%nat
    /\ sleeps t = [60; 300; 600; 1200; 2400].
Proof.
  destruct (backoff_doubles_and_attempts_are_capped
              (Examples.always (GetError TimedOut))
              Examples.video_url Examples.video Examples.empty_disk)
    as (b & d' & t & n & E & Hn & Hp & Ha & Hs & Hall).
  destruct Hall as [-> ->].
  { intros k dk Hk. rewrite attempt_run. cbn. eauto. }
  exists d', t. split; [exact E|]. split; [exact Hp|]. split; [exact Ha|exact Hs].
Defined.

(** ** Size prober *)

Lemma get_expected_file_size_run (url : str) (s : session) (d : disk) :
  get_expected_file_size url s d
  = (Return (match head s url with
             | HeadResponse status (IntHeader n) =>
                 if (status =? 200) && (0 <? n) then Some n else None
             | _ => None
             end), d, [Head url]).
Proof.
  unfold get_expected_file_size, int_header. run_monad.
  destruct (head s url) as [f|status cl]; [reflexivity|].
  destruct (status =? 200); [|now destruct cl].
  destruct cl as [| |n]; try reflexivity. cbn.
  rewrite Z.gtb_ltb. destruct (0 <? n); reflexivity.
Qed.

(** C9 (as amended). The size prober makes one HEAD request and always
    returns, leaving the disk as it is: it never raises. It returns the
    declared content length exactly when the status is 200 and the header
    is a positive integer, and [None] on every other status, the other
    2xx statuses included, on a missing, malformed, zero or negative length
    and on a network error. So it does what the contract says unless the
    HEAD request is answered with a 2xx status other than 200. *)
Theorem size_probe_needs_status_200 (url : str) (s : session) (d : disk) :
  exists r,
    get_expected_file_size url s d = (Return r, d, [Head url])
    /\ (forall n, r = Some n <-> head s url = HeadResponse 200 (IntHeader n) /\ 0 < n)
    /\ ((forall status cl,
            head s url = HeadResponse status cl -> ~ (200 < status < 300)) ->
        r = probe_contract (head s url)).
Proof.
  rewrite get_expected_file_size_run. eexists. split; [reflexivity|]. split.
  - intros n. destruct (head s url) as [f|status [| |m]];
      try (split; [discriminate|intros [[=] _]]).
    destruct (Z.eqb_spec status 200) as [->|Hs]; cbn [andb].
    + destruct (Z.ltb_spec 0 m).
      * split; [intros [= <-]; auto|intros [[= <-] _]; reflexivity].
      * split; [discriminate|intros [[= <-] Hn]; lia].
    + split; [discriminate|intros [[= E _] _]; congruence].
  - intros H. unfold probe_contract.
    destruct (head s url) as [f|status [| |m]]; try reflexivity.
    specialize (H status (IntHeader m) eq_refl).
    destruct (Z.eqb_spec status 200) as [->|Hs]; [reflexivity|]. cbn [andb].
    destruct (Z.leb_spec 200 status); [|reflexivity].
    destruct (Z.ltb_spec status 300); [lia|reflexivity].
Qed.

Lemma size_probe_needs_status_200_witness :
  get_expected_file_size Examples.video_url
    (Examples.always (GetError TimedOut)) Examples.empty_disk
  = (Return (Some 3), Examples.empty_disk, [Head Examples.video_url])
  /\ probe_contract (head (Examples.always (GetError TimedOut)) Examples.video_url)
     = Some 3.
Proof.
  destruct (size_probe_needs_status_200 Examples.video_url
              (Examples.always (GetError TimedOut)) Examples.empty_disk)
    as (r & E & Hsome & Hcontract).
  assert (Hr : r = Some 3) by (apply Hsome; split; [reflexivity|lia]).
  split.
  - rewrite E, Hr. reflexivity.
  - rewrite <- Hr. symmetry. apply Hcontract.
    intros status cl [= <- _]. lia.
Defined.

(** C9 (as stated) fails: a HEAD request answered with 203, a success
    status, and a positive content length gets [None] from the prober,
    where the contract gives the length. *)
Lemma size_probe_rejects_other_2xx :
  head Cases.non_authoritative_session Examples.video_url = HeadResponse 203 (IntHeader 3)
  /\ probe_contract (head Cases.non_authoritative_session Examples.video_url) = Some 3
  /\ get_expected_file_size Examples.video_url Cases.non_authoritative_session
       Examples.empty_disk
     = (Return None, Examples.empty_disk, [Head Examples.video_url]).
Proof. split; [|split]; reflexivity. Qed.

(** ** The percentage of the progress log *)

Section Binary64.

Lemma digits2_pos_bounds (p : positive) :
  2 ^ (Z.pos (digits2_pos p) - 1) <= Z.pos p < 2 ^ Z.pos (digits2_pos p).
Proof.
  induction p as [p IH|p IH|]; cbn [digits2_pos]; [| |cbn; lia];
    rewrite Pos2Z.inj_succ;
    replace (Z.succ (Z.pos (digits2_pos p)) - 1) with (Z.succ (Z.pos (digits2_pos p) - 1)) by lia;
    rewrite !Z.pow_succ_r by lia; lia.
Qed.

Lemma Zdigits2_le (m n : Z) : 0 <= m < 2 ^ n -> Zdigits2 m <= Z.max 0 n.
Proof.
  intros [H0 H]. destruct m as [|p|p]; [cbn; lia| |lia].
  cbn [Zdigits2]. destruct (digits2_pos_bounds p) as [Hlo _].
  destruct (Z.le_gt_cases (Z.pos (digits2_pos p)) n) as [|Hgt]; [lia|exfalso].
  destruct (Z.le_gt_cases 0 n) as [Hn|Hn].
  - assert (2 ^ n <= 2 ^ (Z.pos (digits2_pos p) - 1)) by (apply Z.pow_le_mono_r; lia). lia.
  - rewrite Z.pow_neg_r in H by lia. lia.
Qed.

Lemma shr_1_bound (mrs : shr_record) :
  0 <= shr_m mrs -> 0 <= shr_m (shr_1 mrs) /\ 2 * shr_m (shr_1 mrs) <= shr_m mrs.
Proof.
  destruct mrs as [m r s]. cbn [shr_m]. intros H.
  destruct m as [|[p|p|]|p]; cbn; lia.
Qed.

Lemma iter_shr_1_bound (p : positive) :
  forall mrs, 0 <= shr_m mrs ->
    0 <= shr_m (SpecFloat.iter_pos shr_1 p mrs)
    /\ shr_m (SpecFloat.iter_pos shr_1 p mrs) * 2 ^ Z.pos p <= shr_m mrs.
Proof.
  induction p as [p IH|p IH|]; intros mrs H; cbn [SpecFloat.iter_pos].
  - destruct (shr_1_bound mrs H) as [H1 H2].
    destruct (IH _ H1) as [H3 H4]. destruct (IH _ H3) as [H5 H6].
    split; [exact H5|].
    replace (Z.pos p~1) with (Z.pos p + Z.pos p + 1) by lia.
    rewrite !Z.pow_add_r by lia. change (2 ^ 1) with 2.
    assert (HX : 0 < 2 ^ Z.pos p) by (apply Z.pow_pos_nonneg; lia).
    assert (H7 := Z.mul_le_mono_nonneg_r _ _ (2 ^ Z.pos p) ltac:(lia) H6). lia.
  - destruct (IH _ H) as [H3 H4]. destruct (IH _ H3) as [H5 H6].
    split; [exact H5|].
    replace (Z.pos p~0) with (Z.pos p + Z.pos p) by lia.
    rewrite !Z.pow_add_r by lia.
    assert (HX : 0 < 2 ^ Z.pos p) by (apply Z.pow_pos_nonneg; lia).
    assert (H7 := Z.mul_le_mono_nonneg_r _ _ (2 ^ Z.pos p) ltac:(lia) H6). lia.
  - destruct (shr_1_bound mrs H) as [H1 H2]. split; [exact H1|]. cbn. lia.
Qed.

Lemma shr_m_of_loc (m : Z) (l : location) : shr_m (shr_record_of_loc m l) = m.
Proof. destruct l as [|[]]; reflexivity. Qed.

(** One shift to the exponent of the format: the mantissa stays below
    the same power of two. *)
Lemma shr_fexp_bound (m e : Z) (l : location) (B : Z) :
  0 <= m < 2 ^ (B - e) -> e <= B -> emin prec emax <= B ->
  let '(mrs, e1) := shr_fexp prec emax m e l in
  0 <= shr_m mrs < 2 ^ (B - e1)
  /\ e <= e1 <= Z.max e (Z.max (B - prec) (emin prec emax)).
Proof.
  intros Hm He HB. unfold shr_fexp, shr.
  pose proof (Zdigits2_le m (B - e) Hm) as Hd.
  destruct (fexp prec emax (Zdigits2 m + e) - e) as [|p|p] eqn:Ep;
    [rewrite shr_m_of_loc; lia| |rewrite shr_m_of_loc; lia].
  destruct (iter_shr_1_bound p (shr_record_of_loc m l)) as [H1 H2];
    [rewrite shr_m_of_loc; lia|].
  rewrite shr_m_of_loc in H2.
  unfold fexp in Ep. split; [split; [exact H1|]|unfold fexp; lia].
  destruct (Z.le_gt_cases (e + Z.pos p) B) as [Hle|Hgt].
  - apply (Z.mul_lt_mono_pos_r (2 ^ Z.pos p)); [apply Z.pow_pos_nonneg; lia|].
    rewrite <- Z.pow_add_r by lia.
    replace (B - (e + Z.pos p) + Z.pos p) with (B - e) by lia.
    eapply Z.le_lt_trans; [exact H2|apply Hm].
  - exfalso. unfold prec, emax, emin in *. lia.
Qed.

Lemma round_nearest_even_bound (m : Z) (l : location) :
  m <= round_nearest_even m l <= m + 1.
Proof.
  destruct l as [|[]]; cbn [round_nearest_even]; try lia.
  destruct (Z.even m); lia.
Qed.

(** Rounding to the format: a mantissa below [2 ^ (B - ex)] gives zero or
    a finite float below [2 ^ (B + 1)]. *)
Lemma binary_round_aux_bound (sx : bool) (mx ex : Z) (lx : location) (B : Z) :
  0 <= mx < 2 ^ (B - ex) -> ex <= B -> ex <= emax - prec ->
  emin prec emax <= B <= emax - 1 ->
  match binary_round_aux prec emax sx mx ex lx with
  | S754_zero _ => True
  | S754_finite _ m e =>
      Z.pos m < 2 ^ (B + 1 - e)
      /\ e <= Z.max ex (Z.max (B + 1 - prec) (emin prec emax))
  | _ => False
  end.
Proof.
  intros Hm He Hex HB. unfold binary_round_aux.
  pose proof (shr_fexp_bound mx ex lx B Hm He ltac:(lia)) as H1.
  destruct (shr_fexp prec emax mx ex lx) as [mrs1 e1].
  destruct H1 as [Hm1 He1].
  pose proof (round_nearest_even_bound (shr_m mrs1) (loc_of_shr_record mrs1)) as Hr.
  set (m1 := round_nearest_even (shr_m mrs1) (loc_of_shr_record mrs1)) in *.
  assert (Hm1' : 0 <= m1 < 2 ^ (B + 1 - e1)).
  { split; [lia|].
    destruct (Z.le_gt_cases e1 B) as [Hle|Hgt].
    - replace (B + 1 - e1) with (Z.succ (B - e1)) by lia.
      rewrite Z.pow_succ_r by lia. lia.
    - rewrite Z.pow_neg_r in Hm1 by lia. lia. }
  assert (He1' : e1 <= B + 1).
  { destruct (Z.le_gt_cases e1 (B + 1)) as [|Hgt]; [assumption|].
    rewrite Z.pow_neg_r in Hm1' by lia. unfold prec, emax, emin in *. lia. }
  pose proof (shr_fexp_bound m1 e1 loc_Exact (B + 1) Hm1' He1' ltac:(lia)) as H2.
  destruct (shr_fexp prec emax m1 e1 loc_Exact) as [mrs2 e2].
  destruct H2 as [Hm2 He2].
  destruct (shr_m mrs2) as [|m|m]; [exact I| |lia].
  assert (He2' : e2 <= Z.max ex (Z.max (B + 1 - prec) (emin prec emax))) by (unfold prec, emax, emin in *; lia).
  destruct (Z.leb_spec e2 (emax - prec)) as [_|Hgt];
    [split; [apply Hm2|exact He2']|unfold prec, emax, emin in *; lia].
Qed.

Lemma Q_of_float_finite (x : spec_float) :
  match x with S754_zero _ | S754_finite _ _ _ => True | _ => False end ->
  Q_of_float x <> None.
Proof. destruct x; cbn; intros H; try contradiction; discriminate. Qed.

(** No file of a size that can be stored makes the percentage overflow. *)
Lemma percentage_finite (downloaded total_size : Z) :
  0 <= downloaded < 2 ^ 1000 -> 0 < total_size ->
  percentage downloaded total_size <> None.
Proof.
  intros Hd Ht. unfold percentage, int_truediv.
  change (float_of_int 100) with (S754_finite false 7036874417766400 (-46)).
  destruct total_size as [|b|b]; [lia| |lia].
  destruct downloaded as [|a|a]; [cbn; discriminate| |lia].
  change (Z.to_pos (Z.abs (Z.pos a))) with a.
  change (Z.to_pos (Z.abs (Z.pos b))) with b.
  change (Z.pos a <? 0) with false. change (Z.pos b <? 0) with false.
  cbn [SFdiv xorb].
  unfold SFdiv_core_binary.
  set (e1 := Z.min _ _). set (s1 := 0 - 0 - e1).
  set (m1 := match s1 with Z.pos _ => Z.shiftl (Z.pos a) s1 | 0 => Z.pos a | Z.neg _ => 0 end).
  assert (He1 : e1 <= 0) by (unfold e1; lia).
  assert (Hm1 : 0 <= m1 < 2 ^ (1000 - e1)).
  { unfold m1, s1. destruct (0 - 0 - e1) as [|p|p] eqn:E.
    - replace e1 with 0 by lia. lia.
    - rewrite Z.shiftl_mul_pow2 by lia. replace (1000 - e1) with (1000 + Z.pos p) by lia.
      rewrite Z.pow_add_r by lia.
      assert (0 < 2 ^ Z.pos p) by (apply Z.pow_pos_nonneg; lia). nia.
    - lia. }
  pose proof (Z_div_mod m1 (Z.pos b) ltac:(lia)) as Hdiv.
  destruct (Z.div_eucl m1 (Z.pos b)) as [q r]. destruct Hdiv as [Hq Hr].
  assert (Hq' : 0 <= q < 2 ^ (1000 - e1)) by nia.
  pose proof (binary_round_aux_bound false q e1 (new_location (Z.pos b) r) 1000
                Hq' ltac:(lia) ltac:(unfold prec, emax; lia)
                ltac:(unfold prec, emax, emin; lia)) as Hx.
  destruct (binary_round_aux prec emax false q e1 _) as [sq| | |sq mq eq];
    try contradiction; [cbn; discriminate|].
  destruct Hx as [Hmq Heq].
  apply Q_of_float_finite. cbn [SFmul xorb].
  assert (Heq' : eq <= 1001).
  { destruct (Z.le_gt_cases eq 1001) as [|Hgt]; [assumption|].
    rewrite Z.pow_neg_r in Hmq by lia. lia. }
  assert (Hprod : 0 <= Z.pos (mq * 7036874417766400) < 2 ^ (1008 - (eq + -46))).
  { split; [lia|]. rewrite Pos2Z.inj_mul.
    replace (1008 - (eq + -46)) with ((1001 - eq) + 53) by lia.
    rewrite Z.pow_add_r by lia.
    assert (Z.pos 7036874417766400 < 2 ^ 53) by (vm_compute; reflexivity).
    assert (0 < 2 ^ (1001 - eq)) by (apply Z.pow_pos_nonneg; lia).
    change (1000 + 1 - eq) with (1001 - eq) in Hmq. nia. }
  pose proof (binary_round_aux_bound (xorb sq false) (Z.pos (mq * 7036874417766400))
                (eq + -46) loc_Exact 1008 Hprod
                ltac:(lia) ltac:(unfold prec, emax, emin in *; lia)
                ltac:(unfold prec, emax, emin; lia)) as Hy.
  destruct (binary_round_aux _ _ _ _ _ _); try exact I; exact Hy.
Qed.

(** The rounding shows: 29 bytes of 100 are 28.999999999999996 percent,
    of which the integer percentage is 28. *)
Lemma percentage_is_rounded :
  int_of_float <$> percentage 28 100 = Some 28
  /\ int_of_float <$> percentage 29 100 = Some 28
  /\ int_of_float <$> percentage 30 100 = Some 30
  /\ percentage (2 ^ 1024) 1 = None.
Proof. repeat split; vm_compute; reflexivity. Qed.

End Binary64.

(** ** Stall detection *)

Section Stalls.

Variables (filename : str) (total_size : Z).

Lemma stalled_short_spec (file_sizes : gmap str Z) (n : Z) :
  stalled_short file_sizes filename n = true
  <-> exists expected_size,
      file_sizes !! filename = Some expected_size
      /\ expected_size <> 0 /\ n < expected_size.
Proof.
  unfold stalled_short. destruct (file_sizes !! filename) as [e|].
  - rewrite andb_true_iff, negb_true_iff, Z.eqb_neq, Z.ltb_lt. split.
    + intros [H1 H2]. eauto.
    + intros (e' & [= <-] & H1 & H2). auto.
  - split; [discriminate|]. intros (e' & [=] & _).
Qed.

(** On the bytes of a download, which are not negative, the guard
    [expected_size and downloaded < expected_size] says that the expected
    size is known and not reached. *)
Lemma stalled_short_known (file_sizes : gmap str Z) (n : Z) :
  0 <= n ->
  stalled_short file_sizes filename n = known_short (file_sizes !! filename) n.
Proof.
  intros Hn. unfold stalled_short, known_short.
  destruct (file_sizes !! filename) as [e|]; [|reflexivity].
  destruct (Z.eqb_spec e 0) as [->|He]; cbn [negb andb]; [|reflexivity].
  symmetry. apply Z.ltb_ge. exact Hn.
Qed.

Lemma known_short_spec (expected : option Z) (n : Z) :
  known_short expected n = true
  <-> exists expected_size, expected = Some expected_size /\ n < expected_size.
Proof.
  unfold known_short. destruct expected as [e|].
  - rewrite Z.ltb_lt. split; [eauto|]. now intros (e' & [= <-] & H).
  - split; [discriminate|]. intros (e' & [=] & _).
Qed.

(** When the speed monitor raises. *)
Lemma speed_monitor_raises (d : disk) (t : Q) (st : attempt_state) e :
  fst (fst (speed_monitor filename t st d)) = Raise e
  <-> e = TimeoutError AtSpeedCheck
      /\ sample t st = Some true
      /\ 3 <= stall_count st + 1
      /\ stalled_short (get_expected_sizes d) filename (downloaded st) = true.
Proof.
  rewrite speed_monitor_run. cbn [fst].
  destruct (sample t st) as [[|]|].
  - destruct (Z.geb_spec (stall_count st + 1) 3) as [Hge|Hlt]; cbn [andb].
    + destruct (stalled_short _ _ _).
      * split; [intros [= <-]; auto|]. intros (-> & _). reflexivity.
      * split; [discriminate|]. intros (_ & _ & _ & [=]).
    + split; [discriminate|]. intros (_ & _ & H & _). lia.
  - split; [discriminate|]. intros (_ & [=] & _).
  - split; [discriminate|]. intros (_ & [=] & _).
Qed.

Lemma file_sizes_set_video (d : disk) content :
  file_sizes_json (set_video filename content d) = file_sizes_json d.
Proof. reflexivity. Qed.

(** The loop goes through a prefix it gets through and continues on
    what follows it. *)
Lemma read_loop_prefix (d0 : disk) (pre : list read_result) :
  forall st n m st' rest d,
    low_streak filename total_size d0 pre st n = Some (m, st') ->
    file_sizes_json d = file_sizes_json d0 ->
    exists d1,
      file_sizes_json d1 = file_sizes_json d0
      /\ read_loop filename total_size (pre ++ rest) st d
         = match read_loop filename total_size rest st' d1 with
           | (r, d2, t2) =>
               (r, d2, List.map (Write filename) (stream_chunks pre) ++ t2)
           end.
Proof.
  induction pre as [|ev pre IH]; intros st n m st' rest d H Hd.
  - injection H as <- <-. exists d. split; [exact Hd|].
    cbn [app stream_chunks List.map]. now destruct (read_loop _ _ _ _ _) as [[? ?] ?].
  - destruct ev as [[|b bs] t1 t2|fl]; try discriminate.
    cbn [low_streak] in H. cbn zeta in H.
    destruct (monitors _ _ _ _ _ d0) as [[[st2|e] d2] tr] eqn:E; [|discriminate].
    set (d1 := set_video filename (default [] (videos d !! filename) ++ b :: bs) d).
    destruct (IH _ _ _ _ rest d1 H) as (d3 & Hd3 & Hrun); [exact Hd|].
    exists d3. split; [exact Hd3|].
    cbn [app]. rewrite read_loop_data. cbn zeta. fold d1.
    rewrite (monitors_sizes _ _ d1 d0) by exact Hd.
    rewrite E. cbn [fst]. rewrite Hrun.
    now destruct (read_loop _ _ rest st' d3) as [[? ?] ?].
Qed.

(** *** The loop refines the detector *)

(** The speed monitor on a chunk does what the counter makes of the
    sample of the chunk. *)
Lemma speed_monitor_step (d : disk) (st : attempt_state)
    since pending logged logged_at received counter n t1 t2 s since' pending' :
  tracks st since pending logged logged_at received counter ->
  0 <= n ->
  sample_step since pending (n, t1, t2) = (s, (since', pending')) ->
  match count_sample (file_sizes_json d !! filename) (received + n) counter s with
  | Passed c =>
      exists st1,
        fst (fst (speed_monitor filename t1 (add_downloaded n st) d)) = Return st1
        /\ tracks st1 since' pending' logged logged_at (received + n) c
  | _ =>
      fst (fst (speed_monitor filename t1 (add_downloaded n st) d))
      = Raise (TimeoutError AtSpeedCheck)
  end.
Proof.
  intros (Hd & Hr & Hc & Hsc & Hlb & Hlp & Hlt) Hn Hs.
  rewrite speed_monitor_run. cbn [fst].
  unfold get_expected_sizes.
  rewrite (stalled_short_known _ (downloaded (add_downloaded n st)))
    by (cbn [downloaded add_downloaded]; lia).
  unfold sample, speed. cbn [downloaded add_downloaded last_speed_check
                             last_bytes_downloaded stall_count].
  rewrite Hd, Hsc, Hlb, Hc.
  replace (received + n - (received - pending)) with (pending + n) by lia.
  unfold sample_step in Hs.
  destruct (Qle_bool (inject_Z SPEED_CHECK_INTERVAL) (t1 - since)).
  - injection Hs as <- <- <-.
    destruct (Qlt_bool _ _); cbn [count_sample].
    + rewrite Z.geb_leb.
      destruct ((3 <=? counter + 1) && known_short _ _); [reflexivity|].
      eexists. split; [reflexivity|].
      repeat split; cbn; auto; lia.
    + eexists. split; [reflexivity|]. repeat split; cbn; auto; lia.
  - injection Hs as <- <- <-. cbn [count_sample].
    eexists. split; [reflexivity|]. repeat split; cbn; auto; lia.
Qed.

(** The progress monitor on a chunk does what the counter makes of the
    progress signal of the chunk. *)
Lemma progress_monitor_step (d : disk) (st : attempt_state)
    since pending logged logged_at received counter o g logged' logged_at' :
  tracks st since pending logged logged_at received counter ->
  signal_step total_size logged logged_at received o = (g, (logged', logged_at')) ->
  match count_signal (file_sizes_json d !! filename) received counter g with
  | Passed c =>
      exists st2,
        fst (fst (progress_monitor filename total_size (snd o) st d)) = Return st2
        /\ tracks st2 since pending logged' logged_at' received c
  | v =>
      match abort_of v with
      | Some e => fst (fst (progress_monitor filename total_size (snd o) st d)) = Raise e
      | None => True
      end
  end.
Proof.
  intros (Hd & Hr & Hc & Hsc & Hlb & Hlp & Hlt) Hg.
  rewrite progress_monitor_run. cbn [fst]. unfold get_expected_sizes.
  rewrite (stalled_short_known _ (downloaded st)) by lia.
  rewrite Hd, Hlp, Hlt, Hc.
  destruct o as [[n t1] t2]. cbn [snd]. unfold signal_step in Hg.
  destruct (total_size >? 0).
  2:{ injection Hg as <- <- <-. cbn [count_signal].
      eexists. split; [reflexivity|]. repeat split; auto. }
  destruct (percentage received total_size) as [p|].
  2:{ injection Hg as <- <- <-. reflexivity. }
  destruct (int_of_float p >? logged).
  { injection Hg as <- <- <-. cbn [count_signal].
    eexists. split; [reflexivity|]. repeat split; cbn; auto. }
  destruct (Qlt_bool (inject_Z CHUNK_TIMEOUT) (t2 - logged_at)).
  2:{ injection Hg as <- <- <-. cbn [count_signal andb].
      eexists. split; [reflexivity|]. repeat split; auto. }
  injection Hg as <- <- <-. cbn [count_signal andb].
  destruct (known_short _ _).
  2:{ eexists. split; [reflexivity|]. repeat split; auto. }
  rewrite Z.geb_leb. destruct (3 <=? counter + 1); [reflexivity|].
  eexists. split; [reflexivity|]. repeat split; cbn; auto.
Qed.

Lemma count_sample_cases (expected : option Z) (received counter : Z) s :
  (exists c, count_sample expected received counter s = Passed c)
  \/ count_sample expected received counter s = SpeedStall.
Proof.
  unfold count_sample. destruct s as [[|]|]; eauto.
  destruct (_ && _); eauto.
Qed.

(** The two monitors on a chunk. *)
Lemma monitors_step (d : disk) (st : attempt_state)
    since pending logged logged_at received counter n t1 t2
    s since' pending' g logged' logged_at' :
  tracks st since pending logged logged_at received counter ->
  0 <= n ->
  sample_step since pending (n, t1, t2) = (s, (since', pending')) ->
  signal_step total_size logged logged_at (received + n) (n, t1, t2)
  = (g, (logged', logged_at')) ->
  match count_chunk (file_sizes_json d !! filename) (received + n) counter s g with
  | Passed c =>
      exists st2,
        fst (fst (monitors filename total_size t1 t2 (add_downloaded n st) d))
        = Return st2
        /\ tracks st2 since' pending' logged' logged_at' (received + n) c
  | v =>
      match abort_of v with
      | Some e =>
          fst (fst (monitors filename total_size t1 t2 (add_downloaded n st) d))
          = Raise e
      | None => True
      end
  end.
Proof.
  intros Ht Hn Hs Hg. rewrite monitors_run. unfold count_chunk.
  pose proof (speed_monitor_step d st _ _ _ _ _ _ _ _ _ _ _ _ Ht Hn Hs) as H1.
  destruct (speed_monitor filename t1 (add_downloaded n st) d) as [[r1 d1] tr1].
  cbn [fst] in H1.
  destruct (count_sample_cases (file_sizes_json d !! filename) (received + n) counter s)
    as [[c1 E]|E]; rewrite E in *; [|rewrite H1; reflexivity].
  destruct H1 as (st1 & -> & Ht1).
  pose proof (progress_monitor_step d st1 _ _ _ _ _ _ (n, t1, t2) _ _ _ Ht1 Hg) as H2.
  cbn [snd] in H2. cbn [fst].
  destruct (count_signal _ _ _ _) as [c2| | |]; cbn [abort_of] in *; auto.
Qed.

Lemma chunk_events_from_cons since pending logged logged_at received o obs
    s since' pending' g logged' logged_at' :
  sample_step since pending o = (s, (since', pending')) ->
  signal_step total_size logged logged_at (received + fst (fst o)) o
  = (g, (logged', logged_at')) ->
  chunk_events_from since pending total_size logged logged_at received (o :: obs)
  = (fst (fst o), s, g)
    :: chunk_events_from since' pending' total_size logged' logged_at'
         (received + fst (fst o)) obs.
Proof.
  intros Hs Hg. unfold chunk_events_from.
  cbn [List.map throughput_samples progress_signals]. cbn zeta.
  rewrite Hs, Hg. reflexivity.
Qed.

Lemma tracks_initial (start : Q) : tracks (initial_state start) start 0 0 start 0 0.
Proof. repeat split; reflexivity || lia. Qed.

(** The loop aborts exactly as the detector says, and ends as the body
    ends when the detector lets every chunk pass. *)
Lemma read_loop_verdict_from (body : list read_result) :
  forall st d since pending logged logged_at received counter,
    tracks st since pending logged logged_at received counter ->
    fst (fst (read_loop filename total_size body st d))
    = match abort_of
              (stall_counter (file_sizes_json d !! filename) counter received
                 (chunk_events_from since pending total_size logged logged_at received
                    (observations body))) with
      | Some e => Raise e
      | None => body_end body
      end.
Proof.
  induction body as [|ev rest IH];
    intros st d since pending logged logged_at received counter Ht; [reflexivity|].
  destruct ev as [[|b bs] t1 t2|fl]; [reflexivity| |reflexivity].
  rewrite read_loop_data. cbn zeta. cbn [observations body_end].
  set (n := len (b :: bs)).
  set (d1 := set_video filename (default [] (videos d !! filename) ++ b :: bs) d).
  destruct (sample_step since pending (n, t1, t2)) as [s [since' pending']] eqn:Hs.
  destruct (signal_step total_size logged logged_at (received + n) (n, t1, t2))
    as [g [logged' logged_at']] eqn:Hg.
  rewrite (chunk_events_from_cons _ _ _ _ _ (n, t1, t2) _ _ _ _ _ _ _ Hs Hg).
  cbn [stall_counter fst].
  pose proof (monitors_step d1 st _ _ _ _ _ _ n t1 t2 _ _ _ _ _ _ Ht
                ltac:(unfold n, len; lia) Hs Hg) as Hm.
  change (file_sizes_json d1) with (file_sizes_json d) in Hm.
  change (Z.of_nat (length (b :: bs))) with n.
  destruct (count_chunk _ _ _ _ _) as [c| | |]; cbn [abort_of] in *;
    try (rewrite Hm; reflexivity).
  destruct Hm as (st2 & -> & Ht2).
  pose proof (IH st2 d1 _ _ _ _ _ _ Ht2) as IH2.
  change (file_sizes_json d1) with (file_sizes_json d) in IH2.
  rewrite <- IH2.
  now destruct (read_loop filename total_size rest st2 d1) as [[r d2] t].
Qed.

Lemma read_loop_verdict (body : list read_result) (start : Q) (d : disk) :
  fst (fst (read_loop filename total_size body (initial_state start) d))
  = match abort_of (stall_verdict (file_sizes_json d !! filename) start total_size
                      (observations body)) with
    | Some e => Raise e
    | None => body_end body
    end.
Proof. apply read_loop_verdict_from, tracks_initial. Qed.

(** The counter of the loop after a prefix is the counter of the
    detector. *)
Lemma low_streak_verdict_from (d : disk) (pre : list read_result) :
  forall st m0 m st' since pending logged logged_at received counter,
    tracks st since pending logged logged_at received counter ->
    low_streak filename total_size d pre st m0 = Some (m, st') ->
    stall_counter (file_sizes_json d !! filename) counter received
      (chunk_events_from since pending total_size logged logged_at received
         (observations pre))
    = Passed (stall_count st').
Proof.
  induction pre as [|ev rest IH];
    intros st m0 m st' since pending logged logged_at received counter Ht H.
  - injection H as _ <-. destruct Ht as (_ & _ & <- & _). reflexivity.
  - destruct ev as [[|b bs] t1 t2|fl]; try discriminate.
    cbn [low_streak] in H. cbn zeta in H. cbn [observations].
    set (n := len (b :: bs)).
    destruct (sample_step since pending (n, t1, t2)) as [s [since' pending']] eqn:Hs.
    destruct (signal_step total_size logged logged_at (received + n) (n, t1, t2))
      as [g [logged' logged_at']] eqn:Hg.
    rewrite (chunk_events_from_cons _ _ _ _ _ (n, t1, t2) _ _ _ _ _ _ _ Hs Hg).
    cbn [stall_counter fst].
    pose proof (monitors_step d st _ _ _ _ _ _ n t1 t2 _ _ _ _ _ _ Ht
                  ltac:(unfold n, len; lia) Hs Hg) as Hm.
    change (Z.of_nat (length (b :: bs))) with n in H.
    destruct (monitors filename total_size t1 t2 (add_downloaded n st) d)
      as [[[st2|e] d2] tr]; [|discriminate].
    cbn [fst] in Hm.
    destruct (count_chunk _ _ _ _ _) as [c| | |]; cbn [abort_of] in Hm;
      try discriminate.
    destruct Hm as (st2' & [= <-] & Ht2).
    exact (IH _ _ _ _ _ _ _ _ _ _ Ht2 H).
Qed.

End Stalls.

(** *** What the detector says *)

Section Detector.

Variables (expected : option Z) (total_size : Z).

Lemma observations_snoc (pre : list read_result) b bs t1 t2 :
  all_data pre = true ->
  observations (pre ++ [Data (b :: bs) t1 t2])
  = observations pre ++ [(len (b :: bs), t1, t2)].
Proof.
  induction pre as [|ev pre IH]; [reflexivity|].
  destruct ev as [[|b' bs'] t1' t2'|fl]; try discriminate.
  cbn [all_data forallb andb app observations]. intros H.
  fold (all_data pre) in H. now rewrite IH.
Qed.

Lemma throughput_samples_snoc (obs : list observation) (o : observation) :
  forall since pending,
    exists s,
      throughput_samples since pending (obs ++ [o])
      = throughput_samples since pending obs ++ [s].
Proof.
  induction obs as [|o' obs IH]; intros since pending; cbn [app throughput_samples].
  - destruct (sample_step since pending o) as [s [since' pending']]. now exists s.
  - destruct (sample_step since pending o') as [s' [since' pending']].
    destruct (IH since' pending') as [s ->]. now exists s.
Qed.

Lemma progress_signals_snoc (obs : list observation) (o : observation) :
  forall logged logged_at received,
    exists g,
      progress_signals total_size logged logged_at received (obs ++ [o])
      = progress_signals total_size logged logged_at received obs ++ [g].
Proof.
  induction obs as [|o' obs IH]; intros logged logged_at received;
    cbn [app progress_signals]; cbn zeta.
  - destruct (signal_step _ _ _ _ o) as [g [logged' logged_at']]. now exists g.
  - destruct (signal_step _ _ _ _ o') as [g' [logged' logged_at']].
    destruct (IH logged' logged_at' (received + fst (fst o'))) as [g ->]. now exists g.
Qed.

Lemma last_cons_snoc {A} (x a : A) (l : list A) : last (x :: l ++ [a]) = last (l ++ [a]).
Proof. now rewrite app_comm_cons, !last_snoc. Qed.

Lemma body_end_net (body : list read_result) :
  body_end body = Return tt \/ exists f, body_end body = Raise (exn_of_net f).
Proof.
  induction body as [|[[|b bs] t1 t2|fl] rest IH]; cbn [body_end]; eauto.
Qed.

Lemma body_end_clean (body : list read_result) :
  clean_body body = true -> body_end body = Return tt.
Proof.
  induction body as [|[[|b bs] t1 t2|fl] rest IH]; cbn [body_end clean_body];
    auto; discriminate.
Qed.

Lemma total_bytes_nonneg (chunks : list (list Byte.byte)) : 0 <= total_bytes chunks.
Proof.
  induction chunks as [|c cs IH]; cbn [total_bytes fold_right]; [lia|].
  fold (total_bytes cs). lia.
Qed.

(** The verdict on a history with one more chunk. *)
Lemma stall_counter_snoc (pre : list read_result) b bs t1 t2 :
  forall since pending logged logged_at received counter k,
    all_data pre = true ->
    stall_counter expected counter received
      (chunk_events_from since pending total_size logged logged_at received
         (observations pre))
    = Passed k ->
    stall_counter expected counter received
      (chunk_events_from since pending total_size logged logged_at received
         (observations (pre ++ [Data (b :: bs) t1 t2])))
    = count_chunk expected (received + total_bytes (stream_chunks pre) + len (b :: bs)) k
        (default None
           (last (throughput_samples since pending
                    (observations (pre ++ [Data (b :: bs) t1 t2])))))
        (default Quiet
           (last (progress_signals total_size logged logged_at received
                    (observations (pre ++ [Data (b :: bs) t1 t2]))))).
Proof.
  induction pre as [|ev pre IH];
    intros since pending logged logged_at received counter k Hall H.
  - cbn [app observations stream_chunks total_bytes fold_right] in *.
    injection H as <-.
    set (n := len (b :: bs)).
    destruct (sample_step since pending (n, t1, t2)) as [s [since' pending']] eqn:Hs.
    destruct (signal_step total_size logged logged_at (received + n) (n, t1, t2))
      as [g [logged' logged_at']] eqn:Hg.
    rewrite (chunk_events_from_cons _ _ _ _ _ _ (n, t1, t2) _ _ _ _ _ _ _ Hs Hg).
    cbn [throughput_samples progress_signals fst]. cbn zeta. rewrite Hs, Hg.
    cbn [stall_counter last default fst]. rewrite Z.add_0_r.
    now destruct (count_chunk _ _ _ _ _).
  - destruct ev as [[|b' bs'] t1' t2'|fl]; try discriminate.
    cbn [all_data forallb andb] in Hall. fold (all_data pre) in Hall.
    cbn [app observations stream_chunks total_bytes fold_right] in *.
    fold (total_bytes (stream_chunks pre)).
    set (n' := len (b' :: bs')) in *.
    destruct (sample_step since pending (n', t1', t2')) as [s' [since' pending']] eqn:Hs.
    destruct (signal_step total_size logged logged_at (received + n') (n', t1', t2'))
      as [g' [logged' logged_at']] eqn:Hg.
    rewrite (chunk_events_from_cons _ _ _ _ _ _ (n', t1', t2') _ _ _ _ _ _ _ Hs Hg) in H.
    rewrite (chunk_events_from_cons _ _ _ _ _ _ (n', t1', t2') _ _ _ _ _ _ _ Hs Hg).
    cbn [throughput_samples progress_signals fst]. cbn zeta. rewrite Hs, Hg.
    cbn [stall_counter fst] in H |- *.
    destruct (count_chunk expected (received + n') counter s' g') as [c1| | |];
      try discriminate.
    rewrite (IH _ _ _ _ _ _ _ Hall H).
    rewrite (observations_snoc _ _ _ _ _ Hall).
    destruct (throughput_samples_snoc (observations pre) (len (b :: bs), t1, t2)
                since' pending') as [s ->].
    destruct (progress_signals_snoc (observations pre) (len (b :: bs), t1, t2)
                logged' logged_at' (received + n')) as [g ->].
    rewrite !last_cons_snoc.
    change (Z.of_nat (length (b' :: bs'))) with n'.
    now replace (received + n' + total_bytes (stream_chunks pre))
      with (received + (n' + total_bytes (stream_chunks pre))) by lia.
Qed.

Lemma count_chunk_low (received counter c : Z) s g (n : nat) :
  count_chunk expected received counter s g = Passed c ->
  Z.of_nat n <= counter ->
  Z.of_nat (match s with Some true => S n | Some false => O | None => n end) <= c.
Proof.
  unfold count_chunk, count_sample, count_signal. intros H Hn.
  destruct s as [[|]|]; [destruct (_ && _); [discriminate|]|..];
    (destruct g; [| destruct (known_short _ _); [destruct (_ <=? _)|] | |]);
    try discriminate; injection H as <-; lia.
Qed.

(** The counter is at least the number of low samples since the last
    healthy one. *)
Lemma stall_counter_low_run (obs : list observation) :
  forall since pending logged logged_at received counter k (n : nat),
    stall_counter expected counter received
      (chunk_events_from since pending total_size logged logged_at received obs)
    = Passed k ->
    Z.of_nat n <= counter ->
    Z.of_nat (low_run_from n (throughput_samples since pending obs)) <= k.
Proof.
  induction obs as [|o obs IH];
    intros since pending logged logged_at received counter k n H Hn.
  - injection H as <-. exact Hn.
  - destruct (sample_step since pending o) as [s [since' pending']] eqn:Hs.
    destruct (signal_step total_size logged logged_at (received + fst (fst o)) o)
      as [g [logged' logged_at']] eqn:Hg.
    rewrite (chunk_events_from_cons _ _ _ _ _ _ _ _ _ _ _ _ _ _ Hs Hg) in H.
    cbn [throughput_samples]. rewrite Hs.
    cbn [stall_counter] in H. unfold low_run_from. cbn [fold_left].
    destruct (count_chunk _ _ _ _ _) as [c1| | |] eqn:Ec; try discriminate.
    apply (IH _ _ _ _ _ _ _ _ H). exact (count_chunk_low _ _ _ _ _ _ Ec Hn).
Qed.

Lemma low_run_snoc (samples : list (option bool)) :
  low_run (samples ++ [Some true]) = S (low_run samples).
Proof. unfold low_run, low_run_from. now rewrite fold_left_app. Qed.

(** The percentage of a file of less than [2 ^ 1000] bytes is a float. *)
Lemma stall_counter_no_overflow (body : list read_result) :
  forall since pending logged logged_at received counter,
    0 <= received ->
    received + total_bytes (stream_chunks body) < 2 ^ 1000 ->
    stall_counter expected counter received
      (chunk_events_from since pending total_size logged logged_at received
         (observations body))
    <> PercentageError.
Proof.
  induction body as [|ev rest IH];
    intros since pending logged logged_at received counter Hr Hb; [discriminate|].
  destruct ev as [[|b bs] t1 t2|fl]; try discriminate.
  cbn [observations stream_chunks total_bytes fold_right] in *.
  fold (total_bytes (stream_chunks rest)) in Hb.
  pose proof (total_bytes_nonneg (stream_chunks rest)) as Hnn.
  set (n := len (b :: bs)) in *.
  assert (Hn : 0 <= n) by (unfold n, len; lia).
  destruct (sample_step since pending (n, t1, t2)) as [s [since' pending']] eqn:Hs.
  destruct (signal_step total_size logged logged_at (received + n) (n, t1, t2))
    as [g [logged' logged_at']] eqn:Hg.
  rewrite (chunk_events_from_cons _ _ _ _ _ _ (n, t1, t2) _ _ _ _ _ _ _ Hs Hg).
  cbn [stall_counter fst].
  assert (Hgo : g <> Overflow).
  { unfold signal_step in Hg. destruct (Z.gtb_spec total_size 0) as [Hts|_];
      [|injection Hg as <- _ _; discriminate].
    destruct (percentage (received + n) total_size) as [p|] eqn:Ep.
    - destruct (_ >? _); [|destruct (Qlt_bool _ _)]; injection Hg as <- _ _; discriminate.
    - exfalso. apply (percentage_finite (received + n) total_size); [|lia|exact Ep].
      change (Z.of_nat (length (b :: bs))) with n in Hb. lia. }
  destruct (count_chunk _ _ _ _ _) as [c| | |] eqn:Ec; try discriminate.
  - apply IH; [lia|]. change (Z.of_nat (length (b :: bs))) with n in Hb. lia.
  - exfalso. unfold count_chunk, count_sample, count_signal in Ec.
    destruct s as [[|]|]; [destruct (_ && _); [discriminate|]|..];
      (destruct g; [| destruct (known_short _ _); [destruct (_ <=? _)|] | |]);
      congruence.
Qed.

End Detector.

(** With no expected size the counter counts the low samples since the
    last healthy one, and nothing else. *)
Lemma count_chunk_unknown (received counter : Z) s g :
  g <> Overflow ->
  count_chunk None received counter s g
  = Passed (match s with Some true => counter + 1 | Some false => 0 | None => counter end).
Proof.
  unfold count_chunk, count_sample, count_signal, known_short. intros Hg.
  rewrite andb_false_r. destruct s as [[|]|]; destruct g; congruence.
Qed.

Lemma stall_counter_unknown (total_size : Z) (obs : list observation) :
  forall since pending logged logged_at received counter (n : nat),
    Z.of_nat n = counter ->
    let v := stall_counter None counter received
               (chunk_events_from since pending total_size logged logged_at received obs) in
    v = PercentageError
    \/ v = Passed (Z.of_nat (low_run_from n (throughput_samples since pending obs))).
Proof.
  induction obs as [|o obs IH];
    intros since pending logged logged_at received counter n Hn; cbn zeta.
  - right. now rewrite <- Hn.
  - destruct (sample_step since pending o) as [s [since' pending']] eqn:Hs.
    destruct (signal_step total_size logged logged_at (received + fst (fst o)) o)
      as [g [logged' logged_at']] eqn:Hg.
    rewrite (chunk_events_from_cons _ _ _ _ _ _ _ _ _ _ _ _ _ _ Hs Hg).
    cbn [throughput_samples]. rewrite Hs. cbn [stall_counter].
    unfold low_run_from. cbn [fold_left].
    assert (Hdec : g = Overflow \/ g <> Overflow)
      by (destruct g; auto; right; discriminate).
    destruct Hdec as [->|Hgo].
    + left. unfold count_chunk, count_sample, known_short. rewrite andb_false_r.
      now destruct s as [[|]|].
    + rewrite (count_chunk_unknown _ _ _ _ Hgo).
      apply IH. subst counter. destruct s as [[|]|]; lia.
Qed.

Ltac case_ifs :=
  repeat match goal with
         | |- context [if ?c then _ else _] => destruct c eqn:?
         end.

Lemma count_chunk_speed_stall (expected : option Z) (received counter : Z) s g :
  count_chunk expected received counter s g = SpeedStall
  <-> s = Some true /\ 3 <= counter + 1 /\ known_short expected received = true.
Proof.
  unfold count_chunk, count_sample.
  destruct s as [[|]|]; cycle 1.
  - split; [|intros ([=] & _)]. unfold count_signal. destruct g; case_ifs; discriminate.
  - split; [|intros ([=] & _)]. unfold count_signal. destruct g; case_ifs; discriminate.
  - destruct ((3 <=? counter + 1) && known_short expected received) eqn:E.
    + apply andb_true_iff in E as [E1 E2]. apply Z.leb_le in E1. split; auto.
    + split.
      * unfold count_signal. destruct g; case_ifs; discriminate.
      * intros (_ & H1 & H2). apply Z.leb_le in H1. rewrite H1, H2 in E. discriminate.
Qed.

Lemma count_chunk_progress_stall (expected : option Z) (received counter : Z) s g :
  count_chunk expected received counter s g = ProgressStall
  <-> exists c,
      count_sample expected received counter s = Passed c
      /\ g = Stuck /\ 3 <= c + 1 /\ known_short expected received = true.
Proof.
  unfold count_chunk.
  destruct (count_sample_cases expected received counter s) as [[c E]|E]; rewrite E.
  - unfold count_signal. split.
    + destruct g; try discriminate.
      destruct (known_short expected received); [|discriminate].
      destruct (Z.leb_spec 3 (c + 1)); [|discriminate].
      intros _. exists c. auto.
    + intros (c' & [= <-] & -> & Hc & ->).
      destruct (Z.leb_spec 3 (c + 1)); [reflexivity|lia].
  - split; [discriminate|]. intros (c & [=] & _).
Qed.

Lemma verdict_result_speed (v : verdict) (body : list read_result) :
  match abort_of v with Some e => Raise e | None => body_end body end
  = Raise (TimeoutError AtSpeedCheck)
  <-> v = SpeedStall.
Proof.
  destruct v; cbn [abort_of]; split; try discriminate; try reflexivity.
  destruct (body_end_net body) as [->|[f ->]]; [discriminate|]. now destruct f.
Qed.

Lemma verdict_result_progress (v : verdict) (body : list read_result) :
  match abort_of v with Some e => Raise e | None => body_end body end
  = Raise (TimeoutError AtProgressCheck)
  <-> v = ProgressStall.
Proof.
  destruct v; cbn [abort_of]; split; try discriminate; try reflexivity.
  destruct (body_end_net body) as [->|[f ->]]; [discriminate|]. now destruct f.
Qed.

(** The verdict on the chunk that follows a prefix the detector lets
    pass. *)
Lemma stall_verdict_snoc (expected : option Z) (start : Q) (total_size : Z)
    (pre : list read_result) b bs t1 t2 k :
  all_data pre = true ->
  stall_verdict expected start total_size (observations pre) = Passed k ->
  stall_verdict expected start total_size (observations (pre ++ [Data (b :: bs) t1 t2]))
  = count_chunk expected (total_bytes (stream_chunks pre) + len (b :: bs)) k
      (last_sample start (observations (pre ++ [Data (b :: bs) t1 t2])))
      (last_signal start total_size (observations (pre ++ [Data (b :: bs) t1 t2]))).
Proof.
  intros Hall Hk. unfold stall_verdict, chunk_events in *.
  rewrite (stall_counter_snoc _ _ _ _ _ _ _ _ _ _ _ _ _ _ Hall Hk).
  now rewrite Z.add_0_l.
Qed.

Section UnknownSize.

Variable filename : str.

(** Without an expected size on record the loop is left by the end of the
    stream, by a failure of a read or by a percentage that is no float. *)
Lemma read_loop_unknown (total_size : Z) (body : list read_result) (start : Q)
    (d : disk) site :
  file_sizes_json d !! filename = None ->
  fst (fst (read_loop filename total_size body (initial_state start) d))
  = Raise (TimeoutError site) ->
  site = AtNetwork.
Proof.
  intros Hd. rewrite read_loop_verdict, Hd. unfold stall_verdict, chunk_events.
  destruct (stall_counter_unknown total_size (observations body) start 0 0 start 0 0
              0%nat eq_refl) as [E|E]; cbn zeta in E; rewrite E; cbn [abort_of].
  - discriminate.
  - destruct (body_end_net body) as [->|[f ->]]; [discriminate|].
    destruct f; intros [=]; congruence.
Qed.

(** A body that reaches its end is read to its end when no expected size
    is on record. *)
Lemma read_loop_clean (total_size : Z) (body : list read_result) (start : Q)
    (d : disk) :
  file_sizes_json d !! filename = None ->
  clean_body body = true ->
  total_bytes (stream_chunks body) < 2 ^ 1000 ->
  fst (fst (read_loop filename total_size body (initial_state start) d)) = Return tt.
Proof.
  intros Hd Hc Hb. rewrite read_loop_verdict, Hd. unfold stall_verdict, chunk_events.
  destruct (stall_counter_unknown total_size (observations body) start 0 0 start 0 0
              0%nat eq_refl) as [E|E]; cbn zeta in E.
  - exfalso. revert E. apply stall_counter_no_overflow; lia.
  - rewrite E. cbn [abort_of]. now apply body_end_clean.
Qed.

(** No stall check aborts an attempt on a file without an expected size. *)
Lemma attempt_unknown_size (s : session) (url : str) (retry_count : Z) (d : disk)
    site d1 t1 :
  file_sizes_json d !! filename = None ->
  attempt s url filename retry_count d = (Raise (TimeoutError site), d1, t1) ->
  site = AtNetwork.
Proof.
  intros Hd. rewrite attempt_run.
  destruct (get s url retry_count) as [f|status cl body].
  { destruct f; intros [=]; congruence. }
  destruct (status =? 200); [|discriminate].
  assert (Hloop : forall ts,
            match read_loop filename ts body (initial_state (start_clock s url retry_count))
                    (set_video filename [] d) with
            | (Raise (TimeoutError site'), _, _) => site' = AtNetwork
            | _ => True
            end).
  { intros ts.
    destruct (read_loop _ _ _ _ _) as [[[u|[|site'| |]] d2] t2] eqn:E; try exact I.
    apply (read_loop_unknown ts body (start_clock s url retry_count)
             (set_video filename [] d)); [exact Hd|]. now rewrite E. }
  destruct cl as [| |n]; [|discriminate|];
    (destruct (open_error filename) as [e0|] eqn:Eo;
       [intros [= -> _ _]; now destruct (open_error_exn _ _ Eo)|]); cbn zeta;
    [specialize (Hloop 0)|specialize (Hloop n)];
    destruct (read_loop _ _ _ _ _) as [[[u|e] d2] t2]; try discriminate;
    intros [= -> _ _]; exact Hloop.
Qed.

End UnknownSize.

Lemma len_concat (chunks : list (list Byte.byte)) :
  len (concat chunks) = total_bytes chunks.
Proof.
  unfold len. induction chunks as [|c cs IH]; [reflexivity|].
  cbn [concat total_bytes fold_right]. rewrite length_app, Nat2Z.inj_add.
  now rewrite IH.
Qed.

(** C1. A run of [download_video] returns [True] or [False]. When it
    returns [True], its last attempt has written every chunk of the body it
    received, so that the output file holds their N bytes, and has appended
    the filename to the ledger right after the last write and the close of
    the file; no run puts the filename in the ledger otherwise. When no
    stall check can fire (no expected size on record), every body that
    reaches its end, sent for a plain file name, is such a download. For a
    name that cannot be opened (the empty name, [.], [..], a name with a
    NUL) the run returns [False] after its request, with nothing written
    and nothing marked. *)
Theorem ledger_marked_after_complete_write
    (s : session) (url filename : str) (d : disk) :
  (forall r d' t,
      download_video s url filename 0 d = (r, d', t) ->
      (r = Return (Some true) \/ r = Return (Some false))
      /\ (Mark filename ∈ t <-> r = Return (Some true))
      /\ (r = Return (Some true) ->
          exists k cl body t0,
            0 <= k < MAX_RETRIES
            /\ get s url k = Response 200 cl body
            /\ clean_body body = true
            /\ t = t0 ++ Open filename :: List.map (Write filename) (stream_chunks body)
                   ++ [Close filename; Mark filename]
            /\ Forall (fun e => is_mark e = false) t0
            /\ videos d' !! filename = Some (concat (stream_chunks body))
            /\ is_file_complete filename (total_bytes (stream_chunks body)) d' = true
            /\ downloaded_txt d'
               = Some (default [] (downloaded_txt d) ++ LF :: filename)))
  /\ (forall cl body,
         get s url 0 = Response 200 cl body ->
         cl <> BadHeader ->
         clean_body body = true ->
         file_sizes_json d !! filename = None ->
         plain_name filename ->
         total_bytes (stream_chunks body) < 2 ^ 1000 ->
         download_video s url filename 0 d
         = (Return (Some true),
            mark_as_downloaded filename
              (set_video filename (concat (stream_chunks body)) d),
            Sleep RATE_LIMIT_DELAY :: Get url :: Open filename
            :: List.map (Write filename) (stream_chunks body)
            ++ [Close filename; Mark filename]))
  /\ (forall cl body e,
         get s url 0 = Response 200 cl body ->
         cl <> BadHeader ->
         open_error filename = Some e ->
         download_video s url filename 0 d
         = (Return (Some false), d, [Sleep RATE_LIMIT_DELAY; Get url])).
Proof.
  split; [|split].
  - unfold download_video. intros r d' t H.
    apply download_video_rec_outcome in H; [|cbn; lia].
    destruct H as [(-> & k & cl & body & t0 & Hk & Hg & Hc & -> & Hm & Hv & Hl)
                  |(-> & Hm & Hl)].
    + split; [now left|]. split.
      * split; [reflexivity|]. intros _.
        rewrite !elem_of_app, !elem_of_cons, elem_of_app, !elem_of_cons. tauto.
      * intros _. exists k, cl, body, t0.
        assert (Hs : is_file_complete filename (total_bytes (stream_chunks body)) d'
                     = true).
        { unfold is_file_complete. rewrite Hv. apply Z.eqb_eq, len_concat. }
        unfold MAX_RETRIES in *. repeat split; auto; lia.
    + split; [now right|]. split; [|discriminate]. split; [|discriminate].
      intros Hin. rewrite Forall_forall in Hm. now apply Hm in Hin.
  - intros cl body Hg Hcl Hc Hd Hname Hb. unfold download_video.
    rewrite download_video_rec_step.
    destruct (attempt s url filename 0 d) as [[ra d1] t1] eqn:Ea.
    destruct (attempt_outcome _ _ _ _ _ _ _ _ Ea)
      as [(-> & cl' & body' & Hg' & _ & -> & ->)|(Hr & _)].
    + rewrite Hg in Hg'. injection Hg' as <- <-. reflexivity.
    + exfalso. apply Hr. rewrite attempt_run, Hg, (plain_name_opens _ Hname) in Ea.
      cbn [Z.eqb Pos.eqb] in Ea.
      pose proof (fun ts => read_loop_clean filename ts body
                    (start_clock s url 0) (set_video filename [] d) Hd Hc Hb) as Hloop.
      destruct cl as [| |n]; [specialize (Hloop 0)|congruence|specialize (Hloop n)];
        cbn zeta in Ea;
        destruct (read_loop _ _ _ _ _) as [[[[]|e] d2] t2];
        try discriminate Hloop; congruence.
  - intros cl body e Hg Hcl He. unfold download_video.
    rewrite download_video_rec_step, attempt_run, Hg, He.
    cbn [Z.eqb Pos.eqb].
    destruct cl as [| |n]; [|congruence|];
      now rewrite (open_error_not_retryable _ _ He).
Qed.

Lemma ledger_marked_after_complete_write_witness :
  (exists d' t,
      download_video
        (Examples.always (Response 200 (IntHeader 3) Examples.three_chunks))
        Examples.video_url Examples.video 0 Examples.empty_disk
      = (Return (Some true), d', t)
      /\ Mark Examples.video ∈ t
      /\ videos d' !! Examples.video = Some [Examples.x; Examples.x; Examples.x]
      /\ is_file_complete Examples.video 3 d' = true
      /\ downloaded_txt d' = Some (LF :: Examples.video))
  /\ download_video
       (Examples.always (Response 200 (IntHeader 3) Examples.three_chunks))
       Cases.slash_url [] 0 Examples.empty_disk
     = (Return (Some false), Examples.empty_disk, [Sleep 60; Get Cases.slash_url]).
Proof.
  split.
  - pose proof (ledger_marked_after_complete_write
                  (Examples.always (Response 200 (IntHeader 3) Examples.three_chunks))
                  Examples.video_url Examples.video Examples.empty_disk)
      as (Hrun & Hclean & _).
    assert (E := Hclean (IntHeader 3) Examples.three_chunks).
    specialize (E eq_refl). specialize (E ltac:(discriminate)).
    specialize (E eq_refl). specialize (E ltac:(vm_compute; reflexivity)).
    specialize (E ltac:(repeat split; apply (bool_decide_unpack _); vm_compute; exact I)).
    specialize (E ltac:(vm_compute; reflexivity)).
    destruct (Hrun _ _ _ E) as (_ & Hmark & Hdone).
    destruct (Hdone eq_refl)
      as (k & cl & body & t0 & Hk & Hg & Hc & Ht & Hm & Hv & Hs & Hl).
    cbn in Hg. injection Hg as <- <-.
    eexists _, _. split; [exact E|]. split; [now apply Hmark|].
    split; [exact Hv|]. split; [exact Hs|exact Hl].
  - apply (proj2 (proj2 (ledger_marked_after_complete_write
                           (Examples.always
                              (Response 200 (IntHeader 3) Examples.three_chunks))
                           Cases.slash_url [] Examples.empty_disk))
             (IntHeader 3) Examples.three_chunks OtherException).
    + reflexivity.
    + discriminate.
    + vm_compute. reflexivity.
Defined.

(** C2 (as amended). The speed monitor aborts the attempt on a chunk, with
    a timeout-class exception that the retry policy catches, exactly when
    the throughput sample taken on the chunk is low, the consecutive-stall
    counter thereby reaches 3 or more, and the expected size of the file is
    on record and above the bytes received. The counter is the one of the
    detector: each low sample and each stuck-progress signal counted on a
    file short of its expected size increments it, a healthy sample resets
    it. Three low samples in a row are enough for the counter: the third one
    aborts an attempt whose expected size is known and not reached. Without
    an expected size on record no stall aborts an attempt. *)
Theorem speed_stall_aborts_on_counter
    (filename : str) (total_size : Z) (d : disk) (start : Q) :
  (forall pre k b bs t1 t2,
      all_data pre = true ->
      stall_verdict (file_sizes_json d !! filename) start total_size (observations pre)
      = Passed k ->
      (fst (fst (read_loop filename total_size (pre ++ [Data (b :: bs) t1 t2])
                   (initial_state start) d))
       = Raise (TimeoutError AtSpeedCheck)
       <-> last_sample start (observations (pre ++ [Data (b :: bs) t1 t2])) = Some true
           /\ 3 <= k + 1
           /\ exists expected_size,
               file_sizes_json d !! filename = Some expected_size
               /\ total_bytes (stream_chunks pre) + len (b :: bs) < expected_size))
  /\ (forall pre k b bs t1 t2 expected_size,
         all_data pre = true ->
         stall_verdict (file_sizes_json d !! filename) start total_size
           (observations pre)
         = Passed k ->
         last_sample start (observations (pre ++ [Data (b :: bs) t1 t2])) = Some true ->
         (3 <= low_run (throughput_samples start 0
                          (observations (pre ++ [Data (b :: bs) t1 t2]))))%nat ->
         file_sizes_json d !! filename = Some expected_size ->
         total_bytes (stream_chunks pre) + len (b :: bs) < expected_size ->
         fst (fst (read_loop filename total_size (pre ++ [Data (b :: bs) t1 t2])
                     (initial_state start) d))
         = Raise (TimeoutError AtSpeedCheck))
  /\ (forall s url retry_count site d1 t1,
         file_sizes_json d !! filename = None ->
         attempt s url filename retry_count d = (Raise (TimeoutError site), d1, t1) ->
         site = AtNetwork)
  /\ retryable (TimeoutError AtSpeedCheck) = true.
Proof.
  assert (Hiff : forall pre k b bs t1 t2,
      all_data pre = true ->
      stall_verdict (file_sizes_json d !! filename) start total_size (observations pre)
      = Passed k ->
      (fst (fst (read_loop filename total_size (pre ++ [Data (b :: bs) t1 t2])
                   (initial_state start) d))
       = Raise (TimeoutError AtSpeedCheck)
       <-> last_sample start (observations (pre ++ [Data (b :: bs) t1 t2])) = Some true
           /\ 3 <= k + 1
           /\ exists expected_size,
               file_sizes_json d !! filename = Some expected_size
               /\ total_bytes (stream_chunks pre) + len (b :: bs) < expected_size)).
  { intros pre k b bs t1 t2 Hall Hk.
    rewrite read_loop_verdict, verdict_result_speed.
    rewrite (stall_verdict_snoc _ _ _ _ _ _ _ _ _ Hall Hk).
    now rewrite count_chunk_speed_stall, known_short_spec. }
  split; [exact Hiff|]. split; [|split; [|reflexivity]].
  - intros pre k b bs t1 t2 expected_size Hall Hk Hlast Hrun Hsize Hlt.
    apply (Hiff _ _ _ _ _ _ Hall Hk). split; [exact Hlast|]. split; [|eauto].
    unfold last_sample in Hlast. rewrite (observations_snoc _ _ _ _ _ Hall) in Hlast, Hrun.
    destruct (throughput_samples_snoc (observations pre) (len (b :: bs), t1, t2) start 0)
      as [s Es].
    rewrite Es in Hlast, Hrun. rewrite last_snoc in Hlast. cbn in Hlast.
    subst s. rewrite low_run_snoc in Hrun.
    pose proof (stall_counter_low_run _ _ _ _ _ _ _ _ _ _ 0%nat Hk ltac:(lia)) as Hlow.
    fold (low_run (throughput_samples start 0 (observations pre))) in Hlow. lia.
  - intros s url rc site d1 t1 Hd. now apply attempt_unknown_size.
Qed.

Lemma speed_stall_aborts_on_counter_witness :
  fst (fst (read_loop Examples.video 0 Examples.three_slow_chunks
              (initial_state (inject_Z 0)) Examples.sized_disk))
  = Raise (TimeoutError AtSpeedCheck)
  /\ throughput_samples (inject_Z 0) 0 (observations Examples.three_slow_chunks)
     = [Some true; Some true; Some true]
  /\ fst (fst (read_loop Examples.video 1000000000 Examples.two_slow_chunks
                 (initial_state (inject_Z 0)) Examples.sized_disk))
     = Raise (TimeoutError AtSpeedCheck)
  /\ (exists site,
        fst (fst (attempt (Examples.always (Response 200 NoHeader [ReadError TimedOut]))
                    Examples.video_url Examples.video 0 Examples.empty_disk))
        = Raise (TimeoutError site)
        /\ site = AtNetwork).
Proof.
  split; [|split; [|split]].
  - apply (proj1 (proj2 (speed_stall_aborts_on_counter Examples.video 0
                           Examples.sized_disk (inject_Z 0)))
             (take 2 Examples.three_slow_chunks) 2 Examples.x []
             (inject_Z 240) (inject_Z 240) 1000000000).
    + reflexivity.
    + vm_compute. reflexivity.
    + vm_compute. reflexivity.
    + vm_compute. lia.
    + vm_compute. reflexivity.
    + vm_compute. reflexivity.
  - vm_compute. reflexivity.
  - apply (proj1 (speed_stall_aborts_on_counter Examples.video 1000000000
                    Examples.sized_disk (inject_Z 0))
             (take 1 Examples.two_slow_chunks) 2 Examples.x []
             (inject_Z 1861) (inject_Z 1861)).
    + reflexivity.
    + vm_compute. reflexivity.
    + split; [vm_compute; reflexivity|]. split; [lia|].
      exists 1000000000. split; vm_compute; reflexivity.
  - destruct (attempt (Examples.always (Response 200 NoHeader [ReadError TimedOut]))
                Examples.video_url Examples.video 0 Examples.empty_disk)
      as [[r d1] t1] eqn:E.
    assert (Hr : r = Raise (TimeoutError AtNetwork)) by (vm_compute in E; congruence).
    subst r. exists AtNetwork. split; [reflexivity|].
    apply (proj1 (proj2 (proj2 (speed_stall_aborts_on_counter
                                  Examples.video 0 Examples.empty_disk (inject_Z 0))))
             _ _ _ _ _ _ ltac:(vm_compute; reflexivity) E).
Defined.

(** C2 (as stated) fails: an attempt on which only two throughput samples
    are taken, both low, is aborted by the speed monitor on the second one,
    because the stuck-progress signal of the first chunk has raised the
    shared counter in between. *)
Lemma speed_stall_after_two_samples :
  throughput_samples (inject_Z 0) 0 (observations Examples.two_slow_chunks)
  = [Some true; Some true]
  /\ progress_signals 1000000000 0 (inject_Z 0) 0 (observations Examples.two_slow_chunks)
     = [Stuck; Stuck]
  /\ fst (fst (attempt
                 (Examples.always
                    (Response 200 (IntHeader 1000000000) Examples.two_slow_chunks))
                 Examples.video_url Examples.video 0 Examples.sized_disk))
     = Raise (TimeoutError AtSpeedCheck).
Proof.
  split; [|split]; vm_compute; reflexivity.
Qed.

(** C7 (as amended). The counter that the loop keeps is the counter of the
    detector, which the stuck-progress signal feeds whether or not a
    throughput sample is taken on the chunk: a chunk that arrives while the
    content length is declared, the integer percentage has not increased
    and the last logged percentage is older than the chunk timeout
    increments the counter when the expected size of the file is on record
    and above the bytes received. The progress monitor aborts the attempt
    on a chunk, with the same timeout-class exception, exactly when the
    counter, after the throughput sample of the chunk, thereby reaches 3 or
    more. With no expected size on record the signal is ignored: the
    counter then counts the low samples alone and the progress monitor
    never aborts. *)
Theorem stuck_progress_feeds_counter
    (filename : str) (total_size : Z) (d : disk) (start : Q) :
  (forall pre m st,
      low_streak filename total_size d pre (initial_state start) 0 = Some (m, st) ->
      stall_verdict (file_sizes_json d !! filename) start total_size (observations pre)
      = Passed (stall_count st))
  /\ (forall pre k b bs t1 t2,
         all_data pre = true ->
         stall_verdict (file_sizes_json d !! filename) start total_size
           (observations pre)
         = Passed k ->
         (fst (fst (read_loop filename total_size (pre ++ [Data (b :: bs) t1 t2])
                      (initial_state start) d))
          = Raise (TimeoutError AtProgressCheck)
          <-> exists k1,
               count_sample (file_sizes_json d !! filename)
                 (total_bytes (stream_chunks pre) + len (b :: bs)) k
                 (last_sample start (observations (pre ++ [Data (b :: bs) t1 t2])))
               = Passed k1
               /\ last_signal start total_size
                    (observations (pre ++ [Data (b :: bs) t1 t2])) = Stuck
               /\ 3 <= k1 + 1
               /\ exists expected_size,
                   file_sizes_json d !! filename = Some expected_size
                   /\ total_bytes (stream_chunks pre) + len (b :: bs) < expected_size))
  /\ (file_sizes_json d !! filename = None ->
      (forall pre m st,
          low_streak filename total_size d pre (initial_state start) 0 = Some (m, st) ->
          stall_count st
          = Z.of_nat (low_run (throughput_samples start 0 (observations pre))))
      /\ (forall body,
             fst (fst (read_loop filename total_size body (initial_state start) d))
             <> Raise (TimeoutError AtProgressCheck)))
  /\ retryable (TimeoutError AtProgressCheck) = true.
Proof.
  split; [|split; [|split; [|reflexivity]]].
  - intros pre m st H.
    exact (low_streak_verdict_from filename total_size d pre _ _ _ _ _ _ _ _ _ _
             (tracks_initial start) H).
  - intros pre k b bs t1 t2 Hall Hk.
    rewrite read_loop_verdict, verdict_result_progress.
    rewrite (stall_verdict_snoc _ _ _ _ _ _ _ _ _ Hall Hk).
    rewrite count_chunk_progress_stall. split.
    + intros (c & Hc & Hg & H3 & Hs). exists c.
      apply known_short_spec in Hs. auto.
    + intros (c & Hc & Hg & H3 & Hs). exists c.
      apply known_short_spec in Hs. auto.
  - intros Hd. split.
    + intros pre m st H.
      pose proof (low_streak_verdict_from filename total_size d pre _ _ _ _ _ _ _ _ _ _
                    (tracks_initial start) H) as Hv.
      rewrite Hd in Hv.
      destruct (stall_counter_unknown total_size (observations pre) start 0 0 start 0 0
                  0%nat eq_refl) as [E|E]; cbn zeta in E; rewrite E in Hv.
      * discriminate.
      * now injection Hv as <-.
    + intros body H. apply read_loop_unknown in H; [discriminate|exact Hd].
Qed.

Lemma stuck_progress_feeds_counter_witness :
  fst (fst (read_loop Examples.video 1000 (take 2 Examples.slow_start)
              (initial_state (inject_Z 0)) Examples.thousand_disk))
  = Raise (TimeoutError AtProgressCheck)
  /\ throughput_samples (inject_Z 0) 0 (observations (take 2 Examples.slow_start))
     = [Some true; None]
  /\ stall_verdict (Some 1000) (inject_Z 0) 1000
       (observations (take 1 Examples.slow_start))
     = Passed 2
  /\ (exists m st,
        low_streak Examples.video 1000 Examples.empty_disk Examples.slow_start
          (initial_state (inject_Z 0)) 0
        = Some (m, st)
        /\ stall_count st = 1).
Proof.
  pose proof (stuck_progress_feeds_counter Examples.video 1000
                Examples.thousand_disk (inject_Z 0)) as (Hcount & Habort & _).
  split; [|split; [|split]].
  - apply (Habort (take 1 Examples.slow_start) 2 Examples.x []
             (inject_Z 1802) (inject_Z 1802)).
    + reflexivity.
    + vm_compute. reflexivity.
    + exists 2. split; [vm_compute; reflexivity|]. split; [vm_compute; reflexivity|].
      split; [lia|]. exists 1000. split; vm_compute; reflexivity.
  - vm_compute. reflexivity.
  - apply (Hcount (take 1 Examples.slow_start) 1%nat
             (AttemptState 1 (inject_Z 0) 2 (inject_Z 1801) 1 (inject_Z 0))).
    vm_compute. reflexivity.
  - destruct (low_streak Examples.video 1000 Examples.empty_disk Examples.slow_start
                (initial_state (inject_Z 0)) 0) as [[m st]|] eqn:E;
      [|vm_compute in E; discriminate].
    exists m, st. split; [reflexivity|].
    rewrite (proj1 (proj1 (proj2 (proj2 (stuck_progress_feeds_counter Examples.video
                                           1000 Examples.empty_disk (inject_Z 0))))
                      ltac:(vm_compute; reflexivity))
               Examples.slow_start m st E).
    vm_compute. reflexivity.
Defined.

(** With 28 percent logged on the first chunk, the 29th byte leaves the
    integer percentage where it is, so the second chunk, more than half an
    hour after the log, is a stuck-progress signal: with the two low samples
    before it, it aborts the attempt, before a third sample is taken. *)
Lemma rounded_percentage_stalls :
  progress_signals 100 0 (inject_Z 0) 0 (observations Examples.twenty_nine_percent)
  = [Logged; Stuck; Logged]
  /\ read_loop Examples.video 100 Examples.twenty_nine_percent
       (initial_state (inject_Z 0)) Examples.hundred_disk
     = (Raise (TimeoutError AtProgressCheck),
        set_video Examples.video (repeat Examples.x 29) Examples.hundred_disk,
        [Write Examples.video (repeat Examples.x 28);
         Write Examples.video [Examples.x]]).
Proof. split; vm_compute; reflexivity. Qed.

(** C7 (as stated) fails: with no expected size on record, a download
    whose first three chunks all come with the stuck-progress signal
    completes; the signals leave the counter to the throughput samples. *)
Lemma stuck_progress_ignored_without_size :
  progress_signals 1000 0 (inject_Z 0) 0 (observations Examples.slow_start)
  = [Stuck; Stuck; Stuck; Logged]
  /\ stall_verdict None (inject_Z 0) 1000 (observations Examples.slow_start)
     = Passed 1
  /\ fst (fst (attempt
                 (Examples.always (Response 200 (IntHeader 1000) Examples.slow_start))
                 Examples.video_url Examples.video 0 Examples.empty_disk))
     = Return true.
Proof.
  split; [|split]; vm_compute; reflexivity.
Qed.

(** ** Batch scheduler *)

Section Scheduler.

Lemma download_videos_schedule (limit : option Z) (d : disk) :
  download_videos limit d = schedule (new_video_urls limit d).
Proof.
  unfold download_videos, new_video_urls, schedule.
  destruct (List.filter _ (List.filter is_url _)) as [|u us]; [reflexivity|].
  destruct limit; reflexivity.
Qed.

Lemma flat_map_ext_in {A B} (f g : A -> list B) (l : list A) :
  (forall x, x ∈ l -> f x = g x) -> List.flat_map f l = List.flat_map g l.
Proof.
  induction l as [|a l IH]; intros H; [reflexivity|]. cbn.
  rewrite H by apply list_elem_of_here. rewrite IH; [reflexivity|].
  intros x Hx. apply H. now apply list_elem_of_further.
Qed.

Lemma range_step (n : Z) :
  0 < n ->
  range 0 (n + 2) 2 = 0 :: List.map (Z.add 2) (range 0 n 2).
Proof.
  intros Hn. unfold range.
  replace (Z.to_nat ((n + 2 - 0 + 2 - 1) / 2))
    with (S (Z.to_nat ((n - 0 + 2 - 1) / 2))).
  2:{ replace (n + 2 - 0 + 2 - 1) with ((n - 0 + 2 - 1) + 1 * 2) by lia.
      rewrite Z.div_add by lia.
      assert (0 <= (n - 0 + 2 - 1) / 2) by (apply Z.div_pos; lia). lia. }
  cbn [seq List.map]. f_equal.
  rewrite <- seq_shift, !List.map_map. apply List.map_ext. intros k. lia.
Qed.

Lemma range_nonneg (n i : Z) : i ∈ range 0 n 2 -> 0 <= i.
Proof.
  unfold range. rewrite list_elem_of_In, in_map_iff. intros (k & <- & _). lia.
Qed.

Lemma len_cons {A} (a : A) (l : list A) : len (a :: l) = len l + 1.
Proof. unfold len. cbn [length]. lia. Qed.

Lemma len_nonneg {A} (l : list A) : 0 <= len l.
Proof. unfold len. lia. Qed.

Lemma slice_shift {A} (a b : A) (l : list A) (i : Z) :
  0 <= i -> slice (2 + i) (2 + i + 2) (a :: b :: l) = slice i (i + 2) l.
Proof.
  intros Hi. unfold slice, slice_index. rewrite !len_cons.
  pose proof (len_nonneg l) as Hl.
  destruct (Z.ltb_spec (2 + i) 0); [lia|].
  destruct (Z.ltb_spec (2 + i + 2) 0); [lia|].
  destruct (Z.ltb_spec i 0); [lia|].
  destruct (Z.ltb_spec (i + 2) 0); [lia|].
  replace (Z.to_nat (Z.min (2 + i) (len l + 1 + 1)))
    with (S (S (Z.to_nat (Z.min i (len l))))) by lia.
  cbn [skipn]. f_equal. lia.
Qed.

Lemma groups_of_two_step (a b c : str) (l : list str) :
  groups_of_two (a :: b :: c :: l)
  = Gather [download_with_semaphore a; download_with_semaphore b]
    :: Pace RATE_LIMIT_DELAY :: groups_of_two (c :: l).
Proof. reflexivity. Qed.

(** The loop over [range] makes the groups of two, in order, with a
    pacing delay between two groups. *)
Lemma schedule_groups (video_urls : list str) :
  schedule video_urls = groups_of_two video_urls.
Proof.
  assert (H : forall n l, (length l <= n)%nat -> schedule l = groups_of_two l).
  { induction n as [|n IH]; intros l Hl.
    - destruct l; [reflexivity|cbn in Hl; lia].
    - destruct l as [|a [|b [|c l]]]; try reflexivity.
      rewrite groups_of_two_step. rewrite <- IH by (cbn in *; lia).
      unfold schedule.
      replace (len (a :: b :: c :: l)) with (len (c :: l) + 2)
        by (rewrite !len_cons; lia).
      rewrite range_step by (rewrite len_cons; pose proof (len_nonneg l); lia).
      cbn [List.flat_map]. unfold MAX_CONCURRENT_DOWNLOADS at 1 2.
      replace (slice 0 (0 + 2) (a :: b :: c :: l)) with [a; b].
      2:{ unfold slice, slice_index. rewrite !len_cons.
          pose proof (len_nonneg l).
          replace (Z.min 0 _) with 0 by lia. replace (Z.min (0 + 2) _) with 2 by lia.
          reflexivity. }
      destruct (Z.ltb_spec (0 + 2) (len (c :: l) + 2));
        [|rewrite len_cons in *; pose proof (len_nonneg l); lia].
      cbn [List.map app]. do 2 f_equal.
      rewrite flat_map_concat_map, List.map_map, <- flat_map_concat_map.
      apply flat_map_ext_in. intros i Hi. apply range_nonneg in Hi.
      unfold MAX_CONCURRENT_DOWNLOADS. rewrite slice_shift by exact Hi.
      do 2 f_equal.
      destruct (Z.ltb_spec (2 + i + 2) (len (c :: l) + 2));
        destruct (Z.ltb_spec (i + 2) (len (c :: l))); try reflexivity; lia. }
  apply (H (length video_urls)). auto.
Qed.

Lemma groups_of_two_induction (P : list str -> Prop) :
  P [] -> (forall a, P [a]) -> (forall a b, P [a; b]) ->
  (forall a b c l, P (c :: l) -> P (a :: b :: c :: l)) ->
  forall l, P l.
Proof.
  intros H0 H1 H2 H3.
  assert (H : forall n l, (length l <= n)%nat -> P l).
  { induction n as [|n IH]; intros l Hl.
    - destruct l; [exact H0|cbn in Hl; lia].
    - destruct l as [|a [|b [|c l]]]; auto. apply H3, IH. cbn in *. lia. }
  intros l. apply (H (length l)). auto.
Qed.

Lemma groups_workers (video_urls : list str) :
  workers (groups_of_two video_urls) = List.map download_with_semaphore video_urls.
Proof.
  induction video_urls as [| | |a b c l IH] using groups_of_two_induction;
    try reflexivity.
  rewrite groups_of_two_step. unfold workers in *. cbn [List.flat_map app].
  rewrite IH. reflexivity.
Qed.

Lemma groups_sizes (video_urls : list str) :
  Forall (fun k => (1 <= k <= 2)%nat) (group_sizes (groups_of_two video_urls)).
Proof.
  induction video_urls as [| | |a b c l IH] using groups_of_two_induction.
  - constructor.
  - repeat constructor.
  - repeat constructor.
  - rewrite groups_of_two_step. unfold group_sizes in *. cbn [omap].
    constructor; [cbn; lia|exact IH].
Qed.

Lemma pacing_delays_step ws n (acts : list sched_action) :
  pacing_delays (Gather ws :: Pace n :: acts) = n :: pacing_delays acts.
Proof. reflexivity. Qed.

Lemma groups_pacing (video_urls : list str) :
  pacing_delays (groups_of_two video_urls)
  = repeat RATE_LIMIT_DELAY (Nat.div2 (S (length video_urls)) - 1).
Proof.
  induction video_urls as [| | |a b c l IH] using groups_of_two_induction;
    try reflexivity.
  rewrite groups_of_two_step, pacing_delays_step, IH.
  change (length (a :: b :: c :: l)) with (S (S (length (c :: l)))).
  change (Nat.div2 (S (S (S (length (c :: l))))))
    with (S (Nat.div2 (S (length (c :: l))))).
  cbn [length Nat.div2 Nat.sub]. rewrite Nat.sub_0_r. reflexivity.
Qed.

End Scheduler.

Section Batches.

Variables (limit : option Z) (d : disk).

Lemma download_videos_workers :
  workers (download_videos limit d)
  = List.map download_with_semaphore (new_video_urls limit d).
Proof. now rewrite download_videos_schedule, schedule_groups, groups_workers. Qed.

Lemma slice_subset {A} (lo hi : Z) (l : list A) (x : A) :
  x ∈ slice lo hi l -> x ∈ l.
Proof.
  unfold slice. intros H.
  rewrite <- (firstn_skipn (Z.to_nat (slice_index (len l) lo)) l).
  apply elem_of_app. right.
  rewrite <- (firstn_skipn (Z.to_nat (slice_index (len l) hi - slice_index (len l) lo))
                (skipn _ l)).
  apply elem_of_app. now left.
Qed.

Lemma new_video_urls_filtered (url : str) :
  url ∈ new_video_urls limit d ->
  url ∈ stripped_lines (download_list_txt d)
  /\ is_url url = true
  /\ get_filename url ∉ get_downloaded_files d.
Proof.
  unfold new_video_urls.
  set (filtered := List.filter _ (List.filter is_url _)).
  intros H.
  assert (Hin : url ∈ filtered).
  { destruct filtered as [|u us] eqn:E; [exact H|].
    destruct limit; [now apply slice_subset in H|exact H]. }
  unfold filtered in Hin.
  rewrite list_elem_of_In, !filter_In in Hin. destruct Hin as [[H1 H2] H3].
  rewrite list_elem_of_In. split; [exact H1|]. split; [exact H2|].
  now apply bool_decide_eq_true in H3.
Qed.

End Batches.

(** C5. The workers of a batch get only urls of the work list that are
    url-shaped and whose filename, the last segment of the path, is not
    in the completed set read from the ledger when the batch starts; so no
    file of that set is downloaded again. Without a limit every such url of
    the work list gets a worker. *)
Theorem completed_files_are_not_downloaded_again (limit : option Z) (d : disk) :
  (forall url filename,
      (url, filename) ∈ workers (download_videos limit d) ->
      url ∈ stripped_lines (download_list_txt d)
      /\ is_url url = true
      /\ filename = List.last (split SLASH url) []
      /\ filename ∉ get_downloaded_files d)
  /\ (forall url,
         url ∈ stripped_lines (download_list_txt d) ->
         is_url url = true ->
         get_filename url ∉ get_downloaded_files d ->
         (url, get_filename url) ∈ workers (download_videos None d)).
Proof.
  split.
  - intros url filename. rewrite download_videos_workers, list_elem_of_In, in_map_iff.
    intros (u & [= <- <-] & Hu). apply list_elem_of_In in Hu.
    apply new_video_urls_filtered in Hu as (H1 & H2 & H3).
    split; [exact H1|]. split; [exact H2|]. split; [|exact H3].
    unfold get_filename, basename. now destruct (is_url u).
  - intros url H1 H2 H3. rewrite download_videos_workers, list_elem_of_In, in_map_iff.
    exists url. split; [reflexivity|].
    unfold new_video_urls.
    assert (Hin : In url
              (List.filter (fun url => bool_decide (get_filename url ∉ get_downloaded_files d))
                 (List.filter is_url (stripped_lines (download_list_txt d))))).
    { rewrite !filter_In. rewrite list_elem_of_In in H1.
      split; [split; [exact H1|exact H2]|]. now apply bool_decide_eq_true. }
    destruct (List.filter _ (List.filter is_url _)); [destruct Hin|exact Hin].
Qed.

Lemma completed_files_are_not_downloaded_again_witness :
  ((py "https://h/c.mp4", py "c.mp4")
   ∈ workers (download_videos None Examples.resumed_disk))
  /\ (py "c.mp4" ∉ get_downloaded_files Examples.resumed_disk)
  /\ ((py "http://h/a.mp4", py "a.mp4")
      ∉ workers (download_videos None Examples.resumed_disk)).
Proof.
  pose proof (completed_files_are_not_downloaded_again None Examples.resumed_disk)
    as [Honly Hall].
  assert (Hw : (py "https://h/c.mp4", py "c.mp4")
               ∈ workers (download_videos None Examples.resumed_disk)).
  { apply (Hall (py "https://h/c.mp4")).
    - apply (bool_decide_unpack _). vm_compute. exact I.
    - reflexivity.
    - apply (bool_decide_unpack _). vm_compute. exact I. }
  split; [exact Hw|]. split.
  - exact (proj2 (proj2 (proj2 (Honly _ _ Hw)))).
  - intros Ha. apply Honly in Ha as (_ & _ & _ & Hf).
    apply Hf. apply (bool_decide_unpack _). vm_compute. exact I.
Defined.

(** C6 (as amended). The scheduler makes groups of at most two workers, in
    the order of the list, each awaited before the next starts, and sleeps
    the pacing delay after a group only when another group follows: for
    [n > 0] urls that is [ceil(n / 2) - 1] delays. Five new urls make the
    groups of sizes 2, 2 and 1 with exactly two pacing delays. *)
Theorem five_urls_two_pacing_delays (limit : option Z) (d : disk) :
  (Forall (fun k => (1 <= k <= 2)%nat) (group_sizes (download_videos limit d))
   /\ workers (download_videos limit d)
      = List.map download_with_semaphore (new_video_urls limit d)
   /\ pacing_delays (download_videos limit d)
      = repeat RATE_LIMIT_DELAY (Nat.div2 (S (length (new_video_urls limit d))) - 1))
  /\ (forall u1 u2 u3 u4 u5,
         new_video_urls limit d = [u1; u2; u3; u4; u5] ->
         download_videos limit d
         = [Gather [download_with_semaphore u1; download_with_semaphore u2];
            Pace RATE_LIMIT_DELAY;
            Gather [download_with_semaphore u3; download_with_semaphore u4];
            Pace RATE_LIMIT_DELAY;
            Gather [download_with_semaphore u5]]
         /\ pacing_delays (download_videos limit d) = [RATE_LIMIT_DELAY; RATE_LIMIT_DELAY]).
Proof.
  rewrite download_videos_schedule, schedule_groups. split.
  - split; [apply groups_sizes|]. split; [apply groups_workers|apply groups_pacing].
  - intros u1 u2 u3 u4 u5 ->. split; reflexivity.
Qed.

Lemma five_urls_two_pacing_delays_witness :
  group_sizes (download_videos None Examples.five_disk) = [2; 2; 1]%nat
  /\ pacing_delays (download_videos None Examples.five_disk) = [60; 60].
Proof.
  destruct (proj2 (five_urls_two_pacing_delays None Examples.five_disk)
              (py "http://h/1") (py "http://h/2") (py "http://h/3")
              (py "http://h/4") (py "http://h/5"))
    as [Hs Hp].
  - vm_compute. reflexivity.
  - rewrite Hs. split; reflexivity.
Defined.

(** C6 (as stated) fails: for five new urls and groups of two the
    scheduler sleeps two pacing delays, not three. *)
Lemma five_urls_not_three_pacing_delays :
  length (new_video_urls None Examples.five_disk) = 5%nat
  /\ MAX_CONCURRENT_DOWNLOADS = 2
  /\ length (pacing_delays (download_videos None Examples.five_disk)) <> 3%nat.
Proof.
  split; [vm_compute; reflexivity|]. split; [reflexivity|].
  vm_compute. discriminate.
Qed.

(** * Further properties of the downloader *)

(** ** File names *)

Lemma split_pieces_no_sep sep (s : str) :
  Forall (fun p => sep ∉ p) (split sep s).
Proof.
  induction s as [|c r IH]; cbn [split].
  - constructor; [apply not_elem_of_nil|constructor].
  - destruct (N.eqb_spec c sep) as [->|Hne].
    + constructor; [apply not_elem_of_nil|exact IH].
    + destruct (split sep r) as [|p ps]; inversion IH; subst.
      * constructor; [|constructor]. rewrite elem_of_cons, elem_of_nil. intuition.
      * constructor; [|assumption]. rewrite elem_of_cons. intuition.
Qed.

Lemma last_elem_of {A} (l : list A) (d : A) : l <> [] -> List.last l d ∈ l.
Proof.
  induction l as [|a l IH]; [congruence|]. intros _.
  destruct l as [|b l]; [apply list_elem_of_here|].
  apply list_elem_of_further, IH. discriminate.
Qed.

Lemma last_app_nonempty {A} (l1 l2 : list A) (d : A) :
  l2 <> [] -> List.last (l1 ++ l2) d = List.last l2 d.
Proof.
  intros H. induction l1 as [|a l1 IH]; [reflexivity|].
  cbn [app]. rewrite <- IH. destruct (l1 ++ l2) eqn:E; [|reflexivity].
  apply app_eq_nil in E as [_ E]. congruence.
Qed.

Lemma last_split_app sep (a b : str) :
  List.last (split sep (a ++ sep :: b)) [] = List.last (split sep b) [].
Proof.
  rewrite split_app. apply last_app_nonempty, split_nonempty.
Qed.

(** X1. The filename derived from a path or url never contains a slash,
    so deriving a filename from it again changes nothing. *)
Theorem get_filename_has_no_slash (path : str) :
  (SLASH ∉ get_filename path)
  /\ get_filename (get_filename path) = get_filename path.
Proof.
  assert (H : SLASH ∉ List.last (split SLASH path) []).
  { pose proof (split_pieces_no_sep SLASH path) as Hall.
    rewrite Forall_forall in Hall. apply Hall, last_elem_of, split_nonempty. }
  assert (E : forall p, get_filename p = List.last (split SLASH p) []).
  { intros p. unfold get_filename, basename. now destruct (is_url p). }
  rewrite !E. split; [exact H|]. now rewrite (split_plain _ _ H).
Qed.

(** X2. The filename of a path is what follows its last slash: of
    [dir/name], with no slash in [name], it is [name] (the empty name when
    the path ends with a slash). *)
Theorem get_filename_after_last_slash (dir name : str) :
  SLASH ∉ name -> get_filename (dir ++ SLASH :: name) = name.
Proof.
  intros H.
  assert (E : forall p, get_filename p = List.last (split SLASH p) []).
  { intros p. unfold get_filename, basename. now destruct (is_url p). }
  now rewrite E, last_split_app, (split_plain _ _ H).
Qed.

Lemma get_filename_after_last_slash_witness :
  get_filename Cases.slash_url = []
  /\ get_filename Examples.video_url = Examples.video.
Proof.
  split.
  - apply (get_filename_after_last_slash (py "http://host/videos") []).
    apply not_elem_of_nil.
  - apply (get_filename_after_last_slash (py "http://host") Examples.video).
    apply (bool_decide_unpack _). vm_compute. exact I.
Defined.

(** ** What the ledger gives back *)

Lemma lstrip_head_nonspace (c : N) (r : str) :
  isspace c = false -> lstrip (c :: r) = c :: r.
Proof. intros H. cbn. now rewrite H. Qed.

Lemma lstrip_idemp (s : str) : lstrip (lstrip s) = lstrip s.
Proof.
  destruct (lstrip_all_space s) as [->|(c & r & -> & Hc)]; [reflexivity|].
  now apply lstrip_head_nonspace.
Qed.

Lemma rstrip_idemp (s : str) : rstrip (rstrip s) = rstrip s.
Proof. unfold rstrip. now rewrite rev_involutive, lstrip_idemp. Qed.

Lemma lstrip_rstrip_lstrip (s : str) : lstrip (rstrip (lstrip s)) = rstrip (lstrip s).
Proof.
  destruct (lstrip_all_space s) as [->|(c & r & -> & Hc)]; [reflexivity|].
  unfold rstrip. cbn [rev].
  destruct (lstrip_all_space (rev r)) as [E|(a & u & E & Ha)].
  - rewrite (lstrip_app_space _ _ E). cbn. rewrite Hc. cbn. now rewrite Hc.
  - rewrite (lstrip_app_nonspace _ [c] _ _ E), rev_app_distr. cbn [rev app].
    now apply lstrip_head_nonspace.
Qed.

Lemma strip_idemp (s : str) : strip (strip s) = strip s.
Proof. unfold strip. now rewrite lstrip_rstrip_lstrip, rstrip_idemp. Qed.

Lemma elem_of_lstrip (x : N) (s : str) : x ∈ lstrip s -> x ∈ s.
Proof.
  induction s as [|c r IH]; cbn; [auto|].
  destruct (isspace c); [|auto]. intros H. apply list_elem_of_further, IH, H.
Qed.

Lemma elem_of_strip (x : N) (s : str) : x ∈ strip s -> x ∈ s.
Proof.
  unfold strip, rstrip. intros H.
  apply list_elem_of_In, in_rev, list_elem_of_In, elem_of_lstrip in H.
  apply list_elem_of_In, in_rev, list_elem_of_In, elem_of_lstrip in H.
  exact H.
Qed.

Lemma translate_no_cr (s : str) pending : CR ∉ translate_newlines pending s.
Proof.
  revert pending. induction s as [|c r IH]; intros pending; cbn [translate_newlines].
  - apply not_elem_of_nil.
  - destruct (N.eqb_spec c CR) as [->|Hc].
    + apply not_elem_of_cons. split; [discriminate|apply IH].
    + destruct (N.eqb_spec c LF) as [->|Hl]; [destruct pending|].
      * apply IH.
      * apply not_elem_of_cons. split; [discriminate|apply IH].
      * apply not_elem_of_cons. split; [congruence|apply IH].
Qed.

Lemma elem_of_split_piece sep (s p : str) (x : N) :
  p ∈ split sep s -> x ∈ p -> x ∈ s.
Proof.
  revert p. induction s as [|c r IH]; intros p; cbn [split].
  - rewrite list_elem_of_singleton. now intros ->.
  - destruct (N.eqb_spec c sep) as [->|Hne].
    + rewrite elem_of_cons. intros [->|Hp] Hx.
      * now apply elem_of_nil in Hx.
      * apply list_elem_of_further. eauto.
    + destruct (split sep r) as [|q qs] eqn:E.
      * rewrite list_elem_of_singleton. intros -> Hx.
        apply list_elem_of_singleton in Hx as ->. apply list_elem_of_here.
      * rewrite elem_of_cons. intros [->|Hp] Hx.
        -- apply elem_of_cons in Hx as [->|Hx]; [apply list_elem_of_here|].
           apply list_elem_of_further. apply (IH q); [apply list_elem_of_here|exact Hx].
        -- apply list_elem_of_further. apply (IH p); [|exact Hx].
           now apply list_elem_of_further.
Qed.

(** The names on the lines of a text. *)
Lemma stripped_lines_names (text name : str) :
  name ∈ stripped_lines text -> ledger_name name.
Proof.
  rewrite stripped_lines_pieces, list_elem_of_In, filter_In, in_map_iff.
  intros [(p & <- & Hp) Ht]. apply list_elem_of_In in Hp.
  split; [now destruct (strip p)|]. split; [apply strip_idemp|]. split.
  - intros H. apply elem_of_strip in H.
    pose proof (split_pieces_no_sep LF (translate_newlines false text)) as Hall.
    rewrite Forall_forall in Hall. exact (Hall _ Hp H).
  - intros H. apply elem_of_strip in H.
    apply (translate_no_cr text false). exact (elem_of_split_piece _ _ _ _ Hp H).
Qed.

Lemma completed_ledger_name (d : disk) (filename : str) :
  filename ∈ get_downloaded_files d -> ledger_name filename.
Proof.
  unfold get_downloaded_files. destruct (downloaded_txt d) as [text|].
  - rewrite elem_of_list_to_set. apply stripped_lines_names.
  - intros H. now apply not_elem_of_empty in H.
Qed.

(** X3. Every filename in the completed set is non-empty, has no whitespace
    around it and holds no line terminator, whatever the ledger file
    holds; so an empty filename, or one with a blank before or after it,
    is never found completed. *)
Theorem completed_names_are_stripped (d : disk) (filename : str) :
  filename ∈ get_downloaded_files d ->
  filename <> [] /\ strip filename = filename
  /\ (LF ∉ filename) /\ (CR ∉ filename).
Proof. apply completed_ledger_name. Qed.

Lemma completed_names_are_stripped_witness :
  strip (py "a.mp4") = py "a.mp4".
Proof.
  refine (proj1 (proj2 (completed_names_are_stripped Examples.resumed_disk (py "a.mp4") _))).
  apply (bool_decide_unpack _). vm_compute. exact I.
Defined.

(** X4. Marking a file never removes a name from the completed set, and
    the set after two marks does not depend on their order: it is the set
    before with the stripped, non-empty lines of the two filenames. *)
Theorem marks_grow_the_set_in_any_order (a b : str) (d : disk) :
  get_downloaded_files d ⊆ get_downloaded_files (mark_as_downloaded a d)
  /\ get_downloaded_files (mark_as_downloaded a (mark_as_downloaded b d))
     = get_downloaded_files (mark_as_downloaded b (mark_as_downloaded a d))
  /\ get_downloaded_files (mark_as_downloaded a (mark_as_downloaded b d))
     = get_downloaded_files d
       ∪ list_to_set (stripped_lines a) ∪ list_to_set (stripped_lines b).
Proof.
  rewrite !get_downloaded_files_mark. split; [apply union_subseteq_l|].
  split.
  - rewrite <- !(assoc_L (∪)). f_equal. apply (comm_L (∪)).
  - rewrite <- !(assoc_L (∪)). f_equal. apply (comm_L (∪)).
Qed.

(** ** More on the batch scheduler *)

Lemma new_video_urls_unlimited (d : disk) :
  new_video_urls None d
  = List.filter (fun url => bool_decide (get_filename url ∉ get_downloaded_files d))
      (List.filter is_url (stripped_lines (download_list_txt d))).
Proof. unfold new_video_urls. now destruct (List.filter _ (List.filter is_url _)). Qed.

Lemma new_url_gets_worker (d : disk) (url : str) :
  url ∈ stripped_lines (download_list_txt d) ->
  is_url url = true ->
  get_filename url ∉ get_downloaded_files d ->
  (url, get_filename url) ∈ workers (download_videos None d).
Proof.
  intros H1 H2 H3.
  rewrite download_videos_workers, new_video_urls_unlimited, list_elem_of_In, in_map_iff.
  exists url. split; [reflexivity|]. rewrite !filter_In. rewrite list_elem_of_In in H1.
  split; [split; [exact H1|exact H2]|]. now apply bool_decide_eq_true.
Qed.

(** X5. A url of the work list whose filename the ledger cannot give back
    (it is empty, as for a url that ends with a slash, or has a blank
    around it or a line terminator in it) gets a worker in every batch
    without a limit, whatever the ledger holds. *)
Theorem unlisted_names_are_always_scheduled (d : disk) (url : str) :
  url ∈ stripped_lines (download_list_txt d) ->
  is_url url = true ->
  ~ ledger_name (get_filename url) ->
  (url, get_filename url) ∈ workers (download_videos None d).
Proof.
  intros H1 H2 H3. apply new_url_gets_worker; [exact H1|exact H2|].
  intros H. apply H3. exact (completed_ledger_name _ _ H).
Qed.

Lemma unlisted_names_are_always_scheduled_witness :
  (Cases.slash_url, []) ∈ workers (download_videos None Cases.slash_disk).
Proof.
  apply (unlisted_names_are_always_scheduled Cases.slash_disk Cases.slash_url).
  - apply (bool_decide_unpack _). vm_compute. exact I.
  - reflexivity.
  - intros [H _]. apply H. reflexivity.
Defined.

Lemma new_video_urls_limit (n : Z) (d : disk) :
  new_video_urls (Some n) d
  = firstn (Z.to_nat (if n <? 0 then len (new_video_urls None d) + n else n))
      (new_video_urls None d).
Proof.
  rewrite new_video_urls_unlimited. unfold new_video_urls.
  destruct (List.filter _ (List.filter is_url _)) as [|u us] eqn:E.
  - now rewrite firstn_nil.
  - set (l := u :: us). unfold slice, slice_index. pose proof (len_nonneg l) as Hl.
    cbn [Z.ltb Z.compare]. replace (Z.min 0 (len l)) with 0 by lia.
    cbn [Z.to_nat skipn]. rewrite Z.sub_0_r.
    destruct (Z.ltb_spec n 0).
    + f_equal. lia.
    + destruct (Z.le_gt_cases n (len l)).
      * f_equal. lia.
      * replace (Z.min n (len l)) with (len l) by lia.
        unfold len. rewrite Nat2Z.id, firstn_all.
        rewrite firstn_all2; [reflexivity|]. unfold len in *. lia.
Qed.

(** X12. A limit only truncates the batch: the workers of a limited batch
    are the first [limit] workers of the unlimited one, in the same order
    (all of them when the limit is larger), none for a limit of 0; a
    negative limit drops that many workers from the end. *)
Theorem limit_takes_a_prefix (n : Z) (d : disk) :
  workers (download_videos (Some n) d)
  = firstn (Z.to_nat (if n <? 0 then len (workers (download_videos None d)) + n else n))
      (workers (download_videos None d))
  /\ download_videos (Some 0) d = [].
Proof.
  split.
  - rewrite !download_videos_workers, new_video_urls_limit, firstn_map.
    unfold len. now rewrite length_map.
  - now rewrite download_videos_schedule, schedule_groups, new_video_urls_limit.
Qed.

Lemma occurrences_filter (P : str -> bool) (url : str) (l : list str) :
  P url = true -> occurrences url (List.filter P l) = occurrences url l.
Proof.
  intros HP. unfold occurrences. induction l as [|u l IH]; [reflexivity|].
  cbn [List.filter]. destruct (decide (u = url)) as [->|Hne].
  - rewrite HP. cbn [List.filter]. rewrite bool_decide_eq_true_2 by reflexivity.
    cbn [length]. now rewrite IH.
  - rewrite (bool_decide_eq_false_2 _ Hne).
    destruct (P u); [cbn [List.filter]; rewrite (bool_decide_eq_false_2 _ Hne)|];
      exact IH.
Qed.

(** X13. The scheduler does not remove duplicates: a new url gets as many
    workers in a batch without a limit as the work list has lines with
    it. *)
Theorem duplicate_urls_get_duplicate_workers (d : disk) (url : str) :
  is_url url = true ->
  get_filename url ∉ get_downloaded_files d ->
  occurrences url (List.map fst (workers (download_videos None d)))
  = occurrences url (stripped_lines (download_list_txt d)).
Proof.
  intros H1 H2.
  rewrite download_videos_workers, new_video_urls_unlimited, List.map_map.
  cbn [download_with_semaphore fst]. rewrite List.map_id.
  rewrite !occurrences_filter; [reflexivity|exact H1|now apply bool_decide_eq_true].
Qed.

Lemma duplicate_urls_get_duplicate_workers_witness :
  occurrences (py "http://h/a.mp4")
    (List.map fst (workers (download_videos None Cases.twice_disk))) = 2%nat.
Proof.
  rewrite (duplicate_urls_get_duplicate_workers Cases.twice_disk (py "http://h/a.mp4")).
  - vm_compute. reflexivity.
  - reflexivity.
  - apply (bool_decide_unpack _). vm_compute. exact I.
Defined.

(** ** More on the download worker *)

Section Frame.

Variables (s : session) (url filename : str).

Lemma same_but_video_refl (d : disk) : same_but_video filename d d.
Proof. repeat split. Qed.

Lemma same_but_video_trans (d1 d2 d3 : disk) :
  same_but_video filename d1 d2 -> same_but_video filename d2 d3 ->
  same_but_video filename d1 d3.
Proof.
  intros (A1 & A2 & A3) (B1 & B2 & B3). repeat split; try congruence.
  intros g Hg. now rewrite B3, A3.
Qed.

Lemma same_but_video_set (d : disk) content :
  same_but_video filename d (set_video filename content d).
Proof.
  repeat split. intros g Hg. cbn. now apply lookup_insert_ne.
Qed.

Lemma same_but_video_mark (d : disk) :
  same_but_video filename d (mark_as_downloaded filename d).
Proof. repeat split. Qed.

Lemma effect_of_writes (l : list (list Byte.byte)) :
  Forall (effect_of url filename) (List.map (Write filename) l).
Proof. induction l; cbn; constructor; auto. reflexivity. Qed.

Lemma effect_of_first_delay (retry_count : Z) :
  Forall (effect_of url filename) (first_attempt_delay retry_count).
Proof.
  unfold first_attempt_delay. destruct (retry_count =? 0); repeat constructor.
Qed.

(** What one attempt does to the disk and to the outside. *)
Lemma attempt_frame (retry_count : Z) (d : disk) r d1 t1 :
  attempt s url filename retry_count d = (r, d1, t1) ->
  same_but_video filename d d1 /\ Forall (effect_of url filename) t1.
Proof.
  rewrite attempt_run.
  assert (Hpre : forall tl, Forall (effect_of url filename) tl ->
            Forall (effect_of url filename)
              (first_attempt_delay retry_count ++ Get url :: tl)).
  { intros tl H. apply Forall_app. split; [apply effect_of_first_delay|].
    constructor; [reflexivity|exact H]. }
  destruct (get s url retry_count) as [f|status cl body].
  { intros [= <- <- <-]. split; [apply same_but_video_refl|].
    apply Hpre. constructor. }
  destruct (status =? 200);
    [|intros [= <- <- <-]; split; [apply same_but_video_refl|apply Hpre; constructor]].
  assert (Hloop : forall ts r' d' t',
            read_loop filename ts body (initial_state (start_clock s url retry_count))
              (set_video filename [] d) = (r', d', t') ->
            same_but_video filename d d'
            /\ forall tl, Forall (effect_of url filename) tl ->
                 Forall (effect_of url filename) (Open filename :: t' ++ tl)).
  { intros ts r' d' t' E.
    apply (read_loop_writes _ _ _ _ _ _ _ _ _ (videos_set_video _ _ _)) in E
      as (k & _ & -> & -> & _).
    rewrite set_video_twice. split; [apply same_but_video_set|].
    intros tl Htl. constructor; [reflexivity|].
    apply Forall_app. split; [apply effect_of_writes|exact Htl]. }
  destruct cl as [| |n];
    [|intros [= <- <- <-]; split; [apply same_but_video_refl|apply Hpre; constructor]|];
    (destruct (open_error filename) as [e0|];
       [intros [= <- <- <-]; split; [apply same_but_video_refl|apply Hpre; constructor]|]);
    cbn zeta.
  - destruct (read_loop _ _ _ _ _) as [[[u|e] d'] t'] eqn:E;
      destruct (Hloop _ _ _ _ E) as [Hd Ht]; intros [= <- <- <-].
    + split; [|apply Hpre, Ht; repeat constructor].
      eapply same_but_video_trans; [exact Hd|apply same_but_video_mark].
    + split; [exact Hd|apply Hpre, Ht; repeat constructor].
  - destruct (read_loop _ _ _ _ _) as [[[u|e] d'] t'] eqn:E;
      destruct (Hloop _ _ _ _ E) as [Hd Ht]; intros [= <- <- <-].
    + split; [|apply Hpre, Ht; repeat constructor].
      eapply same_but_video_trans; [exact Hd|apply same_but_video_mark].
    + split; [exact Hd|apply Hpre, Ht; repeat constructor].
Qed.

Lemma download_video_rec_frame (fuel : nat) :
  forall retry_count d r d' t,
    download_video_rec fuel s url filename retry_count d = (r, d', t) ->
    same_but_video filename d d' /\ Forall (effect_of url filename) t.
Proof.
  induction fuel as [|fuel IH]; intros rc d r d' t.
  - intros [= <- <- <-]. split; [apply same_but_video_refl|constructor].
  - rewrite download_video_rec_step.
    destruct (attempt s url filename rc d) as [[[b|e] d1] t1] eqn:Ea;
      destruct (attempt_frame _ _ _ _ _ Ea) as [Hd Ht].
    + intros [= <- <- <-]. auto.
    + destruct (retryable e && (rc <? MAX_RETRIES - 1)); [|intros [= <- <- <-]; auto].
      destruct (download_video_rec fuel s url filename (rc + 1) d1)
        as [[r2 d2] t2] eqn:E2.
      intros [= <- <- <-]. destruct (IH _ _ _ _ _ E2) as [Hd2 Ht2]. split.
      * eapply same_but_video_trans; eassumption.
      * apply Forall_app. split; [exact Ht|]. constructor; [exact I|exact Ht2].
Qed.

End Frame.

(** X6. A run of [download_video], whatever the server does and however
    many attempts it takes, leaves the work list, the size map and every
    other video file as they were, leaves the ledger as it was or with the
    filename appended, and requests only its url and operates only on its
    file. *)
Theorem download_video_touches_only_its_file
    (s : session) (url filename : str) (retry_count : Z) (d : disk) r d' t :
  download_video s url filename retry_count d = (r, d', t) ->
  download_list_txt d' = download_list_txt d
  /\ file_sizes_json d' = file_sizes_json d
  /\ (forall other, other <> filename -> videos d' !! other = videos d !! other)
  /\ (downloaded_txt d' = downloaded_txt d
      \/ downloaded_txt d' = Some (default [] (downloaded_txt d) ++ LF :: filename))
  /\ Forall (effect_of url filename) t.
Proof.
  unfold download_video. intros H.
  destruct (download_video_rec_frame _ _ _ _ _ _ _ _ _ H) as [(H1 & H2 & H3) Ht].
  apply download_video_rec_outcome in H; [|unfold MAX_RETRIES; lia].
  repeat split; auto.
  destruct H as [(_ & k & cl & body & t0 & _ & _ & _ & _ & _ & _ & Hl)|(_ & _ & Hl)];
    auto.
Qed.

Lemma download_video_touches_only_its_file_witness :
  videos (snd (fst (download_video
                      (Examples.always (Response 200 (IntHeader 3) Examples.three_chunks))
                      Examples.video_url Examples.video 0 Cases.other_video_disk)))
    !! py "other.mp4"
  = Some [Examples.x].
Proof.
  destruct (download_video
              (Examples.always (Response 200 (IntHeader 3) Examples.three_chunks))
              Examples.video_url Examples.video 0 Cases.other_video_disk)
    as [[r d'] t] eqn:E.
  destruct (download_video_touches_only_its_file _ _ _ _ _ _ _ _ E)
    as (_ & _ & Hv & _).
  cbn [fst snd]. rewrite Hv; [reflexivity|]. vm_compute. discriminate.
Defined.

Lemma download_videos_reads (limit : option Z) (d1 d2 : disk) :
  downloaded_txt d1 = downloaded_txt d2 ->
  download_list_txt d1 = download_list_txt d2 ->
  download_videos limit d1 = download_videos limit d2.
Proof.
  intros H1 H2. unfold download_videos, get_downloaded_files. now rewrite H1, H2.
Qed.

Lemma get_downloaded_files_appended (d d' : disk) (filename : str) :
  downloaded_txt d' = Some (default [] (downloaded_txt d) ++ LF :: filename) ->
  ledger_name filename ->
  filename ∈ get_downloaded_files d'.
Proof.
  intros Hl (Hne & Hs & HL & HC).
  replace (get_downloaded_files d')
    with (get_downloaded_files (mark_as_downloaded filename d))
    by (unfold get_downloaded_files; now rewrite Hl).
  rewrite get_downloaded_files_mark, stripped_lines_single, Hs by assumption.
  destruct filename as [|c r]; [congruence|].
  apply elem_of_union_r. cbn. apply elem_of_union_l. now apply elem_of_singleton.
Qed.

(** X7. Resumption. After [download_video] has returned [True] for a
    filename that the ledger can give back, no later batch has a worker for
    a url with that filename; after it has returned [False], a later batch
    makes the schedule it would have made before. *)
Theorem next_batch_resumes
    (s : session) (url filename : str) (d : disk) r d' t (limit : option Z) :
  download_video s url filename 0 d = (r, d', t) ->
  (r = Return (Some true) ->
   filename <> [] -> strip filename = filename ->
   LF ∉ filename -> CR ∉ filename ->
   forall other_url, (other_url, filename) ∉ workers (download_videos limit d'))
  /\ (r = Return (Some false) ->
      download_videos limit d' = download_videos limit d).
Proof.
  intros H.
  destruct (download_video_rec_frame _ _ _ _ _ _ _ _ _ H) as [(Hlist & _ & _) _].
  apply download_video_rec_outcome in H; [|unfold MAX_RETRIES; lia].
  destruct H as [(-> & k & cl & body & t0 & _ & _ & _ & _ & _ & _ & Hl)|(-> & _ & Hl)].
  - split; [|discriminate]. intros _ Hne Hs HL HC u Hin.
    rewrite download_videos_workers, list_elem_of_In, in_map_iff in Hin.
    destruct Hin as (u' & [= -> Hf] & Hu). apply list_elem_of_In in Hu.
    apply new_video_urls_filtered in Hu as (_ & _ & Hnot). apply Hnot.
    rewrite Hf. apply (get_downloaded_files_appended d); [exact Hl|].
    repeat split; assumption.
  - split; [discriminate|]. intros _. now apply download_videos_reads.
Qed.

Lemma next_batch_resumes_witness :
  (py "http://h/a.mp4", py "a.mp4")
  ∉ workers (download_videos None
               (snd (fst (download_video
                            (Examples.always
                               (Response 200 (IntHeader 3) Examples.three_chunks))
                            (py "http://h/a.mp4") (py "a.mp4") 0 Cases.twice_disk)))).
Proof.
  destruct (download_video
              (Examples.always (Response 200 (IntHeader 3) Examples.three_chunks))
              (py "http://h/a.mp4") (py "a.mp4") 0 Cases.twice_disk)
    as [[r d'] t] eqn:E.
  assert (Hr : r = Return (Some true)) by (vm_compute in E; congruence).
  cbn [fst snd].
  apply (proj1 (next_batch_resumes _ _ _ _ _ _ _ None E) Hr).
  - discriminate.
  - vm_compute. reflexivity.
  - apply (bool_decide_unpack _). vm_compute. exact I.
  - apply (bool_decide_unpack _). vm_compute. exact I.
Defined.

Lemma download_video_no_retry
    (s : session) (url filename : str) (retry_count : Z) (d : disk) e d1 t1 :
  attempt s url filename retry_count d = (Raise e, d1, t1) ->
  retryable e = false ->
  download_video s url filename retry_count d = (Return (Some false), d1, t1).
Proof.
  intros Ha He. unfold download_video. now rewrite download_video_rec_step, Ha, He.
Qed.

(** X8. Errors that are neither a client error nor a timeout are not
    retried: on a 200 response whose content length is not a number, or on
    an unexpected exception of the request, [download_video] returns
    [False] after the one request, without a backoff sleep and without
    touching the disk; an unexpected exception while the body is read ends
    the run the same way, the file being left as the attempt wrote it. *)
Theorem unexpected_errors_are_not_retried
    (s : session) (url filename : str) (retry_count : Z) (d : disk) :
  (forall body,
      get s url retry_count = Response 200 BadHeader body ->
      download_video s url filename retry_count d
      = (Return (Some false), d, first_attempt_delay retry_count ++ [Get url]))
  /\ (get s url retry_count = GetError Unexpected ->
      download_video s url filename retry_count d
      = (Return (Some false), d, first_attempt_delay retry_count ++ [Get url]))
  /\ (forall e d1 t1,
         attempt s url filename retry_count d = (Raise e, d1, t1) ->
         e = ValueError \/ e = OtherException ->
         download_video s url filename retry_count d = (Return (Some false), d1, t1)).
Proof.
  split; [|split].
  - intros body Hg. apply (download_video_no_retry _ _ _ _ _ ValueError); [|reflexivity].
    now rewrite attempt_run, Hg.
  - intros Hg. apply (download_video_no_retry _ _ _ _ _ OtherException); [|reflexivity].
    now rewrite attempt_run, Hg.
  - intros e d1 t1 Ha [-> | ->]; now apply (download_video_no_retry _ _ _ _ _ _ _ _ Ha).
Qed.

Lemma unexpected_errors_are_not_retried_witness :
  download_video (Examples.always (Response 200 BadHeader Examples.three_chunks))
    Examples.video_url Examples.video 0 Examples.empty_disk
  = (Return (Some false), Examples.empty_disk, [Sleep 60; Get Examples.video_url])
  /\ download_video (Examples.always (GetError Unexpected))
       Examples.video_url Examples.video 0 Examples.empty_disk
     = (Return (Some false), Examples.empty_disk, [Sleep 60; Get Examples.video_url])
  /\ download_video (Examples.always (Response 200 NoHeader [ReadError Unexpected]))
       Examples.video_url Examples.video 0 Examples.empty_disk
     = (Return (Some false), set_video Examples.video [] Examples.empty_disk,
        [Sleep 60; Get Examples.video_url; Open Examples.video; Close Examples.video]).
Proof.
  split; [|split].
  - apply (proj1 (unexpected_errors_are_not_retried
                    (Examples.always (Response 200 BadHeader Examples.three_chunks))
                    Examples.video_url Examples.video 0 Examples.empty_disk)
             Examples.three_chunks).
    reflexivity.
  - apply (proj1 (proj2 (unexpected_errors_are_not_retried
                    (Examples.always (GetError Unexpected))
                    Examples.video_url Examples.video 0 Examples.empty_disk))).
    reflexivity.
  - apply (proj2 (proj2 (unexpected_errors_are_not_retried
                    (Examples.always (Response 200 NoHeader [ReadError Unexpected]))
                    Examples.video_url Examples.video 0 Examples.empty_disk))
             OtherException).
    + vm_compute. reflexivity.
    + right. reflexivity.
Defined.

(** X9. One run of [download_video] sleeps at most
    [RATE_LIMIT_DELAY + RETRY_DELAY * (2 ^ (MAX_RETRIES - 1) - 1)], that is
    4560 seconds, in all, and exactly that long when every attempt fails
    with a connection error or a timeout. *)
Theorem total_sleep_is_bounded (s : session) (url filename : str) (d : disk) :
  total_sleep (snd (download_video s url filename 0 d))
  <= RATE_LIMIT_DELAY + RETRY_DELAY * (2 ^ (MAX_RETRIES - 1) - 1)
  /\ (always_fails s url filename ->
      total_sleep (snd (download_video s url filename 0 d)) = 4560).
Proof.
  destruct (download_video_rec_backoff s url filename
              (Z.to_nat (MAX_RETRIES - 1 - 0)) 0 d)
    as (b & d' & t & n & E & Hn & Ha & Hs & Hall & _); [lia|reflexivity|].
  unfold download_video. rewrite E. cbn [snd]. unfold total_sleep. rewrite Hs.
  change (Z.to_nat (MAX_RETRIES - 1 - 0)) with 4%nat in *.
  split.
  - destruct n as [|[|[|[|[|[|n]]]]]]; try lia; vm_compute; discriminate.
  - intros Hf. destruct (Hall Hf) as [_ ->]. reflexivity.
Qed.

Lemma total_sleep_is_bounded_witness :
  total_sleep (snd (download_video (Examples.always (GetError TimedOut))
                      Examples.video_url Examples.video 0 Examples.empty_disk))
  = 4560.
Proof.
  apply (proj2 (total_sleep_is_bounded (Examples.always (GetError TimedOut))
                  Examples.video_url Examples.video Examples.empty_disk)).
  intros k dk Hk. rewrite attempt_run. cbn. eauto.
Defined.

(** ** More on stall detection *)

Section MoreStalls.

Variables (filename : str) (total_size : Z).

Lemma speed_monitor_downloaded (d : disk) t st st' :
  fst (fst (speed_monitor filename t st d)) = Return st' ->
  downloaded st' = downloaded st.
Proof.
  rewrite speed_monitor_run. cbn [fst].
  destruct (sample t st) as [[|]|].
  - destruct ((stall_count st + 1 >=? 3) && stalled_short _ _ _); [discriminate|].
    now intros [= <-].
  - now intros [= <-].
  - now intros [= <-].
Qed.

Lemma progress_monitor_downloaded (d : disk) t st st' :
  fst (fst (progress_monitor filename total_size t st d)) = Return st' ->
  downloaded st' = downloaded st.
Proof.
  rewrite progress_monitor_run. cbn [fst].
  destruct (total_size >? 0); [|now intros [= <-]].
  destruct (percentage _ _) as [progress|]; [|discriminate].
  destruct (int_of_float _ >? int_of_float _); [now intros [= <-]|].
  destruct (Qlt_bool _ _ && stalled_short _ _ _); [|now intros [= <-]].
  destruct (stall_count st + 1 >=? 3); [discriminate|now intros [= <-]].
Qed.

(** When a stall check of a monitor raises, the expected size is on
    record and above the bytes downloaded; a monitor raises otherwise only
    for a percentage that is no float. *)
Lemma monitors_raise (d : disk) t1 t2 st e :
  fst (fst (monitors filename total_size t1 t2 st d)) = Raise e ->
  e = OtherException
  \/ ((e = TimeoutError AtSpeedCheck \/ e = TimeoutError AtProgressCheck)
      /\ stalled_short (get_expected_sizes d) filename (downloaded st) = true).
Proof.
  rewrite monitors_run.
  destruct (speed_monitor filename t1 st d) as [[[st1|e1] d1] tr1] eqn:E1.
  - cbn [fst]. intros E2.
    assert (Hd : downloaded st1 = downloaded st).
    { apply (speed_monitor_downloaded d t1). now rewrite E1. }
    revert E2. rewrite progress_monitor_run. cbn [fst].
    destruct (total_size >? 0); [|discriminate].
    destruct (percentage _ _) as [progress|]; [|intros [= <-]; now left].
    destruct (int_of_float _ >? int_of_float _); [discriminate|].
    destruct (Qlt_bool _ _); [|discriminate]. cbn [andb].
    destruct (stalled_short _ _ (downloaded st1)) eqn:Hs; [|discriminate].
    destruct (stall_count st1 + 1 >=? 3); [|discriminate].
    intros [= <-]. rewrite <- Hd. auto.
  - cbn [fst]. intros [= <-].
    assert (Hr : fst (fst (speed_monitor filename t1 st d)) = Raise e1) by now rewrite E1.
    apply speed_monitor_raises in Hr as (-> & _ & _ & Hs). auto.
Qed.

Lemma monitors_downloaded (d : disk) t1 t2 st st' :
  fst (fst (monitors filename total_size t1 t2 st d)) = Return st' ->
  downloaded st' = downloaded st.
Proof.
  rewrite monitors_run.
  destruct (speed_monitor filename t1 st d) as [[[st1|e1] d1] tr1] eqn:E1;
    [|discriminate].
  cbn [fst]. intros E2. apply progress_monitor_downloaded in E2. rewrite E2.
  apply (speed_monitor_downloaded d t1). now rewrite E1.
Qed.

(** The counter of bytes is the size of the file, and a stall is raised
    only while that size is below the expected one. *)
Lemma read_loop_stall_short (body : list read_result) :
  forall st d content site d' t,
    videos d !! filename = Some content ->
    downloaded st = len content ->
    read_loop filename total_size body st d = (Raise (TimeoutError site), d', t) ->
    site <> AtNetwork ->
    exists expected_size content',
      file_sizes_json d !! filename = Some expected_size
      /\ expected_size <> 0
      /\ videos d' !! filename = Some content'
      /\ len content' < expected_size.
Proof.
  induction body as [|ev rest IH]; intros st d content site d' t Hc Hn H Hsite;
    [discriminate|].
  destruct ev as [[|b bs] t1 t2|fl]; [discriminate| |].
  - rewrite read_loop_data in H. cbn zeta in H. rewrite Hc in H.
    change (default [] (Some content)) with content in H.
    set (chunk := b :: bs) in *.
    set (d1 := set_video filename (content ++ chunk) d) in *.
    set (st1 := add_downloaded (Z.of_nat (length chunk)) st) in *.
    assert (Hn1 : downloaded st1 = len (content ++ chunk)).
    { unfold st1, len in *. cbn [downloaded add_downloaded].
      rewrite length_app, Nat2Z.inj_add. lia. }
    destruct (fst (fst (monitors filename total_size t1 t2 st1 d1))) as [st2|e] eqn:Em.
    + destruct (read_loop filename total_size rest st2 d1) as [[r d2] tr2] eqn:E.
      injection H as -> <- <-.
      assert (Hn2 : downloaded st2 = len (content ++ chunk))
        by now rewrite (monitors_downloaded _ _ _ _ _ Em).
      destruct (IH st2 d1 (content ++ chunk) site d2 tr2
                  (videos_set_video _ _ _) Hn2 E Hsite)
        as (ex & content' & Hex & Hnz & Hv & Hlt).
      exists ex, content'. auto.
    + injection H as -> <- <-.
      apply monitors_raise in Em as [[=]|[_ Hs]].
      apply stalled_short_spec in Hs as (ex & Hex & Hnz & Hlt).
      exists ex, (content ++ chunk). split; [exact Hex|]. split; [exact Hnz|].
      split; [apply videos_set_video|]. now rewrite <- Hn1.
  - cbn in H. injection H as E _ _. destruct fl; try discriminate.
    injection E as <-. congruence.
Qed.

(** With no declared length the progress monitor does nothing. *)
Lemma progress_monitor_no_length (d : disk) t st :
  total_size <= 0 ->
  progress_monitor filename total_size t st d = (Return st, d, []).
Proof.
  intros H. rewrite progress_monitor_run.
  destruct (Z.gtb_spec total_size 0); [lia|reflexivity].
Qed.

Lemma low_streak_counter_exact (d : disk) (body : list read_result) :
  total_size <= 0 ->
  forall st n m st',
    low_streak filename total_size d body st n = Some (m, st') ->
    Z.of_nat n = stall_count st ->
    Z.of_nat m = stall_count st'.
Proof.
  intros Hts. induction body as [|ev rest IH]; intros st n m st' H Hn.
  - injection H as <- <-. exact Hn.
  - destruct ev as [[|b bs] t1 t2|fl]; try discriminate.
    cbn [low_streak] in H. cbn zeta in H.
    rewrite monitors_run, speed_monitor_run in H.
    set (st1 := add_downloaded (Z.of_nat (length (b :: bs))) st) in *.
    assert (Hc : stall_count st1 = stall_count st) by reflexivity.
    destruct (sample t1 st1) as [[|]|].
    + destruct ((stall_count st1 + 1 >=? 3) && stalled_short _ _ _); [discriminate|].
      rewrite progress_monitor_no_length in H by exact Hts. cbn [fst] in H.
      apply IH in H; [exact H|]. cbn. lia.
    + rewrite progress_monitor_no_length in H by exact Hts. cbn [fst] in H.
      apply IH in H; [exact H|]. reflexivity.
    + rewrite progress_monitor_no_length in H by exact Hts. cbn [fst] in H.
      apply IH in H; [exact H|]. now rewrite Hc.
Qed.

Lemma read_loop_no_length_no_progress_stall (body : list read_result) :
  total_size <= 0 ->
  forall st d,
    fst (fst (read_loop filename total_size body st d))
    <> Raise (TimeoutError AtProgressCheck).
Proof.
  intros Hts. induction body as [|ev rest IH]; intros st d; [discriminate|].
  destruct ev as [[|b bs] t1 t2|fl]; [discriminate| |destruct fl; discriminate].
  rewrite read_loop_data. cbn zeta. rewrite monitors_run, speed_monitor_run.
  assert (Hnext : forall st1 d1,
            fst (fst (match fst (fst (progress_monitor filename total_size t2 st1 d1)) with
                      | Return st2 =>
                          match read_loop filename total_size rest st2 d1 with
                          | (r, d2, t) => (r, d2, Write filename (b :: bs) :: t)
                          end
                      | Raise e => (Raise e, d1, [Write filename (b :: bs)])
                      end)) <> Raise (TimeoutError AtProgressCheck)).
  { intros st1 d1. rewrite progress_monitor_no_length by exact Hts. cbn [fst].
    specialize (IH st1 d1). now destruct (read_loop _ _ rest st1 d1) as [[r d2] t]. }
  destruct (sample t1 _) as [[|]|]; [destruct (_ && stalled_short _ _ _)|..];
    cbn [fst]; try apply Hnext. discriminate.
Qed.

End MoreStalls.

(** X10. When the response declares no content length (or a length that
    is not positive), the progress monitor never aborts the attempt, and
    the speed monitor aborts it only on the third or a later one of
    consecutive low throughput samples, the expected size being on record
    and not reached. *)
Theorem without_length_three_low_samples_are_needed
    (filename : str) (total_size : Z) (d : disk) :
  total_size <= 0 ->
  (forall body st,
      fst (fst (read_loop filename total_size body st d))
      <> Raise (TimeoutError AtProgressCheck))
  /\ (forall pre st0 m st b bs t1 t2,
         stall_count st0 = 0 ->
         low_streak filename total_size d pre st0 0 = Some (m, st) ->
         fst (fst (read_loop filename total_size (pre ++ [Data (b :: bs) t1 t2]) st0 d))
         = Raise (TimeoutError AtSpeedCheck) ->
         (2 <= m)%nat
         /\ sample t1 (add_downloaded (Z.of_nat (length (b :: bs))) st) = Some true
         /\ exists expected_size,
             file_sizes_json d !! filename = Some expected_size
             /\ downloaded st + Z.of_nat (length (b :: bs)) < expected_size).
Proof.
  intros Hts. split.
  - intros body st. now apply read_loop_no_length_no_progress_stall.
  - intros pre st0 m st b bs t1 t2 Hst0 Hlow Hr.
    pose proof (low_streak_counter_exact _ _ _ _ Hts _ _ _ _ Hlow
                  ltac:(now rewrite Hst0)) as Hcount.
    destruct (read_loop_prefix _ _ _ _ _ _ _ _ [Data (b :: bs) t1 t2] d Hlow eq_refl)
      as (d1 & Hd1 & E).
    rewrite E, read_loop_data in Hr. cbn zeta in Hr.
    rewrite monitors_run in Hr.
    set (st1 := add_downloaded (Z.of_nat (length (b :: bs))) st) in *.
    set (d2 := set_video filename _ d1) in *.
    destruct (speed_monitor filename t1 st1 d2) as [[[st2|e] d3] tr3] eqn:Es.
    + rewrite progress_monitor_no_length in Hr by exact Hts. cbn in Hr. discriminate.
    + cbn in Hr. injection Hr as ->.
      assert (Hraise : fst (fst (speed_monitor filename t1 st1 d2))
                       = Raise (TimeoutError AtSpeedCheck)) by now rewrite Es.
      apply speed_monitor_raises in Hraise as (_ & Hs & Hc & Hsh).
      apply stalled_short_spec in Hsh as (ex & Hex & _ & Hlt).
      split; [cbn in Hc; lia|]. split; [exact Hs|].
      exists ex. split; [|exact Hlt].
      unfold get_expected_sizes, d2 in Hex. cbn in Hex. now rewrite Hd1 in Hex.
Qed.

Lemma without_length_three_low_samples_are_needed_witness :
  (2 <= 2)%nat
  /\ sample (inject_Z 240)
       (add_downloaded 1 (AttemptState 2 (inject_Z 0) 2 (inject_Z 180) 2 (inject_Z 0)))
     = Some true.
Proof.
  destruct (proj2 (without_length_three_low_samples_are_needed
                     Examples.video 0 Examples.sized_disk ltac:(lia))
              (take 2 Examples.three_slow_chunks) (initial_state (inject_Z 0)) 2%nat
              (AttemptState 2 (inject_Z 0) 2 (inject_Z 180) 2 (inject_Z 0))
              Examples.x [] (inject_Z 240) (inject_Z 240))
    as (Hm & Hs & _).
  - reflexivity.
  - vm_compute. reflexivity.
  - vm_compute. reflexivity.
  - split; [exact Hm|exact Hs].
Defined.

(** X11. An attempt that a stall check aborts leaves a file shorter than
    the expected size on record: [is_file_complete] rejects it. *)
Theorem stalled_attempt_leaves_incomplete_file
    (s : session) (url filename : str) (retry_count : Z) (d : disk) site d1 t1 :
  attempt s url filename retry_count d = (Raise (TimeoutError site), d1, t1) ->
  site <> AtNetwork ->
  exists expected_size,
    file_sizes_json d !! filename = Some expected_size
    /\ is_file_complete filename expected_size d1 = false.
Proof.
  rewrite attempt_run. intros H Hsite.
  destruct (get s url retry_count) as [f|status cl body].
  { destruct f; try discriminate. injection H as <- _ _. congruence. }
  destruct (status =? 200); [|discriminate].
  assert (Hloop : forall ts d' t',
            read_loop filename ts body (initial_state (start_clock s url retry_count))
              (set_video filename [] d) = (Raise (TimeoutError site), d', t') ->
            exists expected_size,
              file_sizes_json d !! filename = Some expected_size
              /\ is_file_complete filename expected_size d' = false).
  { intros ts d' t' E.
    apply (read_loop_stall_short _ _ _ _ _ []) in E
      as (ex & content' & Hex & _ & Hv & Hlt);
      [|apply videos_set_video|reflexivity|exact Hsite].
    exists ex. split; [exact Hex|]. unfold is_file_complete. rewrite Hv.
    apply Z.eqb_neq. unfold len in Hlt. lia. }
  destruct cl as [| |n]; [|discriminate|];
    (destruct (open_error filename) as [e0|] eqn:Eo;
       [injection H as -> _ _; now destruct (open_error_exn _ _ Eo)|]);
    cbn zeta in H;
    destruct (read_loop _ _ _ _ _) as [[[u|e] d'] t'] eqn:E; try discriminate;
    injection H as -> <- _; exact (Hloop _ _ _ E).
Qed.

Lemma stalled_attempt_leaves_incomplete_file_witness :
  exists expected_size,
    file_sizes_json Examples.sized_disk !! Examples.video = Some expected_size
    /\ is_file_complete Examples.video expected_size
         (snd (fst (attempt
                      (Examples.always
                         (Response 200 (IntHeader 1000000000) Examples.two_slow_chunks))
                      Examples.video_url Examples.video 0 Examples.sized_disk)))
       = false.
Proof.
  destruct (attempt
              (Examples.always
                 (Response 200 (IntHeader 1000000000) Examples.two_slow_chunks))
              Examples.video_url Examples.video 0 Examples.sized_disk)
    as [[r d1] t1] eqn:E.
  assert (Hr : r = Raise (TimeoutError AtSpeedCheck)) by (vm_compute in E; congruence).
  subst r. cbn [fst snd].
  apply (stalled_attempt_leaves_incomplete_file _ _ _ _ _ _ _ _ E). discriminate.
Defined.

(** ** Downloads that no check guards *)

Section OneChunk.

Variables (filename : str) (total_size : Z).

(** With no stall counted yet, the two monitors let one chunk pass. *)
Lemma monitors_first_chunk (d : disk) t1 t2 st :
  stall_count st = 0 ->
  0 <= downloaded st < 2 ^ 1000 ->
  exists st', fst (fst (monitors filename total_size t1 t2 st d)) = Return st'.
Proof.
  intros Hc Hb. rewrite monitors_run, speed_monitor_run.
  assert (Hp : forall st1,
            stall_count st1 <= 1 ->
            downloaded st1 = downloaded st ->
            exists st',
              fst (fst (progress_monitor filename total_size t2 st1 d)) = Return st').
  { intros st1 H1 Hd. rewrite progress_monitor_run. cbn [fst].
    destruct (Z.gtb_spec total_size 0) as [Hts|_]; [|eauto].
    destruct (percentage (downloaded st1) total_size) as [progress|] eqn:Ep.
    2:{ exfalso. apply (percentage_finite (downloaded st1) total_size); [lia|lia|exact Ep]. }
    destruct (int_of_float _ >? int_of_float _); [eauto|].
    destruct (Qlt_bool _ _ && stalled_short _ _ _); [|eauto].
    destruct (Z.geb_spec (stall_count st1 + 1) 3); [lia|eauto]. }
  destruct (sample t1 st) as [[|]|].
  - destruct (Z.geb_spec (stall_count st + 1) 3); [lia|].
    cbn [andb fst]. apply Hp; [cbn; lia|reflexivity].
  - cbn [fst]. apply Hp; [cbn; lia|reflexivity].
  - cbn [fst]. apply Hp; [lia|reflexivity].
Qed.

Lemma read_loop_one_chunk (body : list read_result) (st : attempt_state) (d : disk) :
  stall_count st = 0 ->
  downloaded st = 0 ->
  clean_body body = true ->
  (length (stream_chunks body) <= 1)%nat ->
  total_bytes (stream_chunks body) < 2 ^ 1000 ->
  fst (fst (read_loop filename total_size body st d)) = Return tt.
Proof.
  intros Hc Hd Hclean Hlen Hb.
  destruct body as [|[[|b bs] t1 t2|fl] rest]; [reflexivity|reflexivity| |discriminate].
  cbn [clean_body stream_chunks length total_bytes fold_right] in Hclean, Hlen, Hb.
  pose proof (total_bytes_nonneg (stream_chunks rest)) as Hnn.
  fold (total_bytes (stream_chunks rest)) in Hb.
  rewrite read_loop_data. cbn zeta.
  destruct (monitors_first_chunk
              (set_video filename (default [] (videos d !! filename) ++ b :: bs) d)
              t1 t2 (add_downloaded (Z.of_nat (length (b :: bs))) st) Hc)
    as [st' ->].
  { cbn [downloaded add_downloaded length] in *. rewrite Hd. lia. }
  destruct rest as [|[[|b' bs'] t1' t2'|fl] rest']; try reflexivity.
  - cbn in Hlen. lia.
  - discriminate.
Qed.

End OneChunk.

(** X15. [download_video] never compares what it wrote with a declared or
    an expected size: a body that ends, without a network failure, after
    at most one chunk (an empty body included) is written under its plain
    file name and marked as downloaded, whatever content length the
    response declares, whatever size is on record and whenever the chunk
    arrives. *)
Theorem single_chunk_body_is_marked
    (s : session) (url filename : str) (d : disk) cl body :
  get s url 0 = Response 200 cl body ->
  cl <> BadHeader ->
  clean_body body = true ->
  (length (stream_chunks body) <= 1)%nat ->
  plain_name filename ->
  total_bytes (stream_chunks body) < 2 ^ 1000 ->
  download_video s url filename 0 d
  = (Return (Some true),
     mark_as_downloaded filename (set_video filename (concat (stream_chunks body)) d),
     Sleep RATE_LIMIT_DELAY :: Get url :: Open filename
     :: List.map (Write filename) (stream_chunks body)
     ++ [Close filename; Mark filename]).
Proof.
  intros Hg Hcl Hc Hlen Hname Hb. unfold download_video. rewrite download_video_rec_step.
  destruct (attempt s url filename 0 d) as [[ra d1] t1] eqn:Ea.
  destruct (attempt_outcome _ _ _ _ _ _ _ _ Ea)
    as [(-> & cl' & body' & Hg' & _ & -> & ->)|(Hr & _)].
  - rewrite Hg in Hg'. injection Hg' as <- <-. reflexivity.
  - exfalso. apply Hr. rewrite attempt_run, Hg, (plain_name_opens _ Hname) in Ea.
    cbn [Z.eqb Pos.eqb] in Ea.
    pose proof (fun ts => read_loop_one_chunk filename ts body
                  (initial_state (start_clock s url 0))
                  (set_video filename [] d) eq_refl eq_refl Hc Hlen Hb) as Hloop.
    destruct cl as [| |n]; [specialize (Hloop 0)|congruence|specialize (Hloop n)];
      cbn zeta in Ea;
      destruct (read_loop _ _ _ _ _) as [[[[]|e] d2] t2];
      try discriminate Hloop; congruence.
Qed.

Lemma single_chunk_body_is_marked_witness :
  exists d',
    download_video Cases.short_session Examples.video_url Examples.video 0
      Cases.expecting_disk
    = (Return (Some true), d',
       [Sleep 60; Get Examples.video_url; Open Examples.video;
        Write Examples.video [Examples.x; Examples.x; Examples.x];
        Close Examples.video; Mark Examples.video])
    /\ is_file_complete Examples.video 1000 d' = false
    /\ Examples.video ∈ get_downloaded_files d'.
Proof.
  eexists. split; [|split].
  - apply (single_chunk_body_is_marked Cases.short_session Examples.video_url
             Examples.video Cases.expecting_disk (IntHeader 3) Cases.short_body).
    + reflexivity.
    + discriminate.
    + reflexivity.
    + cbn. lia.
    + repeat split; apply (bool_decide_unpack _); vm_compute; exact I.
    + vm_compute. reflexivity.
  - vm_compute. reflexivity.
  - apply (bool_decide_unpack _). vm_compute. exact I.
Defined.

(** ** Connectivity check *)

(** X14. [check_network_connectivity] never raises. It starts with the
    name lookup and runs the ping only when the lookup exits with 0; it
    returns [True] exactly when both commands exit with 0 and the output of
    the ping decodes as text. *)
Theorem connectivity_needs_both_commands (run : command -> process_result) :
  (fst (check_network_connectivity run) = true
   <-> (exists out err, run Nslookup = Exited 0 out err)
       /\ (exists err, run Ping = Exited 0 true err))
  /\ (snd (check_network_connectivity run) = [Nslookup; Ping]
      <-> exists out err, run Nslookup = Exited 0 out err)
  /\ (snd (check_network_connectivity run) = [Nslookup]
      \/ snd (check_network_connectivity run) = [Nslookup; Ping]).
Proof.
  unfold check_network_connectivity, connectivity_body, decode.
  destruct (run Nslookup) as [|rc out err].
  { cbn. split; [|split; [|auto]]; split; try discriminate.
    - intros [(o & e & [=]) _].
    - intros (o & e & [=]). }
  destruct (Z.eqb_spec rc 0) as [->|Hrc].
  - destruct (run Ping) as [|rc2 out2 err2].
    { cbn. split; [|split; [|auto]]; split; eauto; try discriminate.
      intros [_ (e & [=])]. }
    destruct (Z.eqb_spec rc2 0) as [->|Hrc2].
    + destruct out2; cbn; (split; [|split; [|auto]]); split; eauto; try discriminate.
      intros [_ (e & [=])].
    + destruct err2; cbn; (split; [|split; [|auto]]); split; eauto; try discriminate;
        intros [_ (e & [= E])]; congruence.
  - destruct err; cbn; (split; [|split; [|auto]]); split; try discriminate;
      try (intros [(o & e & [= E]) _]; congruence);
      intros (o & e & [= E]); congruence.
Qed.

Lemma connectivity_needs_both_commands_witness :
  check_network_connectivity Cases.network_up = (true, [Nslookup; Ping])
  /\ check_network_connectivity Cases.dns_down = (false, [Nslookup]).
Proof.
  pose proof (connectivity_needs_both_commands Cases.network_up) as (Hup & _ & _).
  split; [|reflexivity].
  assert (H : fst (check_network_connectivity Cases.network_up) = true).
  { apply Hup. split; [exists true, true|exists true]; reflexivity. }
  destruct (check_network_connectivity Cases.network_up) as [b c] eqn:E.
  cbn in H. subst b. vm_compute in E. now injection E as <-.
Defined.

(** ** Order of the batch, progress and truncation *)

Lemma filter_sublist {A} (P : A -> bool) (l : list A) : sublist (List.filter P l) l.
Proof.
  induction l as [|a l IH]; [constructor|]. cbn [List.filter].
  destruct (P a); [now apply sublist_skip|now apply sublist_cons].
Qed.

(** X16. The urls of a batch follow the work list: read in order, the
    urls given to the workers are the lines of the work list with some
    lines left out, never reordered. *)
Theorem batch_follows_the_work_list (limit : option Z) (d : disk) :
  sublist (List.map fst (workers (download_videos limit d)))
    (stripped_lines (download_list_txt d)).
Proof.
  rewrite download_videos_workers, List.map_map. cbn [download_with_semaphore fst].
  rewrite List.map_id.
  assert (H : sublist (new_video_urls None d) (stripped_lines (download_list_txt d))).
  { rewrite new_video_urls_unlimited.
    etransitivity; [apply filter_sublist|apply filter_sublist]. }
  destruct limit as [n|]; [|exact H].
  rewrite new_video_urls_limit. etransitivity; [apply sublist_take|exact H].
Qed.

Section Truncation.

Variables (s : session) (url filename : str).

(** X17. Every attempt that gets a 200 response with a usable content
    length, for a plain file name, starts the file anew: after it the
    file holds a prefix of the chunks of that response, all of them
    exactly when the attempt succeeds, and nothing of what the file held
    before. *)
Theorem attempt_rewrites_the_file (retry_count : Z) (d : disk) cl body r d1 t1 :
  get s url retry_count = Response 200 cl body ->
  cl <> BadHeader ->
  plain_name filename ->
  attempt s url filename retry_count d = (r, d1, t1) ->
  exists k,
    (k <= length (stream_chunks body))%nat
    /\ videos d1 !! filename = Some (concat (take k (stream_chunks body)))
    /\ (r = Return true -> k = length (stream_chunks body)).
Proof.
  intros Hg Hcl Hname. rewrite attempt_run, Hg, (plain_name_opens _ Hname).
  cbn [Z.eqb Pos.eqb].
  assert (Hloop : forall ts r' d' t',
            read_loop filename ts body (initial_state (start_clock s url retry_count))
              (set_video filename [] d) = (r', d', t') ->
            exists k,
              (k <= length (stream_chunks body))%nat
              /\ videos d' !! filename = Some (concat (take k (stream_chunks body)))
              /\ (r' = Return tt -> k = length (stream_chunks body))).
  { intros ts r' d' t' E.
    apply (read_loop_writes _ _ _ _ _ _ _ _ _ (videos_set_video _ _ _)) in E
      as (k & Hk & _ & -> & Hr).
    exists k. split; [exact Hk|]. split; [apply videos_set_video|].
    intros Hret. now destruct (Hr Hret). }
  destruct cl as [| |n]; [|congruence|]; cbn zeta;
    destruct (read_loop _ _ _ _ _) as [[[[]|e] d'] t'] eqn:E;
    destruct (Hloop _ _ _ _ E) as (k & Hk & Hv & Hr);
    intros [= <- <- <-]; exists k;
    (split; [exact Hk|split; [exact Hv|]]); auto; discriminate.
Qed.

End Truncation.

Lemma attempt_rewrites_the_file_witness :
  exists k,
    (k <= 0)%nat
    /\ videos (snd (fst (attempt
                           (Examples.always (Response 200 NoHeader [ReadError TimedOut]))
                           (py "http://h/other.mp4") (py "other.mp4") 0
                           Cases.other_video_disk)))
         !! py "other.mp4"
       = Some (concat (take k [])).
Proof.
  destruct (attempt (Examples.always (Response 200 NoHeader [ReadError TimedOut]))
              (py "http://h/other.mp4") (py "other.mp4") 0 Cases.other_video_disk)
    as [[r d1] t1] eqn:E.
  destruct (attempt_rewrites_the_file
              (Examples.always (Response 200 NoHeader [ReadError TimedOut]))
              (py "http://h/other.mp4") (py "other.mp4") 0 Cases.other_video_disk
              NoHeader [ReadError TimedOut] r d1 t1
              eq_refl ltac:(discriminate)
              ltac:(repeat split; apply (bool_decide_unpack _); vm_compute; exact I)
              E) as (k & Hk & Hv & _).
  exists k. cbn [fst snd]. split; [exact Hk|exact Hv].
Defined.

Section Percentage.

Variables (filename : str) (total_size : Z) (d : disk).

Lemma monitors_percentage t1 t2 st st' :
  fst (fst (monitors filename total_size t1 t2 st d)) = Return st' ->
  last_progress st' = last_progress st
  \/ int_of_float (last_progress st) < int_of_float (last_progress st').
Proof.
  rewrite monitors_run, speed_monitor_run.
  assert (Hp : forall st1,
            last_progress st1 = last_progress st ->
            fst (fst (progress_monitor filename total_size t2 st1 d)) = Return st' ->
            last_progress st' = last_progress st
            \/ int_of_float (last_progress st) < int_of_float (last_progress st')).
  { intros st1 E. rewrite progress_monitor_run. cbn [fst].
    destruct (total_size >? 0); [|intros [= <-]; auto].
    destruct (percentage (downloaded st1) total_size) as [progress|]; [|discriminate].
    destruct (Z.gtb_spec (int_of_float progress) (int_of_float (last_progress st1)))
      as [Hgt|_].
    - intros [= <-]. right. cbn [last_progress set_progress]. now rewrite <- E.
    - destruct (Qlt_bool _ _ && stalled_short _ _ _); [|intros [= <-]; auto].
      destruct (stall_count st1 + 1 >=? 3); [discriminate|]. intros [= <-]. auto. }
  destruct (sample t1 st) as [[|]|].
  - destruct ((stall_count st + 1 >=? 3) && stalled_short _ _ _); [discriminate|].
    cbn [fst]. now apply Hp.
  - cbn [fst]. now apply Hp.
  - cbn [fst]. now apply Hp.
Qed.

(** X18. The percentage of the progress log never goes back: while the
    loop runs, the integer percentage last logged stays or grows, and the
    value kept changes only when it grows. *)
Theorem logged_percentage_never_decreases (body : list read_result) :
  forall st n m st',
    low_streak filename total_size d body st n = Some (m, st') ->
    last_progress st' = last_progress st
    \/ int_of_float (last_progress st) < int_of_float (last_progress st').
Proof.
  induction body as [|ev rest IH]; intros st n m st' H.
  - injection H as _ <-. now left.
  - destruct ev as [[|b bs] t1 t2|fl]; try discriminate.
    cbn [low_streak] in H. cbn zeta in H.
    destruct (monitors _ _ _ _ _ _) as [[[st2|e] d2] tr] eqn:E; [|discriminate].
    assert (E' : fst (fst (monitors filename total_size t1 t2
                             (add_downloaded (Z.of_nat (length (b :: bs))) st) d))
                 = Return st2) by now rewrite E.
    apply monitors_percentage in E'. cbn [last_progress add_downloaded] in E'.
    apply IH in H. destruct E' as [E1|E1], H as [E2|E2].
    + left. congruence.
    + right. now rewrite <- E1.
    + right. now rewrite E2.
    + right. lia.
Qed.

End Percentage.

Lemma logged_percentage_never_decreases_witness :
  exists st',
    low_streak Examples.video 3 Examples.empty_disk Examples.three_chunks
      (initial_state (inject_Z 0)) 0
    = Some (1%nat, st')
    /\ int_of_float (last_progress st') = 100
    /\ int_of_float (last_progress (initial_state (inject_Z 0)))
       < int_of_float (last_progress st').
Proof.
  destruct (low_streak Examples.video 3 Examples.empty_disk Examples.three_chunks
              (initial_state (inject_Z 0)) 0) as [[m st']|] eqn:E;
    [|vm_compute in E; discriminate].
  assert (Hm : m = 1%nat) by (vm_compute in E; congruence).
  assert (Hp : int_of_float (last_progress st') = 100)
    by (vm_compute in E; injection E as _ <-; reflexivity).
  subst m. exists st'. split; [reflexivity|]. split; [exact Hp|].
  destruct (logged_percentage_never_decreases Examples.video 3 Examples.empty_disk
              Examples.three_chunks (initial_state (inject_Z 0)) 0%nat 1%nat st' E)
    as [H|H]; [|exact H].
  rewrite H in Hp. vm_compute in Hp. discriminate.
Defined.
